(** * Figma-to-EDS block analysis: a shallow embedding

    The development follows the TypeScript sources of the analysis
    pipeline: the HTML simplifier ([HTMLSimplifier]), the design analyzer
    ([DesignAnalyzer]: signal extraction, classification, field derivation)
    and the analyzer enhancements ([AnalyzerEnhancements]: confidence
    scoring and the similar-block matcher).

    JavaScript strings are sequences of UTF-16 code units; they are
    embedded as lists of [N].  The regular expressions of the sources are
    kept as syntax trees and run by a backtracking matcher that follows the
    ECMAScript matching order (leftmost match, ordered alternatives, greedy
    and lazy quantifiers).  Numbers that the sources hold in doubles
    (similarities, font sizes, bounds) are exact rationals here. *)

From Stdlib Require Import String Ascii DecimalString DecimalNat.
From Stdlib Require Import List NArith ZArith QArith Qround Bool Arith Lia.
From Stdlib Require Import Sorted Permutation Lqa.
Import ListNotations.
Close Scope Q_scope.
Open Scope string_scope.
Open Scope list_scope.
Open Scope nat_scope.

Set Warnings "-register-all,-abstract-large-number".

Set Implicit Arguments.

(** ** JavaScript strings *)

Module JS.

(** A code unit and a string. *)
Abbreviation char := N (only parsing).
Abbreviation str := (list N) (only parsing).

(** An ASCII literal of the sources as a list of code units. *)
Definition u (s : string) : str := map N_of_ascii (list_ascii_of_string s).

(** The double quote, which string literals of this file avoid. *)
Definition dq : char := 34%N.
(** U+2022, the bullet of the list heuristics. *)
Definition bullet : char := 8226%N.
Definition nl : char := 10%N.

Definition in_range (lo hi c : char) : bool := (N.leb lo c && N.leb c hi)%bool.
Arguments in_range (lo hi c)%_N_scope.

(** WhiteSpace and LineTerminator code units: what [\s] matches and what
    [String.prototype.trim] removes. *)
Definition isSpace (c : char) : bool :=
  (in_range 9 13 c || N.eqb c 32 || N.eqb c 160 || N.eqb c 5760
   || in_range 8192 8202 c || N.eqb c 8232 || N.eqb c 8233
   || N.eqb c 8239 || N.eqb c 8287 || N.eqb c 12288 || N.eqb c 65279)%bool.

Definition isLineTerminator (c : char) : bool :=
  (N.eqb c 10 || N.eqb c 13 || N.eqb c 8232 || N.eqb c 8233)%bool.

Definition isDigit (c : char) : bool := in_range 48 57 c.

Definition asciiLower (c : char) : char :=
  if in_range 65 90 c then (c + 32)%N else c.
Definition asciiUpper (c : char) : char :=
  if in_range 97 122 c then (c - 32)%N else c.

(** [toLowerCase] on one code unit: the ASCII letters and the cased letters
    of Latin-1 (U+00C0..U+00DE without U+00D7).  Code units beyond Latin-1
    are left as they are: the embedding covers text whose cased letters
    lie in Latin-1, which is the case for the names and markup the
    patterns of the sources look for. *)
Definition lowerChar (c : char) : char :=
  if in_range 65 90 c then (c + 32)%N
  else if (in_range 192 222 c && negb (N.eqb c 215))%bool then (c + 32)%N
  else c.

Definition toLowerCase (s : str) : str := map lowerChar s.

Fixpoint eqb (a b : str) : bool :=
  match a, b with
  | [], [] => true
  | x :: a', y :: b' => (N.eqb x y && eqb a' b')%bool
  | _, _ => false
  end.

Fixpoint startsWith (s p : str) : bool :=
  match p, s with
  | [], _ => true
  | x :: p', y :: s' => (N.eqb x y && startsWith s' p')%bool
  | _ :: _, [] => false
  end.

(** [String.prototype.includes]. *)
Fixpoint includes (s p : str) : bool :=
  (startsWith s p ||
   match s with
   | [] => false
   | _ :: s' => includes s' p
   end)%bool.

Fixpoint dropWhile (p : char -> bool) (s : str) : str :=
  match s with
  | [] => []
  | c :: s' => if p c then dropWhile p s' else s
  end.

Definition trimStart (s : str) : str := dropWhile isSpace s.
Definition trimEnd (s : str) : str := rev (dropWhile isSpace (rev s)).
Definition trim (s : str) : str := trimEnd (trimStart s).

(** [s.substring(a, b)] for [a <= b]. *)
Definition substring (a b : nat) (s : str) : str := firstn (b - a) (skipn a s).

(** [s.split(sep)] for a one-unit separator. *)
Fixpoint splitOn (sep : char) (s : str) : list str :=
  match s with
  | [] => [[]]
  | c :: s' =>
      if N.eqb c sep then [] :: splitOn sep s'
      else match splitOn sep s' with
           | [] => [[c]]
           | h :: t => (c :: h) :: t
           end
  end.

(** [parts.join(sep)]. *)
Fixpoint join (sep : str) (parts : list str) : str :=
  match parts with
  | [] => []
  | [p] => p
  | p :: rest => p ++ sep ++ join sep rest
  end.

(** Decimal rendering of a number inside a template literal. *)
Definition ofNat (n : nat) : str :=
  u (NilEmpty.string_of_uint (Nat.to_uint n)).
Definition ofZ (z : Z) : str :=
  u (NilEmpty.string_of_int (Z.to_int z)).

(** [Math.round] on an exact rational: halves go up. *)
Definition Math_round (q : Q) : Z := Qfloor (Qplus q (1 # 2)).

(** Truthiness of a string: the empty string is falsy. *)
Definition nonEmpty (s : str) : bool :=
  match s with [] => false | _ => true end.

End JS.

(** ** Regular expressions *)

Module RegExp.

Import JS.

(** Members of a character class. *)
Inductive citem : Type :=
| CChar (c : char)
| CRange (lo hi : char)
| CSpace
| CDigit.
Arguments CChar c%_N_scope.
Arguments CRange (lo hi)%_N_scope.

Definition citem_has (i : citem) (c : char) : bool :=
  match i with
  | CChar x => N.eqb c x
  | CRange lo hi => in_range lo hi c
  | CSpace => isSpace c
  | CDigit => isDigit c
  end.

(** Pattern syntax.  [Rep r min max greedy] is [r{min,max}] (no upper bound
    when [max] is [None]) and its lazy form; [Grp i r] is the [i]-th
    capturing group; [NotAhead r] is [(?!r)].  No capturing group of the
    sources stands under a quantifier, so the reset of the captures at each
    iteration is not modelled. *)
Inductive regex : Type :=
| Eps
| Chr (c : char)
| Dot
| Cls (neg : bool) (items : list citem)
| Cat (r1 r2 : regex)
| Alt (r1 r2 : regex)
| Rep (r : regex) (min : nat) (max : option nat) (greedy : bool)
| Grp (i : nat) (r : regex)
| Bol
| Eol
| NotAhead (r : regex).
Arguments Chr c%_N_scope.

Record flags : Type := { ignoreCase : bool; multiline : bool }.

Definition noFlags : flags := {| ignoreCase := false; multiline := false |}.
Definition flagI : flags := {| ignoreCase := true; multiline := false |}.
Definition flagM : flags := {| ignoreCase := false; multiline := true |}.

(** Matcher state: the input still ahead, the code unit just behind (none
    at index 0) and the captures recorded so far. *)
Record mstate : Type := {
  rest : str;
  prev : option char;
  caps : list (nat * str)
}.

Definition step (st : mstate) (c : char) (tl : str) : mstate :=
  {| rest := tl; prev := Some c; caps := caps st |}.

(** Under the [i] flag a pattern character matches a unit with the same
    ASCII upper-case form, and a class matches a unit when it holds the
    unit or one of its ASCII case forms.  The patterns of the sources that
    carry the flag are written in ASCII, for which this is the
    canonicalization of the language definition. *)
Definition chrMatches (fl : flags) (x c : char) : bool :=
  if ignoreCase fl then N.eqb (asciiUpper c) (asciiUpper x) else N.eqb c x.

Definition clsHas (items : list citem) (c : char) : bool :=
  existsb (fun i => citem_has i c) items.

Definition clsMatches (fl : flags) (neg : bool) (items : list citem) (c : char) : bool :=
  let m := if ignoreCase fl
           then (clsHas items c || clsHas items (asciiUpper c)
                 || clsHas items (asciiLower c))%bool
           else clsHas items c in
  if neg then negb m else m.

(** The text consumed between two states of one run. *)
Definition consumed (st st' : mstate) : str :=
  firstn (length (rest st) - length (rest st')) (rest st).

Definition orElse {A} (a b : option A) : option A :=
  match a with Some x => Some x | None => b end.

(** The quantifier loop, after the RepeatMatcher of the language
    definition.  [run] matches one iteration; once the required iterations
    are done, an iteration that consumes nothing is rejected, which also
    bounds the loop by the input left ([fuel] is never exhausted). *)
Definition repLoop (run : mstate -> (mstate -> option mstate) -> option mstate)
           (greedy : bool) (k : mstate -> option mstate)
  : nat -> nat -> option nat -> mstate -> option mstate :=
  fix loop (fuel : nat) (min : nat) (max : option nat) (st : mstate) {struct fuel}
    : option mstate :=
    match fuel with
    | O => None
    | S fuel' =>
        match max with
        | Some O => k st
        | _ =>
            let iter :=
              run st (fun st' =>
                if ((min =? 0) && (length (rest st') =? length (rest st)))%bool
                then None
                else loop fuel' (pred min) (option_map pred max) st') in
            if 0 <? min then iter
            else if greedy then orElse iter (k st)
            else orElse (k st) iter
        end
    end.

(** The backtracking matcher, in continuation-passing style. *)
Fixpoint mrun (fl : flags) (r : regex) (st : mstate)
         (k : mstate -> option mstate) {struct r} : option mstate :=
  match r with
  | Eps => k st
  | Chr x =>
      match rest st with
      | c :: tl => if chrMatches fl x c then k (step st c tl) else None
      | [] => None
      end
  | Dot =>
      match rest st with
      | c :: tl => if isLineTerminator c then None else k (step st c tl)
      | [] => None
      end
  | Cls neg items =>
      match rest st with
      | c :: tl => if clsMatches fl neg items c then k (step st c tl) else None
      | [] => None
      end
  | Cat r1 r2 => mrun fl r1 st (fun st' => mrun fl r2 st' k)
  | Alt r1 r2 => orElse (mrun fl r1 st k) (mrun fl r2 st k)
  | Rep r0 min max greedy =>
      repLoop (mrun fl r0) greedy k (S (min + length (rest st))) min max st
  | Grp i r0 =>
      mrun fl r0 st (fun st' =>
        k {| rest := rest st'; prev := prev st';
             caps := (i, consumed st st') :: caps st' |})
  | Bol =>
      match prev st with
      | None => k st
      | Some c => if (multiline fl && isLineTerminator c)%bool then k st else None
      end
  | Eol =>
      match rest st with
      | [] => k st
      | c :: _ => if (multiline fl && isLineTerminator c)%bool then k st else None
      end
  | NotAhead r0 =>
      match mrun fl r0 st (fun st' => Some st') with
      | Some _ => None
      | None => k st
      end
  end.

(** A match: where it starts, the matched text and the captures. *)
Record rmatch : Type := {
  index : nat;
  whole : str;
  groups : list (nat * str)
}.

(** [m[i]] for a capturing group; [None] is [undefined]. *)
Fixpoint lookupGroup (i : nat) (g : list (nat * str)) : option str :=
  match g with
  | [] => None
  | (j, s) :: g' => if i =? j then Some s else lookupGroup i g'
  end.

Definition group (i : nat) (m : rmatch) : option str := lookupGroup i (groups m).

(** [m[i] || ''], and [$i] in a replacement. *)
Definition groupOr (i : nat) (m : rmatch) : str :=
  match group i m with Some s => s | None => [] end.

(** One attempt at the position where [s] starts. *)
Definition mexec (fl : flags) (r : regex) (idx : nat) (pv : option char) (s : str)
  : option rmatch :=
  let st := {| rest := s; prev := pv; caps := [] |} in
  match mrun fl r st (fun st' => Some st') with
  | Some st' => Some {| index := idx; whole := consumed st st'; groups := caps st' |}
  | None => None
  end.

(** [r.exec(s)] without the global flag, [s.match(r)], [r.test(s)]: the
    leftmost match. *)
Fixpoint searchFrom (fl : flags) (r : regex) (idx : nat) (pv : option char) (s : str)
  : option rmatch :=
  match mexec fl r idx pv s with
  | Some m => Some m
  | None =>
      match s with
      | [] => None
      | c :: tl => searchFrom fl r (S idx) (Some c) tl
      end
  end.

Definition search (fl : flags) (r : regex) (s : str) : option rmatch :=
  searchFrom fl r 0 None s.

Definition test (fl : flags) (r : regex) (s : str) : bool :=
  match search fl r s with Some _ => true | None => false end.

(** All matches under the global flag ([matchAll], [match] and an [exec]
    loop): after a match the scan resumes behind it, one unit further when
    the match was empty.  [skip] counts the units of the last match still
    to pass. *)
Fixpoint scanAll (fl : flags) (r : regex) (idx : nat) (pv : option char) (s : str)
         (skip : nat) : list rmatch :=
  match s with
  | [] =>
      match skip with
      | O => match mexec fl r idx pv [] with Some m => [m] | None => [] end
      | S _ => []
      end
  | c :: tl =>
      match skip with
      | S n => scanAll fl r (S idx) (Some c) tl n
      | O =>
          match mexec fl r idx pv s with
          | Some m => m :: scanAll fl r (S idx) (Some c) tl (pred (length (whole m)))
          | None => scanAll fl r (S idx) (Some c) tl 0
          end
      end
  end.

Definition matchAll (fl : flags) (r : regex) (s : str) : list rmatch :=
  scanAll fl r 0 None s 0.

(** [s.replace(r, f)] under the global flag. *)
Fixpoint replaceScan (fl : flags) (r : regex) (f : rmatch -> str) (idx : nat)
         (pv : option char) (s : str) (skip : nat) : str :=
  match s with
  | [] =>
      match skip with
      | O => match mexec fl r idx pv [] with Some m => f m | None => [] end
      | S _ => []
      end
  | c :: tl =>
      match skip with
      | S n => replaceScan fl r f (S idx) (Some c) tl n
      | O =>
          match mexec fl r idx pv s with
          | Some m =>
              f m ++
              match length (whole m) with
              | O => c :: replaceScan fl r f (S idx) (Some c) tl 0
              | S n => replaceScan fl r f (S idx) (Some c) tl n
              end
          | None => c :: replaceScan fl r f (S idx) (Some c) tl 0
          end
      end
  end.

Definition replaceAll (fl : flags) (r : regex) (f : rmatch -> str) (s : str) : str :=
  replaceScan fl r f 0 None s 0.

(** [s.replace(r, f)] without the global flag: the first match only. *)
Definition replaceFirst (fl : flags) (r : regex) (f : rmatch -> str) (s : str) : str :=
  match search fl r s with
  | Some m => firstn (index m) s ++ f m ++ skipn (index m + length (whole m)) s
  | None => s
  end.

(** [s.split(r)[0]]: the text before the first match of a pattern that
    matches no empty text. *)
Definition splitHead (fl : flags) (r : regex) (s : str) : str :=
  match search fl r s with
  | Some m => firstn (index m) s
  | None => s
  end.

(** *** Pattern notation *)

Fixpoint seq (rs : list regex) : regex :=
  match rs with
  | [] => Eps
  | [r] => r
  | r :: rs' => Cat r (seq rs')
  end.

Fixpoint alts (rs : list regex) : regex :=
  match rs with
  | [] => Eps
  | [r] => r
  | r :: rs' => Alt r (alts rs')
  end.

(** A run of literal code units. *)
Definition lits (s : str) : regex := seq (map Chr s).
Definition lit (s : string) : regex := lits (u s).

Definition star (r : regex) : regex := Rep r 0 None true.
Definition starLazy (r : regex) : regex := Rep r 0 None false.
Definition plus (r : regex) : regex := Rep r 1 None true.
Definition opt (r : regex) : regex := Rep r 0 (Some 1) true.
Definition atLeast (n : nat) (r : regex) : regex := Rep r n None true.
Definition between (n m : nat) (r : regex) : regex := Rep r n (Some m) true.
Definition betweenLazy (n m : nat) (r : regex) : regex := Rep r n (Some m) false.

(** [[\s\S]]: any code unit. *)
Definition anyUnit : regex := Cls true [].
(** [\s], [\d]. *)
Definition space : regex := Cls false [CSpace].
Definition digit : regex := Cls false [CDigit].
(** [[^c...]] for a list of ASCII characters. *)
Definition noneOf (s : string) : regex := Cls true (map CChar (u s)).
Definition oneOf (s : string) : regex := Cls false (map CChar (u s)).
(** [["']] and [[^"']]. *)
Definition quote : regex := Cls false [CChar dq; CChar 39%N].
Definition notQuote : regex := Cls true [CChar dq; CChar 39%N].

End RegExp.

(** ** The HTML simplifier *)

Module HTMLSimplifier.

Import JS RegExp.

(** The pattern of the return statement: [return], blanks, an opening
    parenthesis, anything (group 1, greedy), a closing parenthesis, an
    optional semicolon, blanks and a closing brace. *)
Definition reReturn : regex :=
  seq [lit "return"; star space; lit "("; Grp 1 (star anyUnit); lit ")";
       opt (lit ";"); star space; lit "}"].

(** The fallback pattern: from the first [<div] to the last [</div>]. *)
Definition reJsx : regex := seq [lit "<div"; star anyUnit; lit "</div>"].

Definition extractJSX (code : str) : str :=
  match search noFlags reReturn code with
  | Some returnMatch => trim (groupOr 1 returnMatch)
  | None =>
      match search noFlags reJsx code with
      | Some jsxMatch => whole jsxMatch
      | None => code
      end
  end.

(** [/className=/g] *)
Definition reClassName : regex := lit "className=".
(** A template literal in braces; group 1 is the text between the
    backticks, at least one unit without a backtick. *)
Definition reTemplate : regex := seq [lit "{`"; Grp 1 (plus (noneOf "`")); lit "`}"].
(** [/src=\{img[^}]+\}/g] *)
Definition reSrcVar : regex := seq [lit "src={img"; plus (noneOf "}"); lit "}"].

Definition convertReactToHTML (html : str) : str :=
  let html := replaceAll noFlags reClassName (fun _ => u "class=") html in
  let html := replaceAll noFlags reTemplate (fun m => groupOr 1 m) html in
  let html := replaceAll noFlags reSrcVar (fun _ => u "src=" ++ [dq; dq]) html in
  html.

(** Blanks, then a [class] attribute in double quotes. *)
Definition reClassAttr : regex :=
  seq [plus space; lit "class="; Chr dq; star (Cls true [CChar dq]); Chr dq].

Definition removeClassAttributes (html : str) : str :=
  replaceAll noFlags reClassAttr (fun _ => []) html.

(** [/\s+style=\{[^}]+\}/g] *)
Definition reStyleObj : regex := seq [plus space; lit "style={"; plus (noneOf "}"); lit "}"].
(** Blanks, then a [style] attribute in double quotes. *)
Definition reStyleAttr : regex :=
  seq [plus space; lit "style="; Chr dq; star (Cls true [CChar dq]); Chr dq].

Definition removeInlineStyles (html : str) : str :=
  let html := replaceAll noFlags reStyleObj (fun _ => []) html in
  let html := replaceAll noFlags reStyleAttr (fun _ => []) html in
  html.

(** The opening tag of a wrapper: [<div], not followed inside the tag by
    [data-name] (negative lookahead), the attributes (group 1) and [>]. *)
Definition reWrapperOpen : regex :=
  seq [lit "<div"; NotAhead (seq [star (noneOf ">"); lit "data-name"]);
       Grp 1 (star (noneOf ">")); lit ">"].

(** A wrapper around one [div] that carries [data-name=]; group 2 is the
    inner element up to the nearest [</div>] (lazy). *)
Definition reWrapNamed : regex :=
  seq [reWrapperOpen; star space;
       Grp 2 (seq [lit "<div"; star (noneOf ">"); lit "data-name="; star (noneOf ">");
                   lit ">"; starLazy anyUnit; lit "</div>"]);
       star space; lit "</div>"].

(** A wrapper around one [p], [img] or named [div]; group 2 is the inner
    element up to the nearest [</p>] or [</div>] (lazy). *)
Definition reWrapSemantic : regex :=
  seq [reWrapperOpen; star space;
       Grp 2 (seq [lit "<";
                   alts [lit "p"; lit "img"; seq [lit "div"; plus space; lit "data-name"]];
                   star (noneOf ">"); lit ">"; starLazy anyUnit; lit "</";
                   alts [lit "p"; lit "div"]; lit ">"]);
       star space; lit "</div>"].

Definition collapseLayoutWrappers (html : str) : str :=
  let html := Nat.iter 5 (replaceAll noFlags reWrapNamed (fun m => groupOr 2 m)) html in
  let html := Nat.iter 3 (replaceAll noFlags reWrapSemantic (fun m => groupOr 2 m)) html in
  html.

(** A [div] whose [data-name] is the given name in double quotes: group 1
    is the attribute text, group 2 the content up to the nearest [</div>]. *)
Definition reNamedDiv (name : string) : regex :=
  seq [lit "<div";
       Grp 1 (seq [star (noneOf ">"); lit "data-name="; Chr dq; lit name; Chr dq;
                   star (noneOf ">")]);
       lit ">"; Grp 2 (starLazy anyUnit); lit "</div>"].

(** [/<img[^>]*>/] *)
Definition reImg : regex := seq [lit "<img"; star (noneOf ">"); lit ">"].

(** The replacer of the icon and image containers: keep the first [img] of
    the content. *)
Definition keepFirstImg (m : rmatch) : str :=
  match search noFlags reImg (groupOr 2 m) with
  | Some imgMatch => u "<div" ++ groupOr 1 m ++ u ">" ++ whole imgMatch ++ u "</div>"
  | None => whole m
  end.

(** A [div] named Vector; group 1 is its content up to the nearest
    [</div>]. *)
Definition reVector : regex :=
  seq [lit "<div"; star (noneOf ">"); lit "data-name="; Chr dq; lit "Vector"; Chr dq;
       star (noneOf ">"); lit ">"; Grp 1 (starLazy anyUnit); lit "</div>"].

Definition simplifyImages (html : str) : str :=
  let html := replaceAll noFlags (reNamedDiv "Icon") keepFirstImg html in
  let html := replaceAll noFlags (reNamedDiv "Image") keepFirstImg html in
  let html := replaceAll noFlags reVector (fun m => groupOr 1 m) html in
  html.

(** [/\s{2,}/g], [/>\s+</g], [/<\/div>/g], [/\n{3,}/g] *)
Definition reSpaces : regex := atLeast 2 space.
Definition reBetweenTags : regex := seq [lit ">"; plus space; lit "<"].
Definition reCloseDiv : regex := lit "</div>".
Definition reNewlines : regex := atLeast 3 (Chr nl).

Definition normalizeWhitespace (html : str) : str :=
  let html := replaceAll noFlags reSpaces (fun _ => u " ") html in
  let html := replaceAll noFlags reBetweenTags (fun _ => u "><") html in
  let html := trim html in
  let html := replaceAll noFlags reCloseDiv (fun _ => u "</div>" ++ [nl]) html in
  let html := replaceAll noFlags reNewlines (fun _ => [nl; nl]) html in
  html.

Definition simplify (reactCode : str) : str :=
  let html := reactCode in
  let html := extractJSX html in
  let html := convertReactToHTML html in
  let html := removeClassAttributes html in
  let html := removeInlineStyles html in
  let html := collapseLayoutWrappers html in
  let html := simplifyImages html in
  let html := normalizeWhitespace html in
  html.

(** Every pattern the simplifier looks for, in the order of its steps. *)
Definition simplificationPatterns : list regex :=
  [reReturn; reJsx; reClassName; reTemplate; reSrcVar; reClassAttr; reStyleObj;
   reStyleAttr; reWrapNamed; reWrapSemantic; reNamedDiv "Icon"; reNamedDiv "Image";
   reVector; reSpaces; reBetweenTags; reCloseDiv; reNewlines].


End HTMLSimplifier.

(** ** The data model *)

Module Model.

Import JS.

Inductive BlockType : Type := Single | MultiItem.
Inductive Component : Type := CText | CRichtext | CReference.
Inductive JsPattern : Type := PCards | PCarousel | PDecorated.
Inductive CtaType : Type := TButton | TLink.

Definition blockTypeEqb (a b : BlockType) : bool :=
  match a, b with
  | Single, Single | MultiItem, MultiItem => true
  | _, _ => false
  end.

Definition componentEqb (a b : Component) : bool :=
  match a, b with
  | CText, CText | CRichtext, CRichtext | CReference, CReference => true
  | _, _ => false
  end.

(** A schema field ([BlockField]). *)
Record BlockField : Type := {
  name : str;
  label : str;
  component : Component;
  valueType : str;
  required : bool;
  maxLength : option nat;
  description : option str
}.

(** An entry of [semanticCtas]. *)
Record SemanticCta : Type := {
  text : str;
  href : option str;
  ctaType : CtaType
}.

(** The signal bag returned by [parseCodeSignals].  [semanticCtas] is
    declared optional there. *)
Record CodeSignals : Type := {
  repeatedContainerNames : list (str * nat);
  distinctHeadings : list str;
  actionButtonCount : nat;
  itemLikeContainerCount : nat;
  multiItemLikely : bool;
  semanticCtas : option (list SemanticCta)
}.

Record ContentStructure : Type := {
  containerFields : list BlockField;
  itemFields : option (list BlockField);
  configurationOptions : list str;
  jsPattern : JsPattern
}.

(** The part of [BlockAnalysis] that classification, field derivation and
    scoring read and write; [codeSignals] is [debug.codeSignals], absent
    when [None].  Design tokens, interactions, variants and accessibility
    are not part of this embedding. *)
Record BlockAnalysis : Type := {
  blockType : BlockType;
  blockName : str;
  contentStructure : ContentStructure;
  codeSignals : option CodeSignals
}.

Definition setContentStructure (a : BlockAnalysis) (c : ContentStructure) : BlockAnalysis :=
  {| blockType := blockType a; blockName := blockName a;
     contentStructure := c; codeSignals := codeSignals a |}.

End Model.

(** ** The design analyzer: signal extraction *)

Module Signals.

Import JS RegExp Model.

(** The bag returned for missing or short markup. *)
Definition zeroSignals : CodeSignals :=
  {| repeatedContainerNames := [];
     distinctHeadings := [];
     actionButtonCount := 0;
     itemLikeContainerCount := 0;
     multiItemLikely := false;
     semanticCtas := Some [] |}.

Definition containerNamePatterns : list str :=
  [u "accordion item"; u "card"; u "service item"; u "plan card"; u "pricing card";
   u "tab item"; u "carousel item"; u "gallery item"].

(** The class that stands for a blank of a container name.  The source
    builds it from a string literal, where the escapes of the hyphen and of
    [s] denote the characters themselves: the class holds the double quote
    and the range from the apostrophe to the letter [s]. *)
Definition nameGap : regex := star (Cls false [CChar dq; CRange 39 115]).

(** [new RegExp(p.replace(/ /g, gap), 'g')] *)
Definition containerNameRegex (p : str) : regex :=
  seq (map (fun c => if N.eqb c 32 then nameGap else Chr c) p).

(** The [forEach] over the container name patterns: a name is recorded with
    its number of occurrences when it occurs at all. *)
Definition countContainerNames (code : str) : list (str * nat) :=
  flat_map (fun p =>
    let matches := matchAll noFlags (containerNameRegex p) code in
    if 0 <? length matches then [(p, length matches)] else [])
    containerNamePatterns.

(** A heading element, or an element whose class names a bold or large
    style; group 1 and group 2 hold the text (lazy, within one line). *)
Definition reHeading : regex :=
  Alt (seq [lit "<h"; Cls false [CRange 49 54]; star (noneOf ">"); lit ">";
            Grp 1 (starLazy Dot); lit "</h"; Cls false [CRange 49 54]; lit ">"])
      (seq [lit "class="; quote; star notQuote;
            alts [lit "font-bold"; lit "text-xl"; lit "text-2xl"; lit "heading"];
            star notQuote; quote; star (noneOf ">"); lit ">";
            Grp 2 (starLazy Dot); lit "</"]).

(** [/<[^>]+>/g] *)
Definition reTag : regex := seq [lit "<"; plus (noneOf ">"); lit ">"].

Definition stripTags (s : str) : str := replaceAll noFlags reTag (fun _ => []) s.

(** [m[1] || m[2] || ''] *)
Definition firstNonEmptyGroup (m : rmatch) : str :=
  if nonEmpty (groupOr 1 m) then groupOr 1 m
  else if nonEmpty (groupOr 2 m) then groupOr 2 m
  else [].

Definition headingTextsOf (code : str) : list str :=
  flat_map (fun m =>
    let text := trim (stripTags (firstNonEmptyGroup m)) in
    if (nonEmpty text && (length text <=? 60))%bool then [text] else [])
    (matchAll noFlags reHeading code).

(** [Array.from(new Set(xs))]: first occurrences, in order. *)
Fixpoint distinctFrom (seen : list str) (xs : list str) : list str :=
  match xs with
  | [] => []
  | x :: xs' =>
      if existsb (JS.eqb x) seen then distinctFrom seen xs'
      else x :: distinctFrom (x :: seen) xs'
  end.

Definition distinct (xs : list str) : list str := distinctFrom [] xs.

Definition actionKeywords : list str :=
  [u "add"; u "edit"; u "remove"; u "delete"; u "view"; u "upgrade"; u "select";
   u "choose"; u "learn more"; u "subscribe"; u "sign up"].

(** A button or an anchor whose text holds the keyword. *)
Definition reAction (k : str) : regex :=
  Alt (seq [lit "<button"; star (noneOf ">"); lit ">"; star (noneOf "<"); lits k;
            star (noneOf "<"); lit "<"])
      (seq [lit "<a"; star (noneOf ">"); lit ">"; star (noneOf "<"); lits k;
            star (noneOf "<"); lit "<"]).

Definition countActionButtons (code : str) : nat :=
  fold_left (fun acc k => acc + length (matchAll noFlags (reAction k) code))
            actionKeywords 0.

(** [/<button[^>]*>(.*?)<\/button>/g] *)
Definition reButton : regex :=
  seq [lit "<button"; star (noneOf ">"); lit ">"; Grp 1 (starLazy Dot); lit "</button>"].

(** An anchor with a quoted, non-empty [href] (group 1) and its content
    (group 2, lazy, within one line). *)
Definition reLink : regex :=
  seq [lit "<a"; star (noneOf ">"); lit "href="; quote; Grp 1 (plus notQuote); quote;
       star (noneOf ">"); lit ">"; Grp 2 (starLazy Dot); lit "</a>"].

(** A [div] whose [data-name] is Button; group 1 is its content up to the
    nearest [</div>]. *)
Definition reDivButton : regex :=
  seq [lit "<div"; star (noneOf ">"); lit "data-name="; quote; lit "Button"; quote;
       star (noneOf ">"); lit ">"; Grp 1 (starLazy anyUnit); lit "</div>"].

(** [/<p[^>]*>(.*?)<\/p>/i], [/<span[^>]*>(.*?)<\/span>/i], [/>([^<>]{1,100})</] *)
Definition rePara : regex :=
  seq [lit "<p"; star (noneOf ">"); lit ">"; Grp 1 (starLazy Dot); lit "</p>"].
Definition reSpan : regex :=
  seq [lit "<span"; star (noneOf ">"); lit ">"; Grp 1 (starLazy Dot); lit "</span>"].
Definition reBareText : regex :=
  seq [lit ">"; Grp 1 (between 1 100 (noneOf "<>")); lit "<"].

(** The test of the button elements: non-empty text of at most 100 units. *)
Definition buttonTextOk (text : str) : bool :=
  (nonEmpty text && (length text <=? 100))%bool.

(** The test of the anchors: text as for buttons, and a destination that is
    not empty, not [#], longer than one unit and no [javascript:] URL. *)
Definition linkOk (href text : str) : bool :=
  (nonEmpty text && nonEmpty href && negb (JS.eqb href (u "#"))
   && (1 <? length href) && negb (startsWith href (u "javascript:"))
   && (length text <=? 100))%bool.

Definition buttonCtas (code : str) : list SemanticCta :=
  flat_map (fun m =>
    let text := trim (stripTags (groupOr 1 m)) in
    if buttonTextOk text
    then [{| text := text; href := None; ctaType := TButton |}] else [])
    (matchAll noFlags reButton code).

Definition linkCtas (code : str) : list SemanticCta :=
  flat_map (fun m =>
    let href := groupOr 1 m in
    let text := trim (stripTags (groupOr 2 m)) in
    if linkOk href text
    then [{| text := text; href := Some href; ctaType := TLink |}] else [])
    (matchAll noFlags reLink code).

Definition divButtonCtas (rawCode : str) : list SemanticCta :=
  flat_map (fun m =>
    let inner := groupOr 1 m in
    let textMatch :=
      orElse (search flagI rePara inner)
             (orElse (search flagI reSpan inner) (search noFlags reBareText inner)) in
    match textMatch with
    | Some tm =>
        let rawText := trim (stripTags (groupOr 1 tm)) in
        if buttonTextOk rawText
        then [{| text := rawText; href := None; ctaType := TButton |}] else []
    | None => []
    end)
    (matchAll noFlags reDivButton rawCode).

(** The deduplicating filter: an entry is kept when the lower-cased text
    was not seen before. *)
Fixpoint dedupCtas (seen : list str) (cs : list SemanticCta) : list SemanticCta :=
  match cs with
  | [] => []
  | c :: cs' =>
      let norm := toLowerCase (text c) in
      if existsb (JS.eqb norm) seen then dedupCtas seen cs'
      else c :: dedupCtas (norm :: seen) cs'
  end.

(** The CTA candidates in the order they are pushed. *)
Definition ctaCandidates (rawCode : str) : list SemanticCta :=
  let code := toLowerCase rawCode in
  buttonCtas code ++ linkCtas code ++ divButtonCtas rawCode.

(** A quoted [data-name] among four item names. *)
Definition reItemLike : regex :=
  seq [lit "data-name="; Grp 1 (Alt (Chr dq) (lit "'"));
       Grp 2 (alts [lit "accordion item"; lit "card"; lit "service item"; lit "plan card"]);
       Grp 3 (Alt (Chr dq) (lit "'"))].

(** A quoted [data-name] that is [container]. *)
Definition reGenericContainer : regex :=
  seq [lit "data-name="; quote; lit "container"; quote].

(** A quoted [data-name] that is [heading], with an optional number. *)
Definition reSmallHeading : regex :=
  seq [lit "data-name="; quote; lit "heading"; opt (seq [lit " "; plus digit]); quote].

(** A bullet, blanks and a lower-case letter or a digit. *)
Definition reBulletItem : regex :=
  seq [Chr bullet; plus space; Cls false [CRange 97 122; CRange 48 57]].

Definition genericContainerCount (code : str) : nat :=
  length (matchAll noFlags reGenericContainer code).
Definition smallHeadingCount (code : str) : nat :=
  length (matchAll noFlags reSmallHeading code).
Definition bulletIndicatorCount (code : str) : nat :=
  length (matchAll noFlags reBulletItem code).

Definition genericContainerMultiItemSignal (code : str) : bool :=
  ((2 <=? genericContainerCount code)
   && ((2 <=? smallHeadingCount code) || (4 <=? bulletIndicatorCount code)))%bool.

(** [Object.values(names).some(c => c >= 2)] *)
Definition hasRepeatedContainers (names : list (str * nat)) : bool :=
  existsb (fun e => 2 <=? snd e) names.

(** [parseCodeSignals]; [None] is a call without markup. *)
Definition parseCodeSignals (rawCode : option str) : CodeSignals :=
  match rawCode with
  | None => zeroSignals
  | Some rawCode =>
      if (negb (nonEmpty rawCode) || (length rawCode <? 40))%bool then zeroSignals
      else
        let code := toLowerCase rawCode in
        let repeatedContainerNames := countContainerNames code in
        let distinctHeadings := distinct (headingTextsOf code) in
        let actionButtonCount := countActionButtons code in
        let filteredSemantic := dedupCtas [] (ctaCandidates rawCode) in
        let itemLikeContainerCount := length (matchAll noFlags reItemLike code) in
        let multiItemLikely :=
          (hasRepeatedContainers repeatedContainerNames
           || (2 <=? length distinctHeadings)
           || (2 <=? itemLikeContainerCount)
           || genericContainerMultiItemSignal code)%bool in
        {| repeatedContainerNames := repeatedContainerNames;
           distinctHeadings := distinctHeadings;
           actionButtonCount := actionButtonCount;
           itemLikeContainerCount := itemLikeContainerCount;
           multiItemLikely := multiItemLikely;
           semanticCtas := Some filteredSemantic |}
  end.

(** [sanitizeBlockName]: the four replacements after lower-casing. *)
Definition reNotNameChar : regex :=
  Cls true [CRange 97 122; CRange 48 57; CSpace; CChar 45].
Definition reBlanks : regex := plus space.
Definition reHyphens : regex := plus (Chr 45).
Definition reEdgeHyphen : regex := Alt (Cat Bol (Chr 45)) (Cat (Chr 45) Eol).

Definition sanitizeBlockName (name : str) : str :=
  let s := toLowerCase name in
  let s := replaceAll noFlags reNotNameChar (fun _ => []) s in
  let s := replaceAll noFlags reBlanks (fun _ => u "-") s in
  let s := replaceAll noFlags reHyphens (fun _ => u "-") s in
  let s := replaceAll noFlags reEdgeHyphen (fun _ => []) s in
  s.

End Signals.

(** ** The analyzer enhancements: confidence scoring and similar blocks *)

Module AnalyzerEnhancements.

Import JS Model.

Record ConfidenceScore : Type := {
  overall : Z;
  blockTypeScore : Z;
  fieldExtraction : Z;
  reasons : list str;
  suggestions : list str
}.

Record SimilarBlockPattern : Type := {
  patternName : str;
  similarity : Z;
  sharedCharacteristics : list str;
  suggestedFields : list BlockField
}.

(** A field of a stored model document, as
    [extractFieldsFromModel] reads it: every property but the name may be
    missing.  The documents are taken to use the three components of
    [BlockField]. *)
Record ModelField : Type := {
  mfName : str;
  mfLabel : option str;
  mfComponent : option Component;
  mfValueType : option str;
  mfRequired : option bool;
  mfMaxLength : option nat;
  mfDescription : option str
}.

(** A stored model document: [filters] and [models] may be missing, and so
    may the [fields] of a model definition. *)
Record ModelDoc : Type := {
  filters : option nat;              (* the length of [filters] *)
  models : option (list (option (list ModelField)))
}.

(** What the matcher finds for one directory of the corpus: no model file,
    a model document, or a file whose reading fails. *)
Inductive CorpusEntry : Type :=
| NoModelFile
| Document (m : ModelDoc)
| Unreadable.

(** The corpus: a missing directory, or the listing of its entries. *)
Inductive Corpus : Type :=
| NoDirectory
| Directory (entries : list (str * CorpusEntry)).

Definition clamp (z : Z) : Z := Z.max 0 (Z.min 100 z).

(** [calculateConfidenceScore].  The five variables of the source are
    threaded through the steps in the order of the statements. *)
Definition calculateConfidenceScore (analysis : BlockAnalysis) : ConfidenceScore :=
  let reasons : list str := [] in
  let suggestions : list str := [] in
  let blockTypeScore := 50%Z in
  let fieldExtractionScore := 50%Z in
  (* Block type confidence *)
  let '(blockTypeScore, reasons, suggestions) :=
    match codeSignals analysis with
    | Some cs =>
        let '(blockTypeScore, reasons) :=
          if multiItemLikely cs
          then ((blockTypeScore + 30)%Z,
                reasons ++ [u "Multi-item indicators found in code structure"])
          else (blockTypeScore, reasons) in
        let '(blockTypeScore, reasons) :=
          if 0 <? length (repeatedContainerNames cs)
          then ((blockTypeScore + 20)%Z,
                reasons ++ [u "Repeated container patterns detected"])
          else (blockTypeScore, reasons) in
        (blockTypeScore, reasons, suggestions)
    | None =>
        ((blockTypeScore - 20)%Z, reasons,
         suggestions ++ [u "Provide generated code for better analysis"])
    end in
  (* Field extraction confidence *)
  let cfs := containerFields (contentStructure analysis) in
  let hasContainerFields := 0 <? length cfs in
  let hasItemFields :=
    match itemFields (contentStructure analysis) with
    | Some fs => 0 <? length fs
    | None => false
    end in
  let isMulti := blockTypeEqb (blockType analysis) MultiItem in
  let '(fieldExtractionScore, reasons, suggestions) :=
    if hasContainerFields
    then ((fieldExtractionScore + 20)%Z,
          reasons ++ [u "Extracted " ++ ofNat (length cfs) ++ u " container fields"],
          suggestions)
    else if isMulti
    then ((fieldExtractionScore - 30)%Z, reasons,
          suggestions ++ [u "No container fields found - may need manual review"])
    else (fieldExtractionScore, reasons, suggestions) in
  let '(fieldExtractionScore, reasons, suggestions) :=
    if hasItemFields
    then ((fieldExtractionScore + 30)%Z,
          reasons ++ [u "Extracted "
                      ++ ofNat (match itemFields (contentStructure analysis) with
                                | Some fs => length fs
                                | None => 0
                                end)
                      ++ u " item fields"],
          suggestions)
    else if isMulti
    then ((fieldExtractionScore - 40)%Z, reasons,
          suggestions
          ++ [u "No item fields found - block may need manual field definition"])
    else (fieldExtractionScore, reasons, suggestions) in
  (* Semantic CTA detection *)
  let hasCTAs :=
    match codeSignals analysis with
    | Some cs =>
        match semanticCtas cs with
        | Some ctas => 0 <? length ctas
        | None => false
        end
    | None => false
    end in
  let '(fieldExtractionScore, reasons) :=
    if hasCTAs
    then ((fieldExtractionScore + 10)%Z,
          reasons ++ [u "Successfully detected CTA buttons from code"])
    else (fieldExtractionScore, reasons) in
  (* Normalize scores (0-100) *)
  let blockTypeScore := clamp blockTypeScore in
  let fieldExtractionScore := clamp fieldExtractionScore in
  let overall :=
    Math_round (Qdiv (inject_Z (blockTypeScore + fieldExtractionScore)) (inject_Z 2)) in
  {| overall := overall;
     blockTypeScore := blockTypeScore;
     fieldExtraction := fieldExtractionScore;
     reasons := reasons;
     suggestions := suggestions |}.

(** One row of the edit-distance matrix from the row above: [c] is the
    unit of [str2] of this row, [left] the entry just written to the left,
    [diag] the entry above it, [above] the rest of the upper row. *)
Fixpoint levRow (c : char) (str1 : str) (diag left : nat) (above : list nat) : list nat :=
  match str1, above with
  | x :: str1', up :: above' =>
      let v := if N.eqb c x then diag
               else Nat.min (diag + 1) (Nat.min (left + 1) (up + 1)) in
      v :: levRow c str1' up v above'
  | _, _ => []
  end.

(** The rows of the matrix, one per unit of [str2]; [i] is the row index,
    which is also the entry of column 0. *)
Fixpoint levRows (str1 str2 : str) (i : nat) (row : list nat) : list nat :=
  match str2 with
  | [] => row
  | c :: str2' =>
      let row' := S i :: levRow c str1 i (S i) (tl row) in
      levRows str1 str2' (S i) row'
  end.

(** [levenshteinDistance(str1, str2)]: the last entry of the last row. *)
Definition levenshteinDistance (str1 str2 : str) : nat :=
  last (levRows str1 str2 0 (List.seq 0 (S (length str1)))) 0.

(** [stringSimilarity], an exact rational where the source has a double. *)
Definition stringSimilarity (str1 str2 : str) : Q :=
  let longer := if length str2 <? length str1 then str1 else str2 in
  let shorter := if length str2 <? length str1 then str2 else str1 in
  if length longer =? 0 then 1%Q
  else
    let editDistance := levenshteinDistance longer shorter in
    Qdiv (inject_Z (Z.of_nat (length longer) - Z.of_nat editDistance))
         (inject_Z (Z.of_nat (length longer))).

Definition someIncludes (characteristics : list str) (words : list str) : bool :=
  existsb (fun c => existsb (fun w => includes c w) words) characteristics.

(** [existingModel.filters && existingModel.filters.length > 0] *)
Definition hasFilters (m : ModelDoc) : bool :=
  match filters m with Some n => 0 <? n | None => false end.

(** [calculateSimilarity], in exact rationals. *)
Definition calculateSimilarity (blockName existingBlockName : str)
           (characteristics : list str) (existingModel : ModelDoc) : Z :=
  let score := 0%Q in
  let maxScore := 0%Q in
  (* Name similarity (30 points) *)
  let maxScore := Qplus maxScore 30 in
  let nameSimilarity := stringSimilarity blockName existingBlockName in
  let score := Qplus score (Qmult nameSimilarity 30) in
  (* Characteristic matching (70 points) *)
  let maxScore := Qplus maxScore 70 in
  let isCarousel := someIncludes characteristics [u "carousel"; u "slider"] in
  let hasCarouselInName :=
    (includes existingBlockName (u "carousel")
     || includes existingBlockName (u "slider"))%bool in
  let score := if (isCarousel && hasCarouselInName)%bool then Qplus score 35 else score in
  let isCards := someIncludes characteristics [u "card"; u "grid"] in
  let hasCardsInName := includes existingBlockName (u "card") in
  let score := if (isCards && hasCardsInName)%bool then Qplus score 35 else score in
  let hasItems := hasFilters existingModel in
  let needsItems := someIncludes characteristics [u "multi-item"; u "repeating"] in
  let score := if (hasItems && needsItems)%bool then Qplus score 35 else score in
  Math_round (Qmult (Qdiv score maxScore) 100).

(** [extractFieldsFromModel] *)
Definition extractFieldsFromModel (model : ModelDoc) : list BlockField :=
  match models model with
  | None => []
  | Some defs =>
      flat_map (fun modelDef =>
        match modelDef with
        | None => []
        | Some fields =>
            map (fun field =>
              {| name := mfName field;
                 label := match mfLabel field with
                          | Some l => if nonEmpty l then l else mfName field
                          | None => mfName field
                          end;
                 component := match mfComponent field with Some c => c | None => CText end;
                 valueType := match mfValueType field with
                              | Some v => if nonEmpty v then v else u "string"
                              | None => u "string"
                              end;
                 required := match mfRequired field with Some b => b | None => false end;
                 maxLength := mfMaxLength field;
                 description := mfDescription field |}) fields
        end) defs
  end.

Definition modelSome (model : ModelDoc) (p : ModelField -> bool) : bool :=
  match models model with
  | None => false
  | Some defs =>
      existsb (fun modelDef =>
        match modelDef with
        | None => false
        | Some fields => existsb p fields
        end) defs
  end.

(** [findSharedCharacteristics] *)
Definition findSharedCharacteristics (characteristics : list str) (model : ModelDoc)
  : list str :=
  let shared : list str := [] in
  let shared :=
    if (someIncludes characteristics [u "multi-item"] && hasFilters model)%bool
    then shared ++ [u "Multi-item structure"] else shared in
  let hasImages :=
    modelSome model (fun f =>
      match mfComponent f with Some CReference => true | _ => false end) in
  let shared :=
    if (someIncludes characteristics [u "image"] && hasImages)%bool
    then shared ++ [u "Image fields"] else shared in
  let hasCTAs := modelSome model (fun f => includes (toLowerCase (mfName f)) (u "cta")) in
  let shared :=
    if (someIncludes characteristics [u "cta"; u "button"] && hasCTAs)%bool
    then shared ++ [u "CTA buttons"] else shared in
  shared.

(** The loop of [findSimilarBlockPatterns] over the directory listing.  A
    document whose reading fails ends the loop: the exception is caught
    outside of it and the patterns collected so far are kept. *)
Fixpoint collectPatterns (blockName : str) (characteristics : list str)
         (blockDirs : list (str * CorpusEntry)) : list SimilarBlockPattern :=
  match blockDirs with
  | [] => []
  | (dir, entry) :: rest =>
      match entry with
      | NoModelFile => collectPatterns blockName characteristics rest
      | Unreadable => []
      | Document modelContent =>
          let similarity := calculateSimilarity blockName dir characteristics modelContent in
          if (40 <? similarity)%Z
          then {| patternName := dir;
                  similarity := similarity;
                  sharedCharacteristics :=
                    findSharedCharacteristics characteristics modelContent;
                  suggestedFields := extractFieldsFromModel modelContent |}
               :: collectPatterns blockName characteristics rest
          else collectPatterns blockName characteristics rest
      end
  end.

(** [patterns.sort((a, b) => b.similarity - a.similarity)]: a stable sort,
    highest similarity first. *)
Fixpoint insertBySimilarity (p : SimilarBlockPattern) (l : list SimilarBlockPattern)
  : list SimilarBlockPattern :=
  match l with
  | [] => [p]
  | q :: l' =>
      if (similarity p <? similarity q)%Z then q :: insertBySimilarity p l'
      else p :: l
  end.

Definition sortBySimilarity (l : list SimilarBlockPattern) : list SimilarBlockPattern :=
  fold_right insertBySimilarity [] l.

Definition findSimilarBlockPatterns (blockName : str) (characteristics : list str)
           (blocksDir : Corpus) : list SimilarBlockPattern :=
  match blocksDir with
  | NoDirectory => []
  | Directory blockDirs =>
      sortBySimilarity (collectPatterns blockName characteristics blockDirs)
  end.

Definition blockTypeName (t : BlockType) : str :=
  match t with Single => u "single" | MultiItem => u "multi-item" end.

(** [extractCharacteristics] *)
Definition extractCharacteristics (analysis : BlockAnalysis) (rawCode : str) : list str :=
  let cs := [blockTypeName (blockType analysis)] in
  let cs := if includes (blockName analysis) (u "carousel")
            then cs ++ [u "carousel"; u "slider"; u "navigation"] else cs in
  let cs := if includes (blockName analysis) (u "card")
            then cs ++ [u "cards"; u "grid"; u "multi-item"] else cs in
  let cs := if includes (blockName analysis) (u "offer")
            then cs ++ [u "product"; u "pricing"; u "cta"] else cs in
  let lowerCode := toLowerCase rawCode in
  let cs := if (includes lowerCode (u "chevron") || includes lowerCode (u "arrow"))%bool
            then cs ++ [u "navigation"; u "carousel"] else cs in
  let cs := if (includes lowerCode (u "indicator") || includes lowerCode (u "dot"))%bool
            then cs ++ [u "pagination"; u "carousel"] else cs in
  let cs := if (includes lowerCode (u "button") || includes lowerCode (u "cta"))%bool
            then cs ++ [u "cta"; u "interactive"] else cs in
  let cs := if (includes lowerCode (u "img") || includes lowerCode (u "picture"))%bool
            then cs ++ [u "images"; u "media"] else cs in
  cs.

(** The filter on the borrowed fields. *)
Definition borrowable (f : BlockField) : bool :=
  ((negb (includes (name f) (u "container")) && negb (includes (name f) (u "heading")))
   || includes (name f) (u "item"))%bool.

Record Enhanced : Type := {
  analysisOut : BlockAnalysis;
  confidence : ConfidenceScore;
  similarPatterns : list SimilarBlockPattern
}.

Definition pushSuggestion (c : ConfidenceScore) (s : str) : ConfidenceScore :=
  {| overall := overall c; blockTypeScore := blockTypeScore c;
     fieldExtraction := fieldExtraction c; reasons := reasons c;
     suggestions := suggestions c ++ [s] |}.

Definition setItemFields (a : BlockAnalysis) (fs : list BlockField) : BlockAnalysis :=
  let cs := contentStructure a in
  setContentStructure a
    {| containerFields := containerFields cs; itemFields := Some fs;
       configurationOptions := configurationOptions cs; jsPattern := jsPattern cs |}.

(** [enhanceAnalysis]; [blocksDir] is optional.  The item fields are
    replaced only when the analysis has none at all ([undefined]): an
    empty array is not falsy. *)
Definition enhanceAnalysis (analysis : BlockAnalysis) (rawCode : str)
           (blocksDir : option Corpus) : Enhanced :=
  let confidence := calculateConfidenceScore analysis in
  let similarPatterns :=
    match blocksDir with
    | Some dir =>
        if (overall confidence <? 70)%Z
        then findSimilarBlockPatterns (blockName analysis)
               (extractCharacteristics analysis rawCode) dir
        else []
    | None => []
    end in
  match similarPatterns with
  | bestMatch :: _ =>
      if (fieldExtraction confidence <? 50)%Z then
        let analysis :=
          match blockType analysis, itemFields (contentStructure analysis) with
          | MultiItem, None =>
              setItemFields analysis (filter borrowable (suggestedFields bestMatch))
          | _, _ => analysis
          end in
        let confidence :=
          pushSuggestion confidence
            (u "Consider using field structure from similar block: "
             ++ patternName bestMatch ++ u " (" ++ ofZ (similarity bestMatch)
             ++ u "% match)") in
        {| analysisOut := analysis; confidence := confidence;
           similarPatterns := similarPatterns |}
      else {| analysisOut := analysis; confidence := confidence;
              similarPatterns := similarPatterns |}
  | [] => {| analysisOut := analysis; confidence := confidence;
             similarPatterns := similarPatterns |}
  end.

End AnalyzerEnhancements.

(** ** The design analyzer: multi-item structure from the markup *)

Module RawStructure.

Import JS RegExp Model.

(** The result of [parseRawCodeForMultiItemStructure].  The container
    heading is only ever tested for truthiness, so the empty text stands
    for a missing heading as well. *)
Record Extracted : Type := {
  containerHeading : str;
  containerIconPresent : bool;
  itemHeadings : list str;
  itemDescriptions : list str;
  itemLists : list (list str);
  itemIconsPresent : bool;
  hasItemCTAs : bool
}.

(** [/<[^>]*>/g] *)
Definition reAnyTag : regex := seq [lit "<"; star (noneOf ">"); lit ">"].

Definition stripHtml (html : str) : str := replaceAll noFlags reAnyTag (fun _ => []) html.

(** [data-name=] and a quoted name. *)
Definition dataName (name : regex) : regex := seq [lit "data-name="; quote; name; quote].

(** [<p[^<]*>], the opening of a paragraph as the source writes it for
    markup with utility classes. *)
Definition pOpen : regex := seq [lit "<p"; star (noneOf "<"); lit ">"].

(** [Heading(?: \d+)?] *)
Definition headingName : regex := seq [lit "Heading"; opt (seq [lit " "; plus digit])].

(** The CardTitle patterns (all with the [i] flag): the first paragraph
    behind the name (group 1, within one line); an [img] with a quoted or
    braced source behind the name; an Icon container directly followed by
    an [img]. *)
Definition reCardTitle : regex :=
  seq [dataName (lit "CardTitle"); starLazy anyUnit; pOpen; Grp 1 (starLazy Dot); lit "</p>"].
Definition reCardTitleIcon : regex :=
  seq [dataName (lit "CardTitle"); starLazy anyUnit; lit "<img"; star (noneOf ">");
       lit "src=";
       Alt (seq [Chr dq; plus (Cls true [CChar dq]); Chr dq])
           (seq [lit "{"; plus (noneOf "}"); lit "}"]);
       star (noneOf ">"); lit ">"].
Definition reCardTitleIconWrapper : regex :=
  seq [dataName (lit "CardTitle"); starLazy anyUnit; dataName (lit "Icon");
       star (noneOf ">"); lit ">"; star space; lit "<img"].

(** [Header] or [Header + Body], then the first paragraph ([i] flag). *)
Definition reHeader : regex :=
  seq [dataName (seq [lit "Header"; opt (seq [star space; lit "+"; star space; lit "Body"])]);
       starLazy anyUnit; pOpen; Grp 1 (starLazy Dot); lit "</p>"].

(** The split point of the fallback ([i] flag) and the capitalized
    paragraph looked for before it. *)
Definition reItemStart : regex :=
  dataName (alts [lit "Container"; lit "Card"; lit "Products"]).
Definition reCapitalPara : regex :=
  seq [lit "<p"; star (noneOf ">"); lit ">";
       Grp 1 (seq [Cls false [CRange 65 90]; between 8 180 (noneOf "<")]); lit "</p>"].

Definition alnumBlank : regex :=
  Cls false [CRange 65 90; CRange 97 122; CRange 48 57; CChar 32].
Definition capitalWord : regex :=
  seq [Cls false [CRange 65 90]; plus (Cls false [CRange 97 122])].

(** The last resort: a phrase that starts with Enhanced or Feature(s), or
    two capitalized words. *)
Definition rePhrase : regex :=
  Grp 1 (alts [seq [lit "Enhanced "; between 3 120 alnumBlank];
               seq [lit "Feature"; opt (lit "s"); lit " "; between 3 120 alnumBlank];
               seq [capitalWord; lit " "; capitalWord]]).

Definition findContainerHeading (rawCode : str) : str :=
  let containerHeading :=
    match search flagI reCardTitle rawCode with
    | Some cardTitle => trim (stripHtml (groupOr 1 cardTitle))
    | None => []
    end in
  let containerHeading :=
    if nonEmpty containerHeading then containerHeading
    else match search flagI reHeader rawCode with
         | Some headerMatch => trim (stripHtml (groupOr 1 headerMatch))
         | None => containerHeading
         end in
  if nonEmpty containerHeading then containerHeading
  else
    let preItems := splitHead flagI reItemStart rawCode in
    let containerHeading :=
      match search noFlags reCapitalPara preItems with
      | Some alt => trim (stripHtml (groupOr 1 alt))
      | None => containerHeading
      end in
    if nonEmpty containerHeading then containerHeading
    else match search noFlags rePhrase rawCode with
         | Some phrase => trim (groupOr 1 phrase)
         | None => containerHeading
         end.

Definition findContainerIcon (rawCode : str) : bool :=
  let cardTitleIcon := test flagI reCardTitleIcon rawCode in
  let cardTitleIconWrapper :=
    (negb cardTitleIcon && test flagI reCardTitleIconWrapper rawCode)%bool in
  (cardTitleIcon || cardTitleIconWrapper)%bool.

(** The opening tag of a Card container and a use of the Card component
    (both with the [i] flag). *)
Definition reCardDiv : regex :=
  seq [lit "<div"; star (noneOf ">"); dataName (lit "Card"); star (noneOf ">"); lit ">"].
Definition reCardComponent : regex := seq [lit "<Card"; plus space].

(** The props of a Card component. *)
Definition reProp (prop : string) : regex :=
  seq [lit prop; lit "="; quote; Grp 1 (plus notQuote); quote].
Definition reIconProp : regex := lit "icon={".

(** The patterns of a Card container segment. *)
Definition reHasHeadingOrPara : regex :=
  dataName (alts [headingName; lit "Title"; lit "Text"; lit "Paragraph"]).
Definition reNamedPara (name : regex) : regex :=
  seq [dataName name; star (noneOf ">"); lit ">"; starLazy anyUnit; pOpen;
       Grp 1 (starLazy anyUnit); lit "</p>"].
Definition reStyledPara : regex :=
  seq [lit "<p"; star (noneOf "<"); lit "class="; Chr dq; star (Cls true [CChar dq]);
       alts [seq [lit "font-"; alts [lit "bold"; lit "medium"; lit "semibold"]];
             seq [lit "text-"; alts [lit "xl"; lit "2xl"; lit "3xl"; lit "4xl"]];
             lit "heading"];
       star (Cls true [CChar dq]); Chr dq; star (noneOf "<"); lit ">";
       Grp 1 (starLazy anyUnit); lit "</p>"].
Definition reBodyPara (name : string) : regex :=
  seq [dataName (lit name); betweenLazy 0 800 anyUnit; pOpen;
       Grp 1 (starLazy anyUnit); lit "</p>"].
Definition reImgSrc : regex := seq [lit "<img"; star (noneOf ">"); lit "src="].
Definition reBulletPara : regex :=
  seq [pOpen; Grp 1 (seq [star (noneOf "<"); Chr bullet; star (noneOf "<")]); lit "</p>"].
Definition reLeadingBullet : regex := seq [Bol; Chr bullet; star space].
Definition reButtonName : regex :=
  seq [lit "data-name="; quote; star notQuote; alts [lit "Button"; lit "Type=Primary"];
       star notQuote; quote].

(** The bullets of a segment: the [exec] loop over the bullet paragraphs. *)
Definition bulletsOf (re : regex) (segment : str) : list str :=
  flat_map (fun b =>
    let bullet :=
      replaceFirst noFlags reLeadingBullet (fun _ => [])
        (trim (stripHtml (groupOr 1 b))) in
    if nonEmpty bullet then [bullet] else [])
    (matchAll noFlags re segment).

(** The mutable lists of the source, threaded through its loops. *)
Record Acc : Type := {
  aHeadings : list str;
  aDescriptions : list str;
  aLists : list (list str);
  aIcons : list bool
}.

Definition emptyAcc : Acc :=
  {| aHeadings := []; aDescriptions := []; aLists := []; aIcons := [] |}.

Definition okHeading (h : str) : bool := (nonEmpty h && (length h <=? 150))%bool.
Definition okDescription (d : str) : bool :=
  (nonEmpty d && (20 <=? length d) && (length d <=? 500))%bool.

(** One Card component use: the props within 800 units from its start. *)
Definition cardComponentStep (rawCode : str) (acc : Acc) (m : rmatch) : Acc :=
  let startPos := index m in
  let segment := substring startPos (startPos + 800) rawCode in
  let headings :=
    match search noFlags (reProp "title") segment with
    | Some titleMatch =>
        let heading := groupOr 1 titleMatch in
        if okHeading heading then aHeadings acc ++ [heading] else aHeadings acc
    | None => aHeadings acc
    end in
  let descriptions :=
    match search noFlags (reProp "text") segment with
    | Some textMatch =>
        let desc := groupOr 1 textMatch in
        if okDescription desc then aDescriptions acc ++ [desc] else aDescriptions acc
    | None => aDescriptions acc
    end in
  let icons :=
    if test noFlags reIconProp segment then aIcons acc ++ [true] else aIcons acc in
  {| aHeadings := headings; aDescriptions := descriptions;
     aLists := aLists acc; aIcons := icons |}.

(** The segment behind the opening tag of a Card container. *)
Definition cardSegment (rawCode : str) (m : rmatch) : str :=
  let startPos := index m + length (whole m) in
  substring startPos (startPos + 2000) rawCode.

(** One Card container. *)
Definition cardDivStep (rawCode : str) (acc : Acc) (m : rmatch) : Acc :=
  let segment := cardSegment rawCode m in
  if negb (test noFlags reHasHeadingOrPara segment) then acc
  else
    let heading :=
      match search flagI (reNamedPara headingName) segment with
      | Some hMatch => trim (stripHtml (groupOr 1 hMatch))
      | None =>
          match search flagI (reNamedPara (lit "Title")) segment with
          | Some titleMatch => trim (stripHtml (groupOr 1 titleMatch))
          | None =>
              match search flagI reStyledPara segment with
              | Some hGeneric => trim (stripHtml (groupOr 1 hGeneric))
              | None => []
              end
          end
      end in
    let headings := if okHeading heading then aHeadings acc ++ [heading] else aHeadings acc in
    let descriptions :=
      match search flagI (reBodyPara "Paragraph") segment with
      | Some paraMatch =>
          let desc := trim (stripHtml (groupOr 1 paraMatch)) in
          if okDescription desc then aDescriptions acc ++ [desc] else aDescriptions acc
      | None =>
          match search flagI (reBodyPara "Text") segment with
          | Some textMatch =>
              let desc := trim (stripHtml (groupOr 1 textMatch)) in
              if okDescription desc then aDescriptions acc ++ [desc] else aDescriptions acc
          | None => aDescriptions acc
          end
      end in
    let hasIcon :=
      (test noFlags (dataName (lit "Image")) segment
       || test noFlags (dataName (lit "Icon")) segment
       || test noFlags reImgSrc segment)%bool in
    let bullets := bulletsOf reBulletPara segment in
    {| aHeadings := headings; aDescriptions := descriptions;
       aLists := if 0 <? length bullets then aLists acc ++ [bullets] else aLists acc;
       aIcons := aIcons acc ++ [hasIcon] |}.

(** A Container block; group 1 is its content up to the nearest [</div>]
    ([i] flag). *)
Definition reContainer : regex :=
  seq [lit "<div"; star (noneOf ">"); dataName (lit "Container"); star (noneOf ">");
       lit ">"; Grp 1 (starLazy anyUnit); lit "</div>"].
(** A Heading name, then the first paragraph (group 1, within one line). *)
Definition reHeadingPara : regex :=
  seq [dataName headingName; starLazy anyUnit; pOpen; Grp 1 (starLazy Dot); lit "</p>"].
(** A paragraph that starts with a bullet and 2 to 200 further units. *)
Definition reGlobalBullet : regex :=
  seq [pOpen;
       Grp 1 (seq [star space; Chr bullet; star space; between 2 200 (noneOf "<")]);
       lit "</p>"].

Definition pushNewHeading (headings : list str) (heading : str) : list str :=
  if (okHeading heading && negb (existsb (JS.eqb heading) headings))%bool
  then headings ++ [heading] else headings.

(** One Container block. *)
Definition containerStep (acc : Acc) (cMatch : rmatch) : Acc :=
  let segment := groupOr 1 cMatch in
  let headings :=
    match search flagI reHeadingPara segment with
    | Some hMatch => pushNewHeading (aHeadings acc) (trim (stripHtml (groupOr 1 hMatch)))
    | None => aHeadings acc
    end in
  let bullets := bulletsOf reBulletPara segment in
  {| aHeadings := headings; aDescriptions := aDescriptions acc;
     aLists := if 0 <? length bullets then aLists acc ++ [bullets] else aLists acc;
     aIcons := aIcons acc |}.

Definition someNonEmpty (lists : list (list str)) : bool :=
  existsb (fun l => 0 <? length l) lists.

(** [parseRawCodeForMultiItemStructure] *)
Definition parseRawCodeForMultiItemStructure (rawCode : str) : Extracted :=
  let containerIconPresent := findContainerIcon rawCode in
  let containerHeading := findContainerHeading rawCode in
  let cardDivMatches := matchAll flagI reCardDiv rawCode in
  let cardComponentMatches := matchAll flagI reCardComponent rawCode in
  let '(acc, hasItemCTAs) :=
    if ((0 <? length cardComponentMatches) && (length cardDivMatches <=? 1))%bool
    then (fold_left (cardComponentStep rawCode) cardComponentMatches emptyAcc,
          0 <? length cardComponentMatches)
    else (fold_left (cardDivStep rawCode) cardDivMatches emptyAcc,
          existsb (fun m => test noFlags reButtonName (cardSegment rawCode m))
                  cardDivMatches) in
  let acc := fold_left containerStep (matchAll flagI reContainer rawCode) acc in
  let headings :=
    if length (aHeadings acc) =? 0
    then fold_left (fun hs g => pushNewHeading hs (trim (stripHtml (groupOr 1 g))))
                   (matchAll flagI reHeadingPara rawCode) (aHeadings acc)
    else aHeadings acc in
  let lists :=
    if negb (someNonEmpty (aLists acc))
    then let globalBullets := bulletsOf reGlobalBullet rawCode in
         if 0 <? length globalBullets then aLists acc ++ [globalBullets] else aLists acc
    else aLists acc in
  {| containerHeading := containerHeading;
     containerIconPresent := containerIconPresent;
     itemHeadings := headings;
     itemDescriptions := aDescriptions acc;
     itemLists := lists;
     itemIconsPresent := ((0 <? length (aIcons acc)) && existsb (fun b => b) (aIcons acc))%bool;
     hasItemCTAs := hasItemCTAs |}.

End RawStructure.

(** ** The design analyzer: the node tree *)

Module Nodes.

Import JS RegExp Model.

Record TextStyle : Type := {
  fontSize : option Q;
  fontWeight : option Q
}.

Record Bounds : Type := {
  width : Q;
  height : Q
}.

(** The declaration of [FigmaNode] is not among the sources; the record
    holds the properties the analyzer reads.  [fills] lists the types of
    the fills, [backgroundColor] tells whether the property is set. *)
Inductive FigmaNode : Type := mkNode {
  nodeName : str;
  nodeType : str;
  children : option (list FigmaNode);
  characters : option str;
  style : option TextStyle;
  fills : option (list str);
  backgroundColor : bool;
  absoluteBoundingBox : option Bounds
}.

(** Nodes are compared by identity in the sources.  A node of the tree is
    identified by the path of child indices that leads to it. *)
Definition Path := list nat.
Definition Located : Type := Path * FigmaNode.

Definition pathEqb (p q : Path) : bool :=
  if list_eq_dec Nat.eq_dec p q then true else false.

Definition sameNode (a b : Located) : bool := pathEqb (fst a) (fst b).
Definition memNode (a : Located) (l : list Located) : bool := existsb (sameNode a) l.

Definition isType (n : FigmaNode) (t : string) : bool := JS.eqb (nodeType n) (u t).
Definition isOneOf (n : FigmaNode) (ts : list string) : bool :=
  existsb (isType n) ts.

(** [x || 0] and comparisons on optional numbers. *)
Definition orZero (q : option Q) : Q := match q with Some x => x | None => 0%Q end.
Definition fontSizeOf (n : FigmaNode) : Q :=
  match style n with Some s => orZero (fontSize s) | None => 0%Q end.
Definition Qgeb (a b : Q) : bool := Qle_bool b a.
Definition Qgtb (a b : Q) : bool := negb (Qle_bool a b).

Definition charactersOf (n : FigmaNode) : str :=
  match characters n with Some s => s | None => [] end.

Definition childrenOf (n : FigmaNode) : list FigmaNode :=
  match children n with Some cs => cs | None => [] end.

(** The children of a located node, each with its own path. *)
Definition locatedChildren (l : Located) : list Located :=
  map (fun ic => (fst l ++ [fst ic], snd ic))
      (combine (List.seq 0 (length (childrenOf (snd l)))) (childrenOf (snd l))).

(** All nodes of a subtree in the order of a depth-first traversal that
    visits a node before its children. *)
Fixpoint subtree (p : Path) (n : FigmaNode) {struct n} : list Located :=
  (p, n) ::
  match children n with
  | Some cs =>
      (fix go (i : nat) (cs : list FigmaNode) {struct cs} : list Located :=
         match cs with
         | [] => []
         | c :: cs' => subtree (p ++ [i]) c ++ go (S i) cs'
         end) 0 cs
  | None => []
  end.

Definition subtreeOf (l : Located) : list Located := subtree (fst l) (snd l).

Definition findAllTextNodes (node : Located) : list Located :=
  filter (fun l => isType (snd l) "TEXT") (subtreeOf node).

Definition nameHas (n : FigmaNode) (words : list string) : bool :=
  existsb (fun w => includes (toLowerCase (nodeName n)) (u w)) words.

Definition isVectorLike (n : FigmaNode) : bool := isOneOf n ["VECTOR"; "BOOLEAN_OPERATION"].

(** The tests of one visit of [findAllImageNodes]. *)
Definition imageFill (n : FigmaNode) : bool :=
  (isType n "RECTANGLE" &&
   match fills n with
   | Some fs => existsb (fun t => JS.eqb t (u "IMAGE")) fs
   | None => false
   end)%bool.
Definition namedGraphic (n : FigmaNode) : bool :=
  (isOneOf n ["COMPONENT"; "INSTANCE"] && nonEmpty (nodeName n)
   && nameHas n ["icon"; "image"; "logo"; "svg"; "graphic"])%bool.
Definition namedIconFrame (n : FigmaNode) : bool :=
  (isOneOf n ["FRAME"; "GROUP"] && nonEmpty (nodeName n)
   && nameHas n ["icon"; "image"])%bool.
Definition smallVectorFrame (n : FigmaNode) : bool :=
  (isOneOf n ["FRAME"; "GROUP"] &&
   match children n, absoluteBoundingBox n with
   | Some [child], Some bounds =>
       isVectorLike child && Qle_bool (width bounds) 32 && Qle_bool (height bounds) 32
   | _, _ => false
   end)%bool.

(** Whether the visit of [n] puts it into the set of icon parents. *)
Definition isIconParent (n : FigmaNode) : bool :=
  (namedGraphic n || namedIconFrame n || smallVectorFrame n)%bool.

(** How often the visit of [n] pushes it: the vector test depends on the
    parent, and the last test pushes only a node not pushed before. *)
Definition imagePushes (parentIsIcon : bool) (l : Located) : list Located :=
  let n := snd l in
  (if imageFill n then [l] else [])
  ++ (if (isVectorLike n && negb parentIsIcon)%bool then [l] else [])
  ++ (if namedGraphic n then [l] else [])
  ++ (if namedIconFrame n then [l] else [])
  ++ (if (smallVectorFrame n
          && negb (imageFill n || (isVectorLike n && negb parentIsIcon)
                   || namedGraphic n || namedIconFrame n))%bool
      then [l] else []).

Fixpoint imageNodesFrom (parentIsIcon : bool) (p : Path) (n : FigmaNode) {struct n}
  : list Located :=
  imagePushes parentIsIcon (p, n) ++
  match children n with
  | Some cs =>
      (fix go (i : nat) (cs : list FigmaNode) {struct cs} : list Located :=
         match cs with
         | [] => []
         | c :: cs' => imageNodesFrom (isIconParent n) (p ++ [i]) c ++ go (S i) cs'
         end) 0 cs
  | None => []
  end.

(** [findAllImageNodes]: the root of the traversal has no parent. *)
Definition findAllImageNodes (node : Located) : list Located :=
  imageNodesFrom false (fst node) (snd node).

Fixpoint hasTextChild (n : FigmaNode) {struct n} : bool :=
  if isType n "TEXT" then true
  else match children n with
       | Some cs =>
           (fix any (cs : list FigmaNode) {struct cs} : bool :=
              match cs with
              | [] => false
              | c :: cs' => (hasTextChild c || any cs')%bool
              end) cs
       | None => false
       end.

Definition actionKeywords : list string :=
  ["add"; "edit"; "remove"; "delete"; "view"; "upgrade"; "select"; "choose";
   "learn more"; "subscribe"; "sign up"].
Definition serviceKeywords : list string :=
  ["internet"; "tv"; "voice"; "mobile"; "offer"; "special offer"; "xfinity home offer"].

Definition hasAny (txt : str) (words : list string) : bool :=
  existsb (fun k => includes txt (u k)) words.

Definition isButtonNode (l : Located) : bool :=
  let n := snd l in
  let nameCheck := nameHas n ["button"; "cta"] in
  let frameCheck :=
    (isOneOf n ["FRAME"; "GROUP"; "COMPONENT"] && backgroundColor n && hasTextChild n
     && existsb (fun t =>
          let txt := toLowerCase (charactersOf (snd t)) in
          (hasAny txt actionKeywords
           && negb (existsb (fun s => JS.eqb (u s) txt) serviceKeywords))%bool)
          (findAllTextNodes l))%bool in
  (nameCheck || frameCheck)%bool.

Definition findAllButtonNodes (node : Located) : list Located :=
  filter isButtonNode (subtreeOf node).

(** [extractButtonText]: the characters of the first text node, when they
    are not empty. *)
Definition extractButtonText (node : Located) : option str :=
  match findAllTextNodes node with
  | t :: _ => if nonEmpty (charactersOf (snd t)) then Some (charactersOf (snd t)) else None
  | [] => None
  end.

Definition buttonTextLower (node : Located) : str :=
  match extractButtonText node with Some s => toLowerCase s | None => [] end.

(** The keywords of the sibling and container heuristics. *)
Definition frameActionKeywords : list string :=
  ["add"; "edit"; "remove"; "delete"; "view"; "learn more"; "upgrade"; "select"; "choose"].

Definition qualifiesAsItemFrame (f : Located) : bool :=
  match children (snd f) with
  | None => false
  | Some _ =>
      let hasHeading :=
        existsb (fun t => Qgeb (fontSizeOf (snd t)) 18) (findAllTextNodes f) in
      let hasActionText :=
        existsb (fun t => hasAny (toLowerCase (charactersOf (snd t))) frameActionKeywords)
                (findAllTextNodes f) in
      let hasButton := 0 <? length (findAllButtonNodes f) in
      (hasHeading && (hasActionText || hasButton))%bool
  end.

Definition pushNew (result : list Located) (q : Located) : list Located :=
  if memNode q result then result else result ++ [q].

(** [findSiblingItemFrames] *)
Definition findSiblingItemFrames (root : Located) : list Located :=
  let parents := filter (fun n => 1 <? length (childrenOf (snd n))) (subtreeOf root) in
  fold_left (fun result parent =>
    let candidates :=
      filter (fun c => isOneOf (snd c) ["FRAME"; "GROUP"; "COMPONENT"])
             (locatedChildren parent) in
    let qualified := filter qualifiesAsItemFrame candidates in
    if 2 <=? length qualified then fold_left pushNew qualified result else result)
    parents [].

(** The size signature of [findCandidateItemContainers]: the rounded width
    and height, or none without bounds.  The source renders the two
    numbers into a string; the pairs are equal when the strings are. *)
Definition sizeSignature (n : FigmaNode) : option (Z * Z) :=
  match absoluteBoundingBox n with
  | Some b => Some (Math_round (width b), Math_round (height b))
  | None => None
  end.

Definition sigEqb (a b : option (Z * Z)) : bool :=
  match a, b with
  | None, None => true
  | Some (w, h), Some (w', h') => (Z.eqb w w' && Z.eqb h h')%bool
  | _, _ => false
  end.

(** Insertion into the groups of an object: a new key goes last. *)
Fixpoint addToGroup {K V} (keq : K -> K -> bool) (k : K) (v : V)
         (groups : list (K * list V)) : list (K * list V) :=
  match groups with
  | [] => [(k, [v])]
  | (k', vs) :: rest =>
      if keq k k' then (k', vs ++ [v]) :: rest
      else (k', vs) :: addToGroup keq k v rest
  end.

Definition isCandidateContainer (l : Located) : bool :=
  let n := snd l in
  (isOneOf n ["FRAME"; "GROUP"; "COMPONENT"] && (0 <? length (childrenOf n))
   && (existsb (fun c =>
         (isType c "TEXT" &&
          match style c with
          | Some s => match fontSize s with
                      | Some fs => negb (Qeq_bool fs 0) && Qgeb fs 18
                      | None => false
                      end
          | None => false
          end)%bool) (childrenOf n)
       || (0 <? length (findAllImageNodes l))
       || (0 <? length (findAllButtonNodes l))))%bool.

(** [findCandidateItemContainers] *)
Definition findCandidateItemContainers (node : Located) : list Located :=
  let containers := filter isCandidateContainer (subtreeOf node) in
  let bySignature :=
    fold_left (fun groups c => addToGroup sigEqb (sizeSignature (snd c)) c groups)
              containers [] in
  flat_map (fun g => if 2 <=? length (snd g) then snd g else []) bySignature.

(** [findItemContainerNodes] *)
Definition findItemContainerNodes (root : Located) : list Located :=
  let siblingGroups := findSiblingItemFrames root in
  if 2 <=? length siblingGroups then siblingGroups
  else fold_left pushNew (findCandidateItemContainers root) [].

(** [findMainHeading]: the first text node of the largest font size, none
    when no size exceeds zero. *)
Definition findMainHeading (textNodes : list Located) : option Located :=
  fold_left (fun largest node =>
    let currentSize := fontSizeOf (snd node) in
    let largestSize := match largest with
                       | Some l => fontSizeOf (snd l)
                       | None => 0%Q
                       end in
    if Qgtb currentSize largestSize then Some node else largest)
    textNodes None.

(** A list marker and blanks, or a numbered line (with the [m] flag). *)
Definition reListMarker : regex :=
  Alt (seq [Cls false [CChar bullet; CChar 45; CChar 42]; plus space])
      (seq [Bol; plus digit; lit "."; plus space]).

Definition joinedText (textNodes : list Located) : str :=
  join [nl] (map (fun n => charactersOf (snd n)) textNodes).

Definition longLines (allText : str) : list str :=
  filter (fun line => 20 <? length (trim line)) (splitOn nl allText).

(** [findContainerTextContent]: the pair of [hasSimpleText] and
    [hasRichText]. *)
Definition findContainerTextContent (textNodes : list Located)
           (mainHeading : option Located) : bool * bool :=
  let otherTextNodes :=
    filter (fun node =>
      match mainHeading with
      | Some h => negb (sameNode node h)
      | None => true
      end) textNodes in
  if length otherTextNodes =? 0 then (false, false)
  else
    let allText := joinedText otherTextNodes in
    let hasList := test flagM reListMarker allText in
    let hasMultipleParagraphs := 1 <? length (longLines allText) in
    let hasRichText := (hasList || hasMultipleParagraphs)%bool in
    let hasSimpleText := (negb hasRichText && (0 <? length (trim allText)))%bool in
    (hasSimpleText, hasRichText).

(** [findStructuredTextContent]: [hasList], [hasMultipleParagraphs] and
    [hasSimpleText]. *)
Definition findStructuredTextContent (textNodes : list Located) : bool * bool * bool :=
  let allText := joinedText textNodes in
  let markedLines :=
    filter (fun line =>
      (startsWith (trim line) [bullet] || startsWith (trim line) (u "-"))%bool)
      (splitOn nl allText) in
  let hasList := (test flagM reListMarker allText || (1 <? length markedLines))%bool in
  let hasMultipleParagraphs := ((1 <? length (longLines allText)) && negb hasList)%bool in
  let hasSimpleText :=
    (negb hasList && negb hasMultipleParagraphs && (0 <? length (trim allText)))%bool in
  (hasList, hasMultipleParagraphs, hasSimpleText).

(** [/^\d+\./] *)
Definition reNumbered : regex := seq [Bol; plus digit; lit "."].

(** [findRepeatingHeadings] *)
Definition findRepeatingHeadings (textNodes : list Located) : list Located :=
  filter (fun node =>
    let n := snd node in
    let text := charactersOf n in
    let fontSize := fontSizeOf n in
    let fontWeight :=
      match style n with
      | Some s => match fontWeight s with
                  | Some w => if Qeq_bool w 0 then 400%Q else w
                  | None => 400%Q
                  end
      | None => 400%Q
      end in
    let isLargerText := Qgtb fontSize 14 in
    let isBoldText := Qgeb fontWeight 500 in
    let isShortText := length text <? 100 in
    let isNotListItem :=
      (negb (startsWith text [bullet]) && negb (startsWith text (u "-"))
       && negb (test noFlags reNumbered text))%bool in
    ((isLargerText || isBoldText) && isShortText && isNotListItem)%bool)
    textNodes.

End Nodes.

(** ** The design analyzer: field derivation and [analyze] *)

Module DesignAnalyzer.

Import JS RegExp Model Signals RawStructure Nodes.

Inductive CtaRank : Type := Primary | Secondary.

Record CTAButton : Type := {
  buttonText : str;
  rank : CtaRank;
  url : str
}.

(** All fields of the analyzer have the value type [string]. *)
Definition field (name label : str) (component : Component) (required : bool)
           (maxLength : option nat) (description : option str) : BlockField :=
  {| name := name; label := label; component := component; valueType := u "string";
     required := required; maxLength := maxLength; description := description |}.

(** [xs.slice(0, 2).map((x, index) => f x index)] *)
Definition firstTwo {A B} (f : A -> nat -> B) (xs : list A) : list B :=
  map (fun ix => f (snd ix) (fst ix)) (combine (List.seq 0 2) xs).

Definition rankOf (index : nat) : CtaRank :=
  if index =? 0 then Primary else Secondary.

Definition semanticCtasOf (analysis : BlockAnalysis) : list SemanticCta :=
  match codeSignals analysis with
  | Some cs => match semanticCtas cs with Some l => l | None => [] end
  | None => []
  end.

Definition ctaOfSemantic (cta : SemanticCta) (index : nat) : CTAButton :=
  {| buttonText := text cta;
     rank := rankOf index;
     url := match href cta with
            | Some h => if nonEmpty h then h else u "#"
            | None => u "#"
            end |}.

Definition ctaOfButton (prefix : string) (button : Located) (index : nat) : CTAButton :=
  {| buttonText := match extractButtonText button with
                   | Some t => t
                   | None => u prefix ++ ofNat (index + 1)
                   end;
     rank := rankOf index;
     url := u "#" |}.

(** [findContainerCTAs] *)
Definition findContainerCTAs (buttonNodes : list Located) (analysis : BlockAnalysis)
  : list CTAButton :=
  let semantic := semanticCtasOf analysis in
  if 0 <? length semantic then firstTwo ctaOfSemantic semantic
  else
    let containerButtons :=
      filter (fun button =>
        hasAny (buttonTextLower button)
          ["add"; "edit"; "remove"; "delete"; "view"; "upgrade"; "select"; "choose";
           "learn more"; "subscribe"; "sign up"; "get started"])
        buttonNodes in
    firstTwo (ctaOfButton "CTA ") containerButtons.

(** [findItemCTAs] *)
Definition findItemCTAs (node : Located) (analysis : BlockAnalysis) : list CTAButton :=
  let semantic := semanticCtasOf analysis in
  let itemSpecificCtas :=
    filter (fun cta =>
      negb (hasAny (toLowerCase (text cta))
              ["view all"; "see more"; "get started"; "learn more about us"; "contact us"]))
      semantic in
  if ((0 <? length semantic) && (0 <? length itemSpecificCtas))%bool
  then firstTwo ctaOfSemantic itemSpecificCtas
  else
    let repeatingButtons :=
      filter (fun button =>
        hasAny (buttonTextLower button)
          ["select"; "choose"; "add to cart"; "buy now"; "subscribe"; "upgrade";
           "view details"])
        (findAllButtonNodes node) in
    firstTwo (ctaOfButton "Item CTA ") repeatingButtons.

(** [isCodeBasedListComponent] *)
Definition isCodeBasedListComponent (codeSignals : option CodeSignals) : bool :=
  match codeSignals with
  | None => false
  | Some cs =>
      let ctas := match semanticCtas cs with Some l => l | None => [] end in
      let hasNoCTAs := length ctas =? 0 in
      let hasListContainers :=
        existsb (fun e => (includes (fst e) (u "list") || includes (fst e) (u "item"))%bool)
                (repeatedContainerNames cs) in
      let hasMultipleHeadings := 2 <=? length (distinctHeadings cs) in
      (hasNoCTAs && (hasListContainers || hasMultipleHeadings))%bool
  end.

(** [index === 0 ? 'image' : `image${index}`] *)
Definition imageBaseName (index : nat) : str :=
  if index =? 0 then u "image" else u "image" ++ ofNat index.

(** The two fields pushed for the [index]-th image of a scope. *)
Definition imageFieldPair (labelPrefix : string) (imageDescription : string)
           (baseName : str) (index : nat) : list BlockField :=
  [field baseName (u labelPrefix ++ ofNat (index + 1)) CReference false None
         (Some (u imageDescription));
   field (baseName ++ u "Alt") (u labelPrefix ++ ofNat (index + 1) ++ u " Alt Text")
         CText false (Some 150)
         (Some (u "Alternative text for accessibility. Leave blank if decorative."))].

(** The two fields pushed for the [index]-th CTA of a scope. *)
Definition ctaFieldPair (scope : string) (index : nat) : list BlockField :=
  let suffix := if index =? 0 then "Primary" else "Secondary" in
  let lower := if index =? 0 then "primary" else "secondary" in
  [field (u lower ++ u "Cta") (u suffix ++ u " CTA") CText false None
         (Some (u "URL for the " ++ u scope ++ u " " ++ u lower ++ u " call-to-action"));
   field (u lower ++ u "CtaText") (u suffix ++ u " CTA Text") CText false (Some 50)
         (Some (u "Display text for the " ++ u scope ++ u " " ++ u lower ++ u " CTA"))].

(** [xs.forEach((x, index) => ...)] that pushes [f index] fields. *)
Definition forEachIndex {A} (f : nat -> list BlockField) (xs : list A) : list BlockField :=
  flat_map f (List.seq 0 (length xs)).

(** [analyzeContainerFields] *)
Definition analyzeContainerFields (textNodes imageNodes buttonNodes : list Located)
           (analysis : BlockAnalysis) : list BlockField :=
  let isListBased := isCodeBasedListComponent (codeSignals analysis) in
  let mainHeading := findMainHeading textNodes in
  let containerFields :=
    match mainHeading with
    | Some _ =>
        [field (u "heading") (u "Container Heading") CText true (Some 200)
               (Some (u "Main heading displayed above the items"))]
    | None => []
    end in
  let containerFields :=
    containerFields ++
    forEachIndex (fun index =>
      imageFieldPair "Container Image " "Image asset extracted from Figma design"
                     (imageBaseName index) index) imageNodes in
  let '(hasSimpleText, hasRichText) := findContainerTextContent textNodes mainHeading in
  let containerFields :=
    if hasSimpleText
    then containerFields ++
         [field (u "text") (u "Container Text") CText false (Some 500)
                (Some (u "Descriptive text displayed with the container heading"))]
    else if hasRichText
    then containerFields ++
         [field (u "richText") (u "Container Rich Text") CRichtext false (Some 1000)
                (Some (u "Rich text content with formatting, lists, or multiple paragraphs"))]
    else containerFields in
  let containerCTAs :=
    if negb isListBased then findContainerCTAs buttonNodes analysis else [] in
  containerFields ++ forEachIndex (ctaFieldPair "container") containerCTAs.

(** [analyzeActualContent], which [analyzeItemStructure] delegates to. *)
Definition analyzeActualContent (node : Located) (analysis : BlockAnalysis)
           (imageNodesOverride : option (list Located)) : list BlockField :=
  let textNodes := findAllTextNodes node in
  let imageNodes :=
    match imageNodesOverride with
    | Some l => l
    | None => findAllImageNodes node
    end in
  let headings := findRepeatingHeadings textNodes in
  let fields :=
    if 0 <? length headings
    then [field (u "heading") (u "Heading") CText true (Some 200)
                (Some (u "Heading text for this item"))]
    else [] in
  let fields :=
    fields ++
    forEachIndex (fun index =>
      imageFieldPair "Image " "Image asset for this item" (imageBaseName index) index)
      imageNodes in
  let '(hasList, hasMultipleParagraphs, hasSimpleText) :=
    findStructuredTextContent textNodes in
  let fields :=
    if (hasList || hasMultipleParagraphs)%bool
    then fields ++
         [field (u "richContent") (u "Rich Content") CRichtext false (Some 1000)
                (Some (u "Rich text content including lists, paragraphs, and structured text"))]
    else if hasSimpleText
    then fields ++
         [field (u "simpleContent") (u "Simple Content") CText false (Some 500)
                (Some (u "Text content for this item"))]
    else fields in
  let itemCTAs := findItemCTAs node analysis in
  fields ++ forEachIndex (ctaFieldPair "item") itemCTAs.

Definition analyzeItemStructure (node : Located) (analysis : BlockAnalysis)
           (itemImageNodes : list Located) : list BlockField :=
  analyzeActualContent node analysis (Some itemImageNodes).

(** [`${index || ''}`] *)
Definition indexSuffix (index : nat) : str :=
  if index =? 0 then [] else ofNat index.

Definition isHeadingText (n : FigmaNode) : bool :=
  match style n with
  | Some s => match fontSize s with
              | Some fs => (negb (Qeq_bool fs 0) && Qgtb fs 24)%bool
              | None => false
              end
  | None => false
  end.

(** [extractAllFields]: the fields of a single block. *)
Definition extractAllFields (textNodes imageNodes : list Located) : list BlockField :=
  let textFields :=
    flat_map (fun inode =>
      let index := fst inode in
      let isHeading := isHeadingText (snd (snd inode)) in
      [{| name := (if isHeading then u "heading" else u "text") ++ indexSuffix index;
          label := (if isHeading then u "Heading " else u "Text ") ++ ofNat (index + 1);
          component := if isHeading then CText else CRichtext;
          valueType := u "string";
          required := true;
          maxLength := None;
          description := None |}])
      (combine (List.seq 0 (length textNodes)) textNodes) in
  let imageFields :=
    forEachIndex (fun index =>
      let baseName := u "image" ++ indexSuffix index in
      [{| name := baseName;
          label := u "Image " ++ ofNat (index + 1);
          component := CReference;
          valueType := u "string";
          required := false;
          maxLength := None;
          description := None |};
       field (baseName ++ u "Alt") (u "Image " ++ ofNat (index + 1) ++ u " Alt Text")
             CText false (Some 150)
             (Some (u "Alternative text for accessibility. Leave blank if decorative."))])
      imageNodes in
  textFields ++ imageFields.

(** [findConfigurationOptions] *)
Definition findConfigurationOptions (node : FigmaNode) : list str :=
  let options := [u "light"; u "dark"] in
  let options := if includes (toLowerCase (nodeName node)) (u "compact")
                 then options ++ [u "compact"] else options in
  let options := if includes (toLowerCase (nodeName node)) (u "centered")
                 then options ++ [u "centered"] else options in
  options.

(** The fields of the markup-driven branch of [analyzeContentStructure]. *)
Definition rawContainerFields (extracted : Extracted) : list BlockField :=
  (if nonEmpty (containerHeading extracted)
   then [field (u "heading") (u "Container Heading") CText true (Some 200)
               (Some (u "Primary heading for the list group"))]
   else [])
  ++ (if containerIconPresent extracted
      then [field (u "icon") (u "Container Icon") CReference false None
                  (Some (u "Icon image associated with container heading"));
            field (u "iconAlt") (u "Icon Alt Text") CText false (Some 120)
                  (Some (u "Alt text for the icon (leave blank if purely decorative)."))]
      else []).

Definition rawItemFields (extracted : Extracted) : list BlockField :=
  (if 0 <? length (itemHeadings extracted)
   then [field (u "heading") (u "Item Heading") CText true (Some 150)
               (Some (u "Heading text for each item"))]
   else [])
  ++ (if itemIconsPresent extracted
      then [field (u "icon") (u "Item Icon") CReference false None
                  (Some (u "Icon image for the item"));
            field (u "iconAlt") (u "Icon Alt Text") CText false (Some 120)
                  (Some (u "Alt text for the icon (leave blank if purely decorative)."))]
      else [])
  ++ (if 0 <? length (itemDescriptions extracted)
      then [field (u "description") (u "Item Description") CText false (Some 500)
                  (Some (u "Descriptive text for each item"))]
      else [])
  ++ (if someNonEmpty (itemLists extracted)
      then [field (u "richContent") (u "Item List Content") CRichtext false (Some 1000)
                  (Some (u "List or rich content associated with each item"))]
      else [])
  ++ (if hasItemCTAs extracted
      then [field (u "cta") (u "CTA URL") CText false None
                  (Some (u "URL for the item call-to-action button"));
            field (u "ctaText") (u "CTA Button Text") CText false (Some 50)
                  (Some (u "Display text for the CTA button"))]
      else []).

Definition hasRichtextField (fs : list BlockField) : bool :=
  existsb (fun f => componentEqb (component f) CRichtext) fs.

(** The pattern choice of the markup-driven branch. *)
Definition rawJsPattern (nodeName : str) (itemFields : list BlockField) : JsPattern :=
  let blockNameLower := toLowerCase (sanitizeBlockName nodeName) in
  let isCarouselBlock :=
    (includes blockNameLower (u "carousel") || includes blockNameLower (u "slider")
     || includes blockNameLower (u "gallery"))%bool in
  let isCardBlock := includes blockNameLower (u "card") in
  let hasRichtext := hasRichtextField itemFields in
  if isCarouselBlock then PCarousel
  else if isCardBlock then PCards
  else if hasRichtext then PDecorated else PCards.

(** The pattern choice of the node-driven branch. *)
Definition nodeJsPattern (blockName : str) (itemFields : list BlockField) : JsPattern :=
  let blockNameLower := toLowerCase blockName in
  let isCardBlock := includes blockNameLower (u "card") in
  let hasRichtext := hasRichtextField itemFields in
  if isCardBlock then PCards else if hasRichtext then PDecorated else PCards.

(** Whether [analyzeContentStructure] takes its markup-driven branch. *)
Definition usesRawCode (blockType : BlockType) (rawCode : option str) : bool :=
  (blockTypeEqb blockType MultiItem &&
   match rawCode with
   | Some c => nonEmpty c && (40 <? length c)
   | None => false
   end)%bool.

(** [analyzeContentStructure]: the analysis with its content structure
    filled in. *)
Definition analyzeContentStructure (node : FigmaNode) (analysis : BlockAnalysis)
           (rawCode : option str) : BlockAnalysis :=
  let root : Located := ([], node) in
  if usesRawCode (blockType analysis) rawCode then
    let extracted :=
      parseRawCodeForMultiItemStructure (match rawCode with Some c => c | None => [] end) in
    let itemFields := rawItemFields extracted in
    setContentStructure analysis
      {| containerFields := rawContainerFields extracted;
         itemFields := Some itemFields;
         configurationOptions := findConfigurationOptions node;
         jsPattern := rawJsPattern (nodeName node) itemFields |}
  else
    let textNodes := findAllTextNodes root in
    let allImageNodes := findAllImageNodes root in
    let buttonNodes := findAllButtonNodes root in
    match blockType analysis with
    | MultiItem =>
        let itemContainerNodes := findItemContainerNodes root in
        (* the images below an item container, in the order they are met *)
        let itemImageNodes :=
          fold_left (fun set container =>
            fold_left (fun set n => if memNode n allImageNodes then pushNew set n else set)
                      (subtreeOf container) set)
            itemContainerNodes [] in
        let containerImageNodes :=
          filter (fun n => negb (memNode n itemImageNodes)) allImageNodes in
        let containerFields :=
          analyzeContainerFields textNodes containerImageNodes buttonNodes analysis in
        let itemFields := analyzeItemStructure root analysis itemImageNodes in
        setContentStructure analysis
          {| containerFields := containerFields;
             itemFields := Some itemFields;
             configurationOptions := findConfigurationOptions node;
             jsPattern := nodeJsPattern (blockName analysis) itemFields |}
    | Single =>
        setContentStructure analysis
          {| containerFields := extractAllFields textNodes allImageNodes;
             itemFields := itemFields (contentStructure analysis);
             configurationOptions := findConfigurationOptions node;
             jsPattern := jsPattern (contentStructure analysis) |}
    end.

(** The markup the analysis works on: markup of more than 100 units is
    simplified first. *)
Definition processCode (rawCode : option str) : option str :=
  match rawCode with
  | Some c => if (nonEmpty c && (100 <? length c))%bool
              then Some (HTMLSimplifier.simplify c) else Some c
  | None => None
  end.

(** [analyze], restricted to the classification and the content
    structure. *)
Definition analyze (node : FigmaNode) (rawCode : option str) : BlockAnalysis :=
  let processedCode := processCode rawCode in
  let codeSignals := parseCodeSignals processedCode in
  let blockType := if multiItemLikely codeSignals then MultiItem else Single in
  let analysis :=
    {| blockType := blockType;
       blockName := sanitizeBlockName (nodeName node);
       contentStructure :=
         {| containerFields := []; itemFields := Some [];
            configurationOptions := []; jsPattern := PCards |};
       codeSignals := Some codeSignals |} in
  analyzeContentStructure node analysis processedCode.

End DesignAnalyzer.

(** ** Upper case *)

Module JSCase.

Import JS.

(** [toUpperCase] on one code unit, for the cased letters of Latin-1: the
    sharp s becomes two units, the micro sign and the y with diaeresis
    leave Latin-1.  As for [toLowerCase], code units beyond Latin-1 are
    left as they are. *)
Definition upperUnits (c : char) : str :=
  if in_range 97 122 c then [(c - 32)%N]
  else if N.eqb c 181 then [924%N]
  else if N.eqb c 223 then [83%N; 83%N]
  else if (in_range 224 254 c && negb (N.eqb c 247))%bool then [(c - 32)%N]
  else if N.eqb c 255 then [376%N]
  else [c].

Definition toUpperCase (s : str) : str := flat_map upperUnits s.

End JSCase.

(** ** The analyzer enhancements: element and text classification *)

Module ElementSemantics.

Import JS RegExp Model JSCase.

Inductive ElementType : Type := ENavigation | EIndicator | EControl | EContent | EUnknown.

Record UIElementClassification : Type := {
  isUIComponent : bool;
  isContentField : bool;
  elementType : ElementType;
  confidence : Z;
  reasoning : str
}.

Definition navKeywords : list string :=
  ["chevron"; "arrow"; "prev"; "next"; "forward"; "back";
   "carousel-nav"; "slide-nav"; "button-nav"].
Definition indicatorKeywords : list string :=
  ["indicator"; "dot"; "pagination"; "progress"; "stepper";
   "carousel-indicator"; "slide-indicator"].
Definition controlKeywords : list string :=
  ["control"; "toggle"; "switch"; "dropdown"; "menu"; "close"; "dismiss"; "overlay"].
Definition contentKeywords : list string :=
  ["heading"; "title"; "description"; "text"; "content"; "card-"; "item-"; "offer-"].

(** [ks.some(k => lowerName.includes(k) || lowerCode.includes(k))] *)
Definition nameOrCodeHas (lowerName lowerCode : str) (ks : list string) : bool :=
  existsb (fun k => (includes lowerName (u k) || includes lowerCode (u k))%bool) ks.

(** [classifyElement] *)
Definition classifyElement (elementName elementCode context : str)
  : UIElementClassification :=
  let lowerName := toLowerCase elementName in
  let lowerCode := toLowerCase elementCode in
  if nameOrCodeHas lowerName lowerCode navKeywords then
    {| isUIComponent := true; isContentField := false; elementType := ENavigation;
       confidence := 95;
       reasoning := u "Detected navigation button pattern (chevron, arrow, prev/next)" |}
  else if nameOrCodeHas lowerName lowerCode indicatorKeywords then
    {| isUIComponent := true; isContentField := false; elementType := EIndicator;
       confidence := 90;
       reasoning := u "Detected pagination/progress indicator pattern" |}
  else if nameOrCodeHas lowerName lowerCode controlKeywords then
    {| isUIComponent := true; isContentField := false; elementType := EControl;
       confidence := 85;
       reasoning := u "Detected UI control pattern (toggle, close, menu)" |}
  else
    let isInRepeatingStructure :=
      (includes context (u "card") || includes context (u "item")
       || includes context (u "slide"))%bool in
    if (existsb (fun k => includes lowerName (u k)) contentKeywords
        && isInRepeatingStructure)%bool then
      {| isUIComponent := false; isContentField := true; elementType := EContent;
         confidence := 80;
         reasoning := u "Detected content field inside repeating structure" |}
    else
      {| isUIComponent := false; isContentField := false; elementType := EUnknown;
         confidence := 30;
         reasoning := u "Could not determine element type with confidence" |}.

Inductive SemanticType : Type := SHeading | SDescription | SList | SCta | SUnknown.

Record SemanticContent : Type := {
  semanticType : SemanticType;
  semanticConfidence : Z;
  suggestedFieldName : str;
  suggestedComponent : Component
}.

(** [text.split(/\s+/).length]: the pattern matches no empty text, so the
    pieces are one more than the runs of blanks. *)
Definition wordCount (text : str) : nat :=
  S (length (matchAll noFlags (plus space) text)).

(** The class of the list test as the source file holds it: the three
    units U+00E2, U+20AC and U+00A2, the hyphen and the asterisk; then
    blanks.  Or a numbered line (with the [m] flag). *)
Definition reBullets : regex :=
  Alt (seq [Cls false [CChar 226; CChar 8364; CChar 162; CChar 45; CChar 42]; plus space])
      (seq [Bol; plus digit; lit "."; plus space]).

(** [/^[A-Z]/] *)
Definition reCapital : regex := seq [Bol; Cls false [CRange 65 90]].

Definition ctaKeywords : list string :=
  ["learn more"; "get started"; "sign up"; "subscribe"; "buy now";
   "add to cart"; "view details"; "explore"; "discover"; "shop now"].

(** [analyzeTextContentSemantics]; the two numbers are optional. *)
Definition analyzeTextContentSemantics (text : str) (fontSize fontWeight : option Q)
  : SemanticContent :=
  let textLength := length text in
  let isShortText := ((textLength <? 100) && (wordCount text <? 15))%bool in
  let isLargeText := match fontSize with Some x => Qle_bool 24 x | None => false end in
  let isBold := match fontWeight with Some x => Qle_bool 600 x | None => false end in
  let isCapitalized :=
    (JS.eqb text (toUpperCase text) || test noFlags reCapital text)%bool in
  if (isShortText && (isLargeText || isBold || isCapitalized))%bool then
    {| semanticType := SHeading; semanticConfidence := 85;
       suggestedFieldName := u "heading"; suggestedComponent := CText |}
  else
    let isMediumText := ((50 <=? textLength) && (textLength <=? 500))%bool in
    let hasMultipleSentences := 2 <=? length (matchAll noFlags (lit ".") text) in
    if (isMediumText || hasMultipleSentences)%bool then
      {| semanticType := SDescription; semanticConfidence := 75;
         suggestedFieldName := u "description"; suggestedComponent := CRichtext |}
    else
      let hasBullets := test flagM reBullets text in
      let hasMultipleLines :=
        2 <? length (filter (fun l => nonEmpty (trim l)) (splitOn nl text)) in
      if (hasBullets || hasMultipleLines)%bool then
        {| semanticType := SList; semanticConfidence := 80;
           suggestedFieldName := u "richContent"; suggestedComponent := CRichtext |}
      else
        let lowerText := toLowerCase text in
        let isCTA := existsb (fun k => includes lowerText (u k)) ctaKeywords in
        if (isCTA && isShortText)%bool then
          {| semanticType := SCta; semanticConfidence := 90;
             suggestedFieldName := u "ctaText"; suggestedComponent := CText |}
        else
          {| semanticType := SUnknown; semanticConfidence := 40;
             suggestedFieldName := u "text"; suggestedComponent := CText |}.

End ElementSemantics.

(** ** The design analyzer: interactions and accessibility *)

Module Interactions.

Import JS RegExp Model Signals Nodes DesignAnalyzer.

Inductive CtaExtraction : Type := Semantic | Heuristic.

(** [xs.slice(0, 3).map((x, index) => f x index)] *)
Definition firstThree {A B} (f : A -> nat -> B) (xs : list A) : list B :=
  map (fun ix => f (snd ix) (fst ix)) (combine (List.seq 0 3) xs).

(** The filter of the semantic branch: an entry is kept when its trimmed,
    lower-cased text is not empty and was not seen before. *)
Fixpoint dedupSemantic (seen : list str) (cs : list SemanticCta) : list SemanticCta :=
  match cs with
  | [] => []
  | c :: cs' =>
      let norm := toLowerCase (trim (text c)) in
      if (negb (nonEmpty norm) || existsb (JS.eqb norm) seen)%bool
      then dedupSemantic seen cs'
      else c :: dedupSemantic (norm :: seen) cs'
  end.

(** The filter of the heuristic branch, on the lower-cased text. *)
Fixpoint dedupHeuristic (seen : list str) (cs : list CTAButton) : list CTAButton :=
  match cs with
  | [] => []
  | c :: cs' =>
      let norm := toLowerCase (buttonText c) in
      if existsb (JS.eqb norm) seen then dedupHeuristic seen cs'
      else c :: dedupHeuristic (norm :: seen) cs'
  end.

Definition ctaButtonKeywords : list string :=
  ["add"; "edit"; "remove"; "delete"; "view"; "upgrade"; "select"; "choose";
   "learn more"; "subscribe"; "sign up"; "get started"; "start"; "continue";
   "next"; "submit"].

(** [findCTAButtons] *)
Definition findCTAButtons (node : Located) : list CTAButton :=
  let buttons := findAllButtonNodes node in
  let actualCTAButtons :=
    filter (fun button =>
      let text := buttonTextLower button in
      (hasAny text ctaButtonKeywords || includes text (u "button")
       || includes text (u "cta") || includes text (u "click"))%bool)
      buttons in
  map (fun ib => ctaOfButton "CTA " (snd ib) (fst ib))
      (combine (List.seq 0 (length actualCTAButtons)) actualCTAButtons).

(** [analyzeInteractions]: the CTA buttons of the analysis and the
    provenance recorded in [debug.ctaExtraction].  The links and the hover
    states are always empty in the source. *)
Definition analyzeInteractions (node : Located) (analysis : BlockAnalysis)
  : list CTAButton * CtaExtraction :=
  let semanticCtas := semanticCtasOf analysis in
  if 0 <? length semanticCtas then
    let deduped := dedupSemantic [] semanticCtas in
    (firstThree ctaOfSemantic deduped, Semantic)
  else
    let heuristic := findCTAButtons node in
    (firstThree (fun c i => {| buttonText := buttonText c; rank := rankOf i; url := url c |})
                (dedupHeuristic [] heuristic),
     Heuristic).

(** [sort((a, b) => (b.style?.fontSize || 0) - (a.style?.fontSize || 0))]:
    a stable sort, largest font size first. *)
Fixpoint insertByFontSize (n : Located) (l : list Located) : list Located :=
  match l with
  | [] => [n]
  | m :: l' =>
      if Qgtb (fontSizeOf (snd m)) (fontSizeOf (snd n)) then m :: insertByFontSize n l'
      else n :: l
  end.

Definition sortByFontSize (l : list Located) : list Located :=
  fold_right insertByFontSize [] l.

(** [determineHeadingHierarchy] *)
Definition determineHeadingHierarchy (node : Located) : list str :=
  let textNodes := findAllTextNodes node in
  let headings := sortByFontSize (filter (fun n => isHeadingText (snd n)) textNodes) in
  firstn 6 (map (fun ix => u "h" ++ ofNat (fst ix + 1))
                (combine (List.seq 0 (length headings)) headings)).

Record Accessibility : Type := {
  headingHierarchy : list str;
  altTextRequired : bool
}.

(** [analyzeAccessibility]; the colour contrast is a constant in the
    source. *)
Definition analyzeAccessibility (node : Located) : Accessibility :=
  {| headingHierarchy := determineHeadingHierarchy node;
     altTextRequired := 0 <? length (findAllImageNodes node) |}.

End Interactions.

(** ** The model generator *)

Module ModelGenerator.

Import JS RegExp Model JSCase.

Record Template : Type := {
  templateName : str;
  templateModel : str;
  templateFilter : option str
}.

(** A component definition; its template sits under
    [plugins.xwalk.page]. *)
Record ComponentDefinition : Type := {
  title : str;
  definitionId : str;
  resourceType : str;
  template : Template
}.

(** A field of a generated model: [required], [maxLength], [description]
    and [multi] are present only when [Some]. *)
Record GeneratedField : Type := {
  gComponent : Component;
  gName : str;
  gLabel : str;
  gValueType : str;
  gValue : str;
  gRequired : option bool;
  gMaxLength : option nat;
  gDescription : option str;
  gMulti : option bool
}.

Record GeneratedModel : Type := {
  modelId : str;
  modelFields : list GeneratedField
}.

Record GeneratedFilter : Type := {
  filterId : str;
  components : list str
}.

Record UniversalEditorModel : Type := {
  definitions : list ComponentDefinition;
  models : list GeneratedModel;
  filters : list GeneratedFilter
}.

(** [str.charAt(0).toUpperCase() + str.slice(1)] *)
Definition capitalize (s : str) : str :=
  match s with
  | [] => []
  | c :: tl => upperUnits c ++ tl
  end.

(** [blockName.replace(/-/g, ' ')] *)
Definition spaced (blockName : str) : str :=
  replaceAll noFlags (Chr 45) (fun _ => u " ") blockName.

(** [formatModelFields].  The fields of the analyzer carry no value, so
    [value] is the empty string; [required] is always defined. *)
Definition formatModelFields (fields : list BlockField) : list GeneratedField :=
  map (fun field =>
    {| gComponent := component field;
       gName := name field;
       gLabel := label field;
       gValueType := valueType field;
       gValue := [];
       gRequired := Some (required field);
       gMaxLength := match maxLength field with
                     | Some n => if n =? 0 then None else Some n
                     | None => None
                     end;
       gDescription := match description field with
                       | Some d => if nonEmpty d then Some d else None
                       | None => None
                       end;
       gMulti := if componentEqb (component field) CReference then Some false else None |})
    fields.

Definition blockResource : str := u "core/franklin/components/block/v1/block".
Definition itemResource : str := u "core/franklin/components/block/v1/block/item".

(** [createMultiItemModel] *)
Definition createMultiItemModel (analysis : BlockAnalysis) : UniversalEditorModel :=
  let blockId := blockName analysis in
  let itemId := blockId ++ u "-item" in
  let containerDefinition :=
    {| title := capitalize (spaced (blockName analysis));
       definitionId := blockId;
       resourceType := blockResource;
       template := {| templateName := capitalize (spaced (blockName analysis));
                      templateModel := blockId;
                      templateFilter := Some blockId |} |} in
  let containerModels :=
    if 0 <? length (containerFields (contentStructure analysis))
    then [{| modelId := blockId;
             modelFields := formatModelFields (containerFields (contentStructure analysis)) |}]
    else [] in
  match itemFields (contentStructure analysis) with
  | Some (f :: fs) =>
      let formattedItemFields := formatModelFields (f :: fs) in
      {| definitions :=
           [containerDefinition;
            {| title := capitalize (spaced (blockName analysis)) ++ u " Item";
               definitionId := itemId;
               resourceType := itemResource;
               template := {| templateName :=
                                capitalize (spaced (blockName analysis)) ++ u " Item";
                              templateModel := itemId;
                              templateFilter := None |} |}];
         models := containerModels ++ [{| modelId := itemId;
                                          modelFields := formattedItemFields |}];
         filters := [{| filterId := blockId; components := [itemId] |}] |}
  | _ =>
      {| definitions := [containerDefinition];
         models := containerModels;
         filters := [] |}
  end.

(** [createSingleItemModel] *)
Definition createSingleItemModel (analysis : BlockAnalysis) : UniversalEditorModel :=
  let blockId := blockName analysis in
  {| definitions :=
       [{| title := capitalize (spaced (blockName analysis));
           definitionId := blockId;
           resourceType := blockResource;
           template := {| templateName := capitalize (spaced (blockName analysis));
                          templateModel := blockId;
                          templateFilter := None |} |}];
     models :=
       [{| modelId := blockId;
           modelFields := formatModelFields (containerFields (contentStructure analysis)) |}];
     filters := [] |}.

(** [createModel] *)
Definition createModel (analysis : BlockAnalysis) : UniversalEditorModel :=
  match blockType analysis with
  | MultiItem => createMultiItemModel analysis
  | Single => createSingleItemModel analysis
  end.

End ModelGenerator.

(** ** Notions used by the statements and the proofs *)

Module Props.

Import JS RegExp Model Signals Nodes AnalyzerEnhancements.

(** *** About the matcher *)

(** The number of iterations a quantifier is sure to make. *)
Definition repBound (min : nat) (max : option nat) : nat :=
  match max with Some m => Nat.min min m | None => min end.

(** A lower bound on the length of every match of a pattern. *)
Fixpoint minLen (r : regex) : nat :=
  match r with
  | Eps | Bol | Eol | NotAhead _ => 0
  | Chr _ | Dot | Cls _ _ => 1
  | Cat a b => minLen a + minLen b
  | Alt a b => Nat.min (minLen a) (minLen b)
  | Rep a min max _ => repBound min max * minLen a
  | Grp _ a => minLen a
  end.

(** A matcher that hands to its continuation a state at least [n] units
    further in the input. *)
Definition shrinksBy (n : nat)
  (run : mstate -> (mstate -> option mstate) -> option mstate) : Prop :=
  forall st k res, run st k = Some res ->
    exists st', k st' = Some res /\ length (rest st') + n <= length (rest st).

(** A matcher for exactly one unit that satisfies [p]. *)
Definition singleUnit (p : char -> bool)
  (run : mstate -> (mstate -> option mstate) -> option mstate) : Prop :=
  forall st k, run st k =
    match rest st with
    | c :: tl => if p c then k (step st c tl) else None
    | [] => None
    end.

(** *** About block names *)

(** A lower-case ASCII letter, a digit or the hyphen. *)
Definition isNameUnit (c : char) : bool :=
  (in_range 97 122 c || in_range 48 57 c || N.eqb c 45)%bool.

Definition headHyphen (s : str) : bool :=
  match s with c :: _ => N.eqb c 45 | [] => false end.

Fixpoint hasDoubleHyphen (s : str) : bool :=
  match s with
  | [] => false
  | a :: t => ((N.eqb a 45 && headHyphen t) || hasDoubleHyphen t)%bool
  end.

(** What the last replacement of [sanitizeBlockName] amounts to: one hyphen
    less at the end, and one less at the start. *)
Fixpoint dropLastHyphen (s : str) : str :=
  match s with
  | [] => []
  | c :: tl =>
      match tl with
      | [] => if N.eqb c 45 then [] else [c]
      | _ :: _ => c :: dropLastHyphen tl
      end
  end.

Definition dropFirstHyphen (s : str) : str :=
  match s with
  | c :: tl => if N.eqb c 45 then tl else s
  | [] => []
  end.

(** *** About the signal bag *)



(** *** About the confidence score *)

Definition sumZ (l : list Z) : Z := fold_right Z.add 0%Z l.

(** A list of item fields that is present and not empty. *)
Definition hasFields (fs : option (list BlockField)) : bool :=
  match fs with Some l => 0 <? length l | None => false end.

(** At least one CTA in the signal bag. *)
Definition hasDetectedCtas (a : BlockAnalysis) : bool :=
  match codeSignals a with
  | Some cs => match semanticCtas cs with Some l => 0 <? length l | None => false end
  | None => false
  end.

(** The adjustments of the block-type score in the words of the
    specification: +30 when the bag indicates multi-item, +20 when
    repeated-container names were found, -20 without a bag. *)
Definition specBlockTypeAdjustments (a : BlockAnalysis) : list Z :=
  match codeSignals a with
  | Some cs =>
      (if multiItemLikely cs then [30%Z] else [])
      ++ (if 0 <? length (repeatedContainerNames cs) then [20%Z] else [])
  | None => [(-20)%Z]
  end.

(** The adjustments of the field-extraction score in the words of the
    specification: +20 for container fields, else -30 when multi-item; +30
    for item fields, else -40 when multi-item; +10 for a detected CTA. *)
Definition specFieldAdjustments (a : BlockAnalysis) : list Z :=
  let multi := blockTypeEqb (blockType a) MultiItem in
  (if 0 <? length (containerFields (contentStructure a)) then [20%Z]
   else if multi then [(-30)%Z] else [])
  ++ (if hasFields (itemFields (contentStructure a)) then [30%Z]
      else if multi then [(-40)%Z] else [])
  ++ (if hasDetectedCtas a then [10%Z] else []).

(** *** About fields *)

(** Every reference field of a scope has a sibling text field named after
    it with the suffix Alt. *)
Definition altPaired (fs : list BlockField) : Prop :=
  forall f, In f fs -> component f = CReference ->
    exists g, In g fs /\ name g = name f ++ u "Alt" /\ component g = CText.

(** The pattern priority in the words of the specification. *)
Definition specJsPattern (blockName : str) (itemFields : list BlockField) : JsPattern :=
  if (includes blockName (u "carousel") || includes blockName (u "slider")
      || includes blockName (u "gallery"))%bool then PCarousel
  else if includes blockName (u "card") then PCards
  else if existsb (fun f => componentEqb (component f) CRichtext) itemFields
       then PDecorated else PCards.

(** *** About CTAs *)

(** The entry pushed for a match of the anchor pattern. *)
Definition linkEntry (m : rmatch) : SemanticCta :=
  {| text := trim (stripTags (groupOr 2 m)); href := Some (groupOr 1 m); ctaType := TLink |}.


(** The rule the extractor applies: the destination has at least two
    units. *)
Definition codeLinkRule (href text : str) : Prop :=
  text <> [] /\ length text <= 100 /\
  2 <= length href /\ startsWith href (u "javascript:") = false.

(** The key of the deduplication. *)
Definition ctaKey (e : SemanticCta) : str := toLowerCase (text e).

(** *** About similar blocks *)

(** The order of the returned patterns: no similarity increases. *)
Definition descending (a b : SimilarBlockPattern) : Prop :=
  (similarity b <= similarity a)%Z.

(** *** Concrete inputs *)

(** The root node the server builds for a request, under a given name. *)
Definition stubNode (name : string) : FigmaNode :=
  {| nodeName := u name; nodeType := u "FRAME"; children := Some []; characters := None;
     style := None; fills := None; backgroundColor := false;
     absoluteBoundingBox := None |}.

(** Markup of 41 and of 40 units that names a card twice. *)
Definition twoCards41 : str := u "<p>card one</p><p>card two</p><!--pad-->x".
Definition twoCards40 : str := u "<p>card one</p><p>card two</p><!--pad-->".

(** A corpus with one block whose name and model meet all three structural
    signals. *)
Definition carouselCorpus : Corpus :=
  Directory [(u "card-carousel", Document {| filters := Some 1; models := None |})].

(** A corpus with one block that offers a title field. *)
Definition cardsModel : ModelDoc :=
  {| filters := Some 1;
     models := Some [Some [{| mfName := u "title"; mfLabel := Some (u "Title");
                              mfComponent := Some CText; mfValueType := None;
                              mfRequired := None; mfMaxLength := None;
                              mfDescription := None |}]] |}.
Definition cardsCorpus : Corpus := Directory [(u "cards", Document cardsModel)].




End Props.

(** ** Notions used by the further properties *)

Module MoreProps.

Import JS RegExp Model Signals RawStructure Nodes DesignAnalyzer AnalyzerEnhancements Props.
Import Interactions.

(** The 35 points of a structural signal. *)
Definition bonus (b : bool) : Q := if b then 35%Q else 0%Q.


(** A pattern as the matcher builds it from the document [m] of the
    directory [dir]. *)
Definition patternOf (blockName : str) (characteristics : list str)
           (dir : str) (m : ModelDoc) : SimilarBlockPattern :=
  {| patternName := dir;
     similarity := calculateSimilarity blockName dir characteristics m;
     sharedCharacteristics := findSharedCharacteristics characteristics m;
     suggestedFields := extractFieldsFromModel m |}.

(** A multi-item analysis without a list of item fields, as a caller other
    than [analyze] may pass it. *)
Definition bareCards : BlockAnalysis :=
  {| blockType := MultiItem;
     blockName := u "cards";
     contentStructure := {| containerFields := []; itemFields := None;
                            configurationOptions := []; jsPattern := PCards |};
     codeSignals := None |}.

(** The traversal of the children, as a function of its own. *)
Fixpoint subtreesFrom (p : Path) (i : nat) (cs : list FigmaNode) : list Located :=
  match cs with
  | [] => []
  | c :: cs' => subtree (p ++ [i]) c ++ subtreesFrom p (S i) cs'
  end.

(** Whether one of the nodes has a text node below or is one. *)
Fixpoint anyTextChild (cs : list FigmaNode) : bool :=
  match cs with
  | [] => false
  | c :: cs' => (hasTextChild c || anyTextChild cs')%bool
  end.

(** The font size of the node chosen so far, zero without one. *)
Definition sizeOfChoice (largest : option Located) : Q :=
  match largest with Some l => fontSizeOf (snd l) | None => 0%Q end.

(** One step of the reduction in [findMainHeading]. *)
Definition headingStep (largest : option Located) (node : Located) : option Located :=
  if Qgtb (fontSizeOf (snd node)) (sizeOfChoice largest) then Some node else largest.

(** Groups whose members carry the key of their group and satisfy [P]. *)
Definition groupsOk (P : Located -> Prop) (groups : list (option (Z * Z) * list Located)) : Prop :=
  Forall (fun g => Forall (fun c => sizeSignature (snd c) = fst g /\ P c) (snd g)) groups.

(** Two containers of the same size signature. *)
Definition sameSize (c c' : Located) : bool :=
  sigEqb (sizeSignature (snd c)) (sizeSignature (snd c')).

(** The visits of the children in [findAllImageNodes], as a function of
    its own. *)
Fixpoint imagesFromChildren (parentIsIcon : bool) (p : Path) (i : nat) (cs : list FigmaNode)
  : list Located :=
  match cs with
  | [] => []
  | c :: cs' => imageNodesFrom parentIsIcon (p ++ [i]) c
                ++ imagesFromChildren parentIsIcon p (S i) cs'
  end.

(** What the loops over the markup keep true of their lists. *)
Definition accOk (acc : Acc) : Prop :=
  Forall (fun h => okHeading h = true) (aHeadings acc) /\
  Forall (fun d => okDescription d = true) (aDescriptions acc) /\
  Forall (fun l => l <> [] /\ Forall (fun b => b <> []) l) (aLists acc).

(** The names of the fields of a list. *)
Definition fieldNames (fs : list BlockField) : list str := map name fs.

(** The names of the fields pushed for [n] images. *)
Definition imageNames (n : nat) : list str :=
  flat_map (fun i => [u "image" ++ indexSuffix i; (u "image" ++ indexSuffix i) ++ u "Alt"])
           (List.seq 0 n).

(** A test for lists without duplicates. *)
Fixpoint distinctNames (l : list str) : bool :=
  match l with
  | [] => true
  | x :: l' => (negb (existsb (JS.eqb x) l') && distinctNames l')%bool
  end.

(** A name that starts with [image]. *)
Definition isImageName (x : str) : bool := startsWith x (u "image").

(** The digits at the end of a name. *)
Definition digitsOf (x : str) : str := dropWhile (fun c => negb (isDigit c)) x.

(** The keys under which the two branches of [analyzeInteractions]
    compare texts. *)
Definition semanticKey (c : CTAButton) : str := toLowerCase (trim (buttonText c)).
Definition heuristicKey (c : CTAButton) : str := toLowerCase (buttonText c).

(** The ranks of a list of CTA buttons: the first is primary. *)
Definition ranksOf (n : nat) : list CtaRank := firstn n [Primary; Secondary; Secondary].

(** The levels [h1] to [hk]. *)
Definition headingLevels (k : nat) : list str :=
  map (fun i => u "h" ++ ofNat (i + 1)) (List.seq 0 k).

(** Markup of 48 units with one button. *)
Definition buyNow : str := u "<button>Buy now</button><p>some padding text</p>".

(** What is written for the analyzer's fields is read back unchanged when
    the label and the value type are not empty, the maximal length is not
    zero and the description is not the empty string. *)
Definition storable (f : BlockField) : Prop :=
  label f <> [] /\ valueType f <> [] /\ maxLength f <> Some 0 /\ description f <> Some [].

(** A field as [extractFieldsFromModel] reads it back from the model that
    [formatModelFields] wrote. *)
Definition readBack (f : BlockField) : BlockField :=
  {| name := name f;
     label := if nonEmpty (label f) then label f else name f;
     component := component f;
     valueType := if nonEmpty (valueType f) then valueType f else u "string";
     required := required f;
     maxLength := match maxLength f with
                  | Some n => if n =? 0 then None else Some n
                  | None => None
                  end;
     description := match description f with
                    | Some d => if nonEmpty d then Some d else None
                    | None => None
                    end |}.

(** The document that is stored for a generated model and parsed again:
    properties that are absent stay absent. *)
Definition storedField (f : ModelGenerator.GeneratedField) : ModelField :=
  {| mfName := ModelGenerator.gName f;
     mfLabel := Some (ModelGenerator.gLabel f);
     mfComponent := Some (ModelGenerator.gComponent f);
     mfValueType := Some (ModelGenerator.gValueType f);
     mfRequired := ModelGenerator.gRequired f;
     mfMaxLength := ModelGenerator.gMaxLength f;
     mfDescription := ModelGenerator.gDescription f |}.

(** The document read from the file of a generated model. *)
Definition storedDocument (m : ModelGenerator.UniversalEditorModel) : ModelDoc :=
  {| filters := Some (length (ModelGenerator.filters m));
     models := Some (map (fun gm => Some (map storedField (ModelGenerator.modelFields gm)))
                         (ModelGenerator.models m)) |}.

(** The fields that the generated model holds. *)
Definition writtenFields (a : BlockAnalysis) : list BlockField :=
  match blockType a with
  | Single => containerFields (contentStructure a)
  | MultiItem =>
      containerFields (contentStructure a)
      ++ match itemFields (contentStructure a) with Some fs => fs | None => [] end
  end.

(** The ids of the definitions of a generated model. *)
Definition definitionIds (m : ModelGenerator.UniversalEditorModel) : list str :=
  map ModelGenerator.definitionId (ModelGenerator.definitions m).

(** An ASCII code unit that is no lower-case letter. *)
Definition noLowerAscii (c : char) : bool :=
  (N.leb c 127 && negb (in_range 97 122 c))%bool.

End MoreProps.

(** * Properties *)

Unset Implicit Arguments.

Import JS RegExp Model Signals RawStructure Nodes DesignAnalyzer AnalyzerEnhancements Props.

(** ** The matcher *)

(** A successful choice succeeded on one side. *)
Lemma orElse_Some {A} (a b : option A) (x : A) :
  orElse a b = Some x -> a = Some x \/ b = Some x.
Proof. destruct a; simpl; auto. Qed.

(** A quantifier loop over an iteration that consumes at least [n] units
    consumes at least [n] units for each iteration it is sure to make. *)
Lemma repLoop_shrinks run greedy k n :
  shrinksBy n run ->
  forall fuel min max st res,
    repLoop run greedy k fuel min max st = Some res ->
    exists st', k st' = Some res /\
                length (rest st') + repBound min max * n <= length (rest st).
Proof.
  intros Hrun. induction fuel as [|fuel IH]; intros min max st res H; simpl in H.
  - discriminate.
  - assert (Hiter : forall max',
               run st (fun st' =>
                 if ((min =? 0) && (length (rest st') =? length (rest st)))%bool
                 then None else repLoop run greedy k fuel (pred min) max' st') = Some res ->
               exists st', k st' = Some res /\
                 length (rest st') + (repBound (pred min) max' * n + (if 0 <? min then n else 0))
                   <= length (rest st)).
    { intros max' Hi. apply Hrun in Hi. destruct Hi as (st1 & Hk & Hlen).
      destruct ((min =? 0) && (length (rest st1) =? length (rest st)))%bool; [discriminate|].
      apply IH in Hk. destruct Hk as (st' & Hk & Hlen').
      exists st'. split; [exact Hk|].
      destruct (0 <? min); lia. }
    assert (Hstay : k st = Some res ->
               exists st', k st' = Some res /\ length (rest st') + 0 <= length (rest st)).
    { intros Hk. exists st. split; [exact Hk | lia]. }
    destruct max as [[|m]|].
    + destruct (Hstay H) as (st' & ? & ?). exists st'. split; auto.
      unfold repBound. rewrite Nat.min_0_r. simpl. lia.
    + unfold option_map in H. destruct (0 <? min) eqn:Hmin.
      * apply Nat.ltb_lt in Hmin. destruct (Hiter _ H) as (st' & ? & Hl).
        exists st'. split; auto. unfold repBound in *.
        replace (Nat.min min (S m)) with (S (Nat.min (pred min) (pred (S m)))) by lia.
        simpl in *. lia.
      * apply Nat.ltb_ge in Hmin. assert (min = 0) by lia. subst min.
        unfold repBound. simpl.
        destruct greedy; apply orElse_Some in H; destruct H as [H|H];
          first [ destruct (Hiter _ H) as (st' & ? & Hl); exists st';
                  split; [assumption | simpl in *; lia]
                | destruct (Hstay H) as (st' & ? & ?); exists st';
                  split; [assumption | simpl in *; lia] ].
    + unfold option_map in H. destruct (0 <? min) eqn:Hmin.
      * apply Nat.ltb_lt in Hmin. destruct (Hiter _ H) as (st' & ? & Hl).
        exists st'. split; auto. unfold repBound in *.
        replace min with (S (pred min)) at 1 by lia. simpl. lia.
      * apply Nat.ltb_ge in Hmin. assert (min = 0) by lia. subst min.
        unfold repBound. simpl.
        destruct greedy; apply orElse_Some in H; destruct H as [H|H];
          first [ destruct (Hiter _ H) as (st' & ? & Hl); exists st';
                  split; [assumption | simpl in *; lia]
                | destruct (Hstay H) as (st' & ? & ?); exists st';
                  split; [assumption | simpl in *; lia] ].
Qed.

(** Every match of a pattern consumes at least [minLen] units. *)
Lemma mrun_shrinks fl r : shrinksBy (minLen r) (mrun fl r).
Proof.
  induction r as [ | x | | neg items | r1 IH1 r2 IH2 | r1 IH1 r2 IH2
                 | r0 IH min max greedy | i r0 IH | | | r0 IH ];
    intros st k res H; cbn [mrun] in H.
  - exists st. split; [exact H | simpl; lia].
  - destruct (rest st) as [|c tl] eqn:E; [discriminate|].
    destruct (chrMatches fl x c); [|discriminate].
    exists (step st c tl). split; [exact H | simpl; lia].
  - destruct (rest st) as [|c tl] eqn:E; [discriminate|].
    destruct (isLineTerminator c); [discriminate|].
    exists (step st c tl). split; [exact H | simpl; lia].
  - destruct (rest st) as [|c tl] eqn:E; [discriminate|].
    destruct (clsMatches fl neg items c); [|discriminate].
    exists (step st c tl). split; [exact H | simpl; lia].
  - apply IH1 in H. destruct H as (st1 & H & L1).
    apply IH2 in H. destruct H as (st2 & H & L2).
    exists st2. split; [exact H | simpl; lia].
  - apply orElse_Some in H. destruct H as [H|H].
    + apply IH1 in H. destruct H as (st1 & H & L1). exists st1. split; [exact H | simpl; lia].
    + apply IH2 in H. destruct H as (st1 & H & L1). exists st1. split; [exact H | simpl; lia].
  - eapply repLoop_shrinks in H; [|exact IH]. destruct H as (st1 & H & L1).
    exists st1. split; [exact H | simpl; lia].
  - apply IH in H. destruct H as (st1 & H & L1).
    eexists. split; [exact H | simpl; lia].
  - exists st. split; [|simpl; lia].
    destruct (prev st) as [c|]; [destruct (multiline fl && isLineTerminator c)%bool|];
      congruence.
  - exists st. split; [|simpl; lia].
    destruct (rest st) as [|c tl]; [|destruct (multiline fl && isLineTerminator c)%bool];
      congruence.
  - exists st. split; [|simpl; lia].
    destruct (mrun fl r0 st (fun st' => Some st')); congruence.
Qed.

(** The matched text is a prefix of the input, of at least [minLen] units. *)
Lemma mexec_whole fl r idx pv s m :
  mexec fl r idx pv s = Some m ->
  minLen r <= length (whole m) /\ length (whole m) <= length s /\
  whole m = firstn (length (whole m)) s /\ index m = idx.
Proof.
  unfold mexec. intros H.
  destruct (mrun fl r _ _) as [st'|] eqn:E; [|discriminate].
  injection H as <-. simpl.
  apply mrun_shrinks in E. destruct E as (st1 & E & L). injection E as ->.
  simpl in L. unfold consumed. simpl.
  rewrite length_firstn.
  repeat split; try lia.
  f_equal. lia.
Qed.

(** Matches of at least [L] units do not overlap: [L] times their number fits
    into the input. *)
Lemma scanAll_bound fl r L :
  1 <= L -> L <= minLen r ->
  forall s idx pv skip, skip <= length s ->
    L * length (scanAll fl r idx pv s skip) + skip <= length s.
Proof.
  intros HL Hmin. induction s as [|c tl IH]; intros idx pv skip Hs; simpl in *.
  - destruct skip; [|lia].
    destruct (mexec fl r idx pv []) as [m|] eqn:E; simpl; [|lia].
    apply mexec_whole in E. simpl in E. lia.
  - destruct skip as [|n].
    + destruct (mexec fl r idx pv (c :: tl)) as [m|] eqn:E.
      * apply mexec_whole in E. simpl in E. destruct E as (E1 & E2 & _).
        simpl. specialize (IH (S idx) (Some c) (pred (length (whole m)))).
        assert (pred (length (whole m)) <= length tl) by lia.
        specialize (IH H). nia.
      * specialize (IH (S idx) (Some c) 0). lia.
    + specialize (IH (S idx) (Some c) n). lia.
Qed.

Lemma singleUnit_Chr x : singleUnit (fun c => N.eqb c x) (mrun noFlags (Chr x)).
Proof. intros st k. reflexivity. Qed.

Lemma singleUnit_Cls neg items :
  singleUnit (clsMatches noFlags neg items) (mrun noFlags (Cls neg items)).
Proof. intros st k. reflexivity. Qed.

Lemma length_dropWhile_le p s : length (dropWhile p s) <= length s.
Proof. induction s as [|c s IH]; simpl; [lia|]. destruct (p c); simpl; lia. Qed.

Lemma skipn_dropWhile p s :
  skipn (length s - length (dropWhile p s)) s = dropWhile p s.
Proof.
  induction s as [|c s IH]; [reflexivity|].
  cbn [dropWhile]. destruct (p c) eqn:E.
  - cbn [length]. rewrite Nat.sub_succ_l by apply length_dropWhile_le.
    cbn [skipn]. exact IH.
  - rewrite Nat.sub_diag. reflexivity.
Qed.

(** One unfolding of the quantifier loop. *)
Lemma repLoop_S run greedy k fuel min max st :
  repLoop run greedy k (S fuel) min max st =
  match max with
  | Some O => k st
  | _ =>
      let iter :=
        run st (fun st' =>
          if ((min =? 0) && (length (rest st') =? length (rest st)))%bool
          then None
          else repLoop run greedy k fuel (pred min) (option_map pred max) st') in
      if 0 <? min then iter
      else if greedy then orElse iter (k st)
      else orElse (k st) iter
  end.
Proof. reflexivity. Qed.

(** The greedy star of a single-unit pattern, followed by nothing, takes the
    longest run. *)
Lemma repLoop_single_greedy p run :
  singleUnit p run ->
  forall s fuel pv cp, length s < fuel ->
    exists pv',
      repLoop run true (fun st => Some st) fuel 0 None
              {| rest := s; prev := pv; caps := cp |}
      = Some {| rest := dropWhile p s; prev := pv'; caps := cp |}.
Proof.
  intros Hrun. induction s as [|c tl IH]; intros fuel pv cp Hf.
  - destruct fuel; [lia|]. rewrite repLoop_S. cbv zeta. rewrite Hrun.
    cbn. eauto.
  - destruct fuel; [simpl in Hf; lia|]. rewrite repLoop_S. cbv zeta. rewrite Hrun.
    cbn [rest dropWhile Nat.ltb Nat.leb].
    destruct (p c) eqn:E.
    + cbn [step rest caps Nat.eqb andb pred option_map length].
      replace (length tl =? S (length tl)) with false
        by (symmetry; apply Nat.eqb_neq; lia).
      simpl in Hf. unfold step. cbn [caps].
      destruct (IH fuel (Some c) cp ltac:(lia)) as (pv' & ->).
      cbn [orElse]. eauto.
    + cbn [orElse]. eauto.
Qed.

(** The greedy plus of a single-unit pattern matches the longest run at the
    start of the input, if there is one. *)
Lemma mexec_plus_single p r0 :
  singleUnit p (mrun noFlags r0) ->
  forall idx pv c tl,
    mexec noFlags (plus r0) idx pv (c :: tl) =
    if p c
    then Some {| index := idx;
                 whole := firstn (S (length tl - length (dropWhile p tl))) (c :: tl);
                 groups := [] |}
    else None.
Proof.
  intros Hrun idx pv c tl. unfold mexec, plus. cbn [mrun]. rewrite repLoop_S.
  cbv zeta. cbn [Nat.ltb Nat.leb]. rewrite Hrun. cbn [rest].
  destruct (p c) eqn:E; [|reflexivity].
  cbn [Nat.eqb andb pred option_map rest]. unfold step. cbn [caps plus Nat.add].
  match goal with
  | |- context [repLoop _ _ _ ?F _ _ _] =>
      destruct (repLoop_single_greedy p _ Hrun tl F (Some c) []
                  ltac:(simpl; lia)) as (pv' & ->)
  end.
  unfold consumed. cbn [rest caps].
  pose proof (length_dropWhile_le p tl).
  cbn [length]. rewrite Nat.sub_succ_l by assumption.
  reflexivity.
Qed.

Lemma mexec_plus_nil r0 idx pv p :
  singleUnit p (mrun noFlags r0) ->
  mexec noFlags (plus r0) idx pv [] = None.
Proof.
  intros Hrun. unfold mexec, plus. cbn [mrun]. rewrite repLoop_S.
  cbv zeta. cbn [Nat.ltb Nat.leb]. rewrite Hrun. reflexivity.
Qed.

(** What a global replacement emits: replacement text, and the units at
    which no match (or an empty one) starts. *)
Lemma replaceScan_Forall (Q0 Q : char -> Prop) fl r f :
  (forall m, Forall Q (f m)) ->
  (forall idx pv c tl, Q0 c ->
     mexec fl r idx pv (c :: tl) = None \/
     (exists m, mexec fl r idx pv (c :: tl) = Some m /\ whole m = []) ->
     Q c) ->
  forall s idx pv skip, Forall Q0 s -> Forall Q (replaceScan fl r f idx pv s skip).
Proof.
  intros Hf Hc. induction s as [|c tl IH]; intros idx pv skip Hs; simpl.
  - destruct skip; [|constructor].
    destruct (mexec fl r idx pv []); [apply Hf | constructor].
  - inversion Hs as [|? ? Hc0 Htl]; subst.
    destruct skip as [|n]; [|apply IH; assumption].
    destruct (mexec fl r idx pv (c :: tl)) as [m|] eqn:E.
    + apply Forall_app. split; [apply Hf|].
      destruct (length (whole m)) eqn:El.
      * constructor; [|apply IH; assumption].
        apply (Hc idx pv c tl Hc0). right. exists m. split; [assumption|].
        destruct (whole m); [reflexivity | discriminate].
      * apply IH; assumption.
    + constructor; [|apply IH; assumption].
      apply (Hc idx pv c tl Hc0). left. assumption.
Qed.

(** Passing over the rest of a match is resuming behind it. *)
Lemma replaceScan_skip fl r f :
  forall s idx pv skip, skip <= length s ->
    exists idx' pv',
      replaceScan fl r f idx pv s skip = replaceScan fl r f idx' pv' (skipn skip s) 0.
Proof.
  induction s as [|c tl IH]; intros idx pv skip Hs.
  - simpl in Hs. assert (skip = 0) by lia. subst. simpl. eauto.
  - destruct skip as [|n].
    + simpl skipn. eauto.
    + simpl in Hs. simpl. apply IH. lia.
Qed.

Lemma mexec_nonempty fl r idx pv s m :
  1 <= minLen r -> mexec fl r idx pv s = Some m -> whole m <> [].
Proof.
  intros Hm H. apply mexec_whole in H. destruct H as (H & _).
  destruct (whole m); [simpl in H; lia | discriminate].
Qed.





(** String equality as a test. *)
Lemma eqb_eq (a b : str) : JS.eqb a b = true <-> a = b.
Proof.
  revert b. induction a as [|x a IH]; intros [|y b]; cbn [JS.eqb]; split;
    try discriminate; try reflexivity.
  - intros H. apply andb_true_iff in H. destruct H as (H1 & H2).
    apply N.eqb_eq in H1. apply IH in H2. congruence.
  - intros [= -> ->]. rewrite N.eqb_refl. apply IH. reflexivity.
Qed.

Lemma nonEmpty_true (s : str) : nonEmpty s = true <-> s <> [].
Proof. destruct s; cbn; split; congruence. Qed.

Lemma existsb_eqb_In (k : str) seen : existsb (JS.eqb k) seen = true <-> In k seen.
Proof.
  rewrite existsb_exists. split.
  - intros (x & Hx & E). apply eqb_eq in E. subst. exact Hx.
  - intros H. exists k. split; [exact H | apply eqb_eq; reflexivity].
Qed.

(** ** Block names *)

(** After the first replacement only name units and blanks are left. *)
Lemma stageA (s : str) :
  Forall (fun c => (isNameUnit c || isSpace c)%bool = true)
         (replaceAll noFlags reNotNameChar (fun _ => []) s).
Proof.
  unfold replaceAll.
  apply replaceScan_Forall with (Q0 := fun _ => True).
  - intros m. constructor.
  - intros idx pv c tl _ [H | (m & H & Hw)].
    + unfold mexec, reNotNameChar in H. cbn [mrun rest] in H.
      destruct (clsMatches noFlags true _ c) eqn:E; [discriminate|].
      unfold clsMatches, clsHas in E. cbn in E. unfold isNameUnit.
      destruct (in_range 97 122 c), (in_range 48 57 c), (isSpace c), (N.eqb c 45);
        simpl in *; congruence.
    + exfalso. eapply mexec_nonempty; [|exact H|exact Hw]. simpl. lia.
  - apply Forall_forall. intros; exact I.
Qed.

(** After the second replacement only name units are left. *)
Lemma stageB (s : str) :
  Forall (fun c => (isNameUnit c || isSpace c)%bool = true) s ->
  Forall (fun c => isNameUnit c = true)
         (replaceAll noFlags reBlanks (fun _ => u "-") s).
Proof.
  intros Hs. unfold replaceAll.
  apply replaceScan_Forall with (Q0 := fun c => (isNameUnit c || isSpace c)%bool = true);
    [| |exact Hs].
  - intros m. repeat constructor.
  - intros idx pv c tl Hc [H | (m & H & Hw)].
    + unfold reBlanks, space in H.
      rewrite (mexec_plus_single _ _ (singleUnit_Cls false [CSpace])) in H.
      destruct (clsMatches noFlags false [CSpace] c) eqn:E; [discriminate|].
      unfold clsMatches, clsHas in E. cbn in E. rewrite orb_false_r in E.
      rewrite E, orb_false_r in Hc. exact Hc.
    + exfalso. eapply mexec_nonempty; [|exact H|exact Hw]. simpl. lia.
Qed.

Lemma stageC_units (s : str) :
  Forall (fun c => isNameUnit c = true) s ->
  Forall (fun c => isNameUnit c = true)
         (replaceAll noFlags reHyphens (fun _ => u "-") s).
Proof.
  intros Hs. unfold replaceAll.
  apply replaceScan_Forall with (Q0 := fun c => isNameUnit c = true); [| |exact Hs].
  - intros m. repeat constructor.
  - intros; assumption.
Qed.

Lemma stageD_units (s : str) :
  Forall (fun c => isNameUnit c = true) s ->
  Forall (fun c => isNameUnit c = true)
         (replaceAll noFlags reEdgeHyphen (fun _ => []) s).
Proof.
  intros Hs. unfold replaceAll.
  apply replaceScan_Forall with (Q0 := fun c => isNameUnit c = true); [| |exact Hs].
  - intros m. constructor.
  - intros; assumption.
Qed.

Lemma headHyphen_dropWhile (s : str) :
  headHyphen (dropWhile (fun c => N.eqb c 45) s) = false.
Proof.
  induction s as [|c s IH]; simpl; [reflexivity|].
  destruct (N.eqb c 45) eqn:E; [exact IH | simpl; exact E].
Qed.

Lemma hyphens_nil idx pv :
  replaceScan noFlags reHyphens (fun _ => u "-") idx pv [] 0 = [].
Proof.
  cbn [replaceScan]. unfold reHyphens.
  rewrite (mexec_plus_nil _ idx pv _ (singleUnit_Chr 45)). reflexivity.
Qed.

Lemma hyphens_other idx pv (c : char) (tl : str) :
  N.eqb c 45 = false ->
  replaceScan noFlags reHyphens (fun _ => u "-") idx pv (c :: tl) 0
  = c :: replaceScan noFlags reHyphens (fun _ => u "-") (S idx) (Some c) tl 0.
Proof.
  intros E. cbn [replaceScan]. unfold reHyphens.
  rewrite (mexec_plus_single _ _ (singleUnit_Chr 45)). rewrite E. reflexivity.
Qed.

(** A run of hyphens is replaced by one hyphen, and the scan resumes behind
    the run. *)
Lemma hyphens_run idx pv (tl : str) :
  exists idx' pv',
    replaceScan noFlags reHyphens (fun _ => u "-") idx pv (45%N :: tl) 0
    = 45%N :: replaceScan noFlags reHyphens (fun _ => u "-") idx' pv'
                (dropWhile (fun c => N.eqb c 45) tl) 0.
Proof.
  cbn [replaceScan]. unfold reHyphens.
  rewrite (mexec_plus_single _ _ (singleUnit_Chr 45)). cbn [N.eqb Pos.eqb whole].
  pose proof (length_dropWhile_le (fun c => N.eqb c 45) tl) as Hle.
  rewrite length_firstn. cbn [length].
  rewrite Nat.min_l by lia.
  assert (Hskip : length tl - length (dropWhile (fun c => N.eqb c 45) tl) <= length tl)
    by lia.
  destruct (replaceScan_skip noFlags (plus (Chr 45)) (fun _ => u "-") tl (S idx)
              (Some 45%N) _ Hskip) as (idx' & pv' & Hr).
  rewrite skipn_dropWhile in Hr. exists idx', pv'.
  change (u "-") with [45%N]. cbn [app]. f_equal. exact Hr.
Qed.

(** After the third replacement no hyphen follows a hyphen. *)
Lemma stageC_shape n :
  forall s : str, length s <= n -> forall idx pv,
    let r := replaceScan noFlags reHyphens (fun _ => u "-") idx pv s 0 in
    hasDoubleHyphen r = false /\ headHyphen r = headHyphen s.
Proof.
  induction n as [|n IH]; intros s Hn idx pv.
  - destruct s; [|simpl in Hn; lia]. cbv zeta. rewrite hyphens_nil. split; reflexivity.
  - destruct s as [|c tl].
    + cbv zeta. rewrite hyphens_nil. split; reflexivity.
    + cbv zeta. destruct (N.eqb c 45) eqn:E.
      * apply N.eqb_eq in E. subst c.
        destruct (hyphens_run idx pv tl) as (idx' & pv' & ->).
        pose proof (length_dropWhile_le (fun c => N.eqb c 45) tl) as Hle.
        simpl in Hn.
        destruct (IH (dropWhile (fun c => N.eqb c 45) tl) ltac:(lia) idx' pv') as (H1 & H2).
        cbn [hasDoubleHyphen headHyphen]. rewrite H1, H2, headHyphen_dropWhile.
        split; reflexivity.
      * rewrite (hyphens_other idx pv c tl E). simpl in Hn.
        destruct (IH tl ltac:(lia) (S idx) (Some c)) as (H1 & H2).
        cbn [hasDoubleHyphen headHyphen]. rewrite H1, E. split; reflexivity.
Qed.

Lemma firstn_one_unit (c : char) (tl : str) :
  firstn (length (c :: tl) - length tl) (c :: tl) = [c].
Proof.
  cbn [length]. rewrite Nat.sub_succ_l by lia. rewrite Nat.sub_diag. reflexivity.
Qed.

Lemma edge_exec_start idx (c : char) (tl : str) :
  mexec noFlags reEdgeHyphen idx None (c :: tl) =
  if N.eqb c 45 then Some {| index := idx; whole := [c]; groups := [] |} else None.
Proof.
  unfold mexec, reEdgeHyphen.
  cbn [mrun rest prev multiline noFlags andb chrMatches ignoreCase].
  destruct (N.eqb c 45); [|reflexivity].
  cbn [orElse step rest caps]. unfold consumed. cbn [rest].
  rewrite firstn_one_unit. reflexivity.
Qed.

Lemma edge_exec_mid idx p (c : char) (tl : str) :
  mexec noFlags reEdgeHyphen idx (Some p) (c :: tl) =
  if N.eqb c 45
  then match tl with
       | [] => Some {| index := idx; whole := [c]; groups := [] |}
       | _ :: _ => None
       end
  else None.
Proof.
  unfold mexec, reEdgeHyphen.
  cbn [mrun rest prev multiline noFlags andb chrMatches ignoreCase orElse].
  destruct (N.eqb c 45); [|reflexivity].
  unfold step. cbn [rest caps]. destruct tl as [|c' tl']; [|reflexivity].
  unfold consumed. cbn [rest]. rewrite firstn_one_unit. reflexivity.
Qed.

Lemma edge_exec_nil idx pv : mexec noFlags reEdgeHyphen idx pv [] = None.
Proof. destruct pv; reflexivity. Qed.

Lemma edge_tail (s : str) : forall idx p,
  replaceScan noFlags reEdgeHyphen (fun _ => []) idx (Some p) s 0 = dropLastHyphen s.
Proof.
  induction s as [|c tl IH]; intros idx p.
  - cbn [replaceScan]. rewrite edge_exec_nil. reflexivity.
  - cbn [replaceScan]. rewrite edge_exec_mid. cbn [dropLastHyphen].
    destruct (N.eqb c 45) eqn:E.
    + destruct tl as [|c' tl'].
      * cbn [whole length app replaceScan]. rewrite edge_exec_nil. reflexivity.
      * rewrite IH. reflexivity.
    + rewrite IH. destruct tl; reflexivity.
Qed.

(** The fourth replacement removes one hyphen at the start and one at the
    end. *)
Lemma edge_all (s : str) :
  replaceAll noFlags reEdgeHyphen (fun _ => []) s = dropLastHyphen (dropFirstHyphen s).
Proof.
  unfold replaceAll. destruct s as [|c tl].
  - cbn [replaceScan]. rewrite edge_exec_nil. reflexivity.
  - cbn [replaceScan dropFirstHyphen]. rewrite edge_exec_start.
    destruct (N.eqb c 45) eqn:E.
    + cbn [whole length app]. apply edge_tail.
    + rewrite edge_tail. cbn [dropLastHyphen]. rewrite E. destruct tl; reflexivity.
Qed.

Lemma Forall_dropLastHyphen (P : char -> Prop) (s : str) :
  Forall P s -> Forall P (dropLastHyphen s).
Proof.
  induction s as [|c tl IH]; intros H; [constructor|].
  inversion H; subst. cbn [dropLastHyphen]. destruct tl as [|c' tl'].
  - destruct (N.eqb c 45); [constructor | assumption].
  - constructor; [assumption | apply IH; assumption].
Qed.

Lemma Forall_dropFirstHyphen (P : char -> Prop) (s : str) :
  Forall P s -> Forall P (dropFirstHyphen s).
Proof.
  intros H. destruct s as [|c tl]; [constructor|]. cbn [dropFirstHyphen].
  destruct (N.eqb c 45); [inversion H; assumption | assumption].
Qed.

Lemma dropFirstHyphen_shape (s : str) :
  hasDoubleHyphen s = false ->
  hasDoubleHyphen (dropFirstHyphen s) = false /\ headHyphen (dropFirstHyphen s) = false.
Proof.
  destruct s as [|c tl]; [split; reflexivity|].
  cbn [hasDoubleHyphen dropFirstHyphen]. intros H.
  destruct (N.eqb c 45) eqn:E.
  - cbn [andb] in H. apply orb_false_iff in H. destruct H. split; assumption.
  - cbn [andb orb] in H. split; [cbn [hasDoubleHyphen]; rewrite E; exact H | exact E].
Qed.

Lemma headHyphen_dropLast (s : str) :
  headHyphen s = false -> headHyphen (dropLastHyphen s) = false.
Proof.
  destruct s as [|c tl]; [reflexivity|]. cbn [headHyphen dropLastHyphen]. intros E.
  destruct tl; [rewrite E|]; assumption.
Qed.

Lemma hasDoubleHyphen_dropLast (s : str) :
  hasDoubleHyphen s = false -> hasDoubleHyphen (dropLastHyphen s) = false.
Proof.
  induction s as [|c tl IH]; [reflexivity|].
  cbn [hasDoubleHyphen dropLastHyphen]. intros H.
  apply orb_false_iff in H. destruct H as (H1 & H2).
  destruct tl as [|c' tl'].
  - destruct (N.eqb c 45); cbn; [|rewrite andb_false_r]; reflexivity.
  - cbn [hasDoubleHyphen]. rewrite (IH H2), orb_false_r.
    destruct (N.eqb c 45); [|reflexivity]. cbn [andb] in *.
    apply headHyphen_dropLast. exact H1.
Qed.

Lemma dropLastHyphen_nil (s : str) :
  dropLastHyphen s = [] -> s = [] \/ s = [45%N].
Proof.
  destruct s as [|c tl]; [auto|]. cbn [dropLastHyphen].
  destruct tl; [|discriminate].
  destruct (N.eqb c 45) eqn:E; [|discriminate].
  apply N.eqb_eq in E. subst. auto.
Qed.

Lemma dropLastHyphen_cons2 (c c' : char) (tl : str) :
  dropLastHyphen (c :: c' :: tl) = c :: dropLastHyphen (c' :: tl).
Proof. reflexivity. Qed.

Lemma dropLastHyphen_end (s : str) :
  hasDoubleHyphen s = false -> forall l, dropLastHyphen s <> l ++ [45%N].
Proof.
  induction s as [|c tl IH]; intros H l Heq.
  - destruct l; discriminate.
  - cbn [hasDoubleHyphen] in H. apply orb_false_iff in H. destruct H as (H1 & H2).
    destruct tl as [|c' tl'].
    + cbn [dropLastHyphen] in Heq. destruct (N.eqb c 45) eqn:E.
      * destruct l; discriminate.
      * destruct l as [|x l]; [|destruct l; discriminate].
        injection Heq as ->. discriminate.
    + rewrite dropLastHyphen_cons2 in Heq. destruct l as [|x l].
      * injection Heq as -> Hnil. apply (dropLastHyphen_nil (c' :: tl')) in Hnil.
        destruct Hnil as [Hn|Hn]; [discriminate|]. injection Hn as -> ->.
        discriminate.
      * injection Heq as -> Heq. exact (IH H2 l Heq).
Qed.

Lemma hasDoubleHyphen_app (l1 l2 : str) :
  hasDoubleHyphen (l1 ++ 45%N :: 45%N :: l2) = true.
Proof.
  induction l1 as [|c l1 IH]; [reflexivity|].
  cbn [app hasDoubleHyphen]. rewrite IH. apply orb_true_r.
Qed.

(** The shape of a sanitized name. *)
Lemma sanitizeBlockName_shape (name : str) :
  let b := sanitizeBlockName name in
  Forall (fun c => isNameUnit c = true) b /\
  hasDoubleHyphen b = false /\
  headHyphen b = false /\
  (forall l, b <> l ++ [45%N]).
Proof.
  unfold sanitizeBlockName. cbv zeta.
  set (s1 := toLowerCase name).
  set (s2 := replaceAll noFlags reNotNameChar (fun _ => []) s1).
  set (s3 := replaceAll noFlags reBlanks (fun _ => u "-") s2).
  set (s4 := replaceAll noFlags reHyphens (fun _ => u "-") s3).
  assert (H2 : Forall (fun c => (isNameUnit c || isSpace c)%bool = true) s2)
    by apply stageA.
  assert (H3 : Forall (fun c => isNameUnit c = true) s3) by (apply stageB; exact H2).
  assert (H4 : Forall (fun c => isNameUnit c = true) s4) by (apply stageC_units; exact H3).
  assert (D4 : hasDoubleHyphen s4 = false)
    by (apply (stageC_shape (length s3) s3 (le_n _) 0 None)).
  rewrite edge_all.
  destruct (dropFirstHyphen_shape s4 D4) as (D5 & Hd5).
  repeat split.
  - apply Forall_dropLastHyphen, Forall_dropFirstHyphen, H4.
  - apply hasDoubleHyphen_dropLast, D5.
  - apply headHyphen_dropLast, Hd5.
  - apply dropLastHyphen_end, D5.
Qed.

(** ** Classification *)

(** Field derivation changes the content structure only. *)
Lemma analyzeContentStructure_keeps node a rc :
  blockName (analyzeContentStructure node a rc) = blockName a /\
  blockType (analyzeContentStructure node a rc) = blockType a /\
  codeSignals (analyzeContentStructure node a rc) = codeSignals a.
Proof.
  destruct a as [bt bn cs sig].
  unfold analyzeContentStructure, setContentStructure. cbv zeta.
  cbn [blockType blockName codeSignals].
  destruct (usesRawCode bt rc); [repeat split|].
  destruct bt; repeat split.
Qed.

Lemma analyze_blockName node rawCode :
  blockName (analyze node rawCode) = sanitizeBlockName (nodeName node).
Proof. unfold analyze. cbv zeta. apply analyzeContentStructure_keeps. Qed.

Lemma analyze_codeSignals node rawCode :
  codeSignals (analyze node rawCode) = Some (parseCodeSignals (processCode rawCode)).
Proof.
  unfold analyze. cbv zeta.
  destruct (analyzeContentStructure_keeps node
    {| blockType := if multiItemLikely (parseCodeSignals (processCode rawCode))
                    then MultiItem else Single;
       blockName := sanitizeBlockName (nodeName node);
       contentStructure :=
         {| containerFields := []; itemFields := Some [];
            configurationOptions := []; jsPattern := PCards |};
       codeSignals := Some (parseCodeSignals (processCode rawCode)) |}
    (processCode rawCode)) as (_ & _ & H).
  exact H.
Qed.

Lemma analyze_blockType node rawCode :
  blockType (analyze node rawCode) =
  if multiItemLikely (parseCodeSignals (processCode rawCode)) then MultiItem else Single.
Proof.
  unfold analyze. cbv zeta.
  destruct (analyzeContentStructure_keeps node
    {| blockType := if multiItemLikely (parseCodeSignals (processCode rawCode))
                    then MultiItem else Single;
       blockName := sanitizeBlockName (nodeName node);
       contentStructure :=
         {| containerFields := []; itemFields := Some [];
            configurationOptions := []; jsPattern := PCards |};
       codeSignals := Some (parseCodeSignals (processCode rawCode)) |}
    (processCode rawCode)) as (_ & H & _).
  exact H.
Qed.

(** A generic container takes 21 units of markup. *)
Lemma genericContainerCount_bound (code : str) :
  21 * genericContainerCount code <= length code.
Proof.
  unfold genericContainerCount, matchAll.
  pose proof (scanAll_bound noFlags reGenericContainer 21 ltac:(lia)
                ltac:(vm_compute; lia) code 0 None 0 ltac:(lia)) as H.
  lia.
Qed.

Lemma genericSignal_short (code : str) :
  length code < 40 -> genericContainerMultiItemSignal code = false.
Proof.
  intros H. unfold genericContainerMultiItemSignal.
  pose proof (genericContainerCount_bound code).
  replace (2 <=? genericContainerCount code) with false; [reflexivity|].
  symmetry. apply Nat.leb_gt. lia.
Qed.





Lemma isNameUnit_spec (c : char) :
  isNameUnit c = true -> (97 <= c <= 122)%N \/ (48 <= c <= 57)%N \/ c = 45%N.
Proof.
  unfold isNameUnit, in_range. rewrite !orb_true_iff, !andb_true_iff, !N.leb_le, N.eqb_eq.
  tauto.
Qed.

(** Claim C10.  For every node name, the block name of the analysis holds
    only lower-case ASCII letters, digits and hyphens, never holds two
    hyphens in a row, and neither starts nor ends with a hyphen. *)
Theorem C10_block_name_shape node rawCode :
  let b := blockName (analyze node rawCode) in
  Forall (fun c => (97 <= c <= 122)%N \/ (48 <= c <= 57)%N \/ c = 45%N) b /\
  (forall l1 l2, b <> l1 ++ 45%N :: 45%N :: l2) /\
  (forall l, b <> 45%N :: l) /\
  (forall l, b <> l ++ [45%N]).
Proof.
  cbv zeta. rewrite analyze_blockName.
  destruct (sanitizeBlockName_shape (nodeName node)) as (Hu & Hd & Hh & He).
  split; [|split; [|split]].
  - eapply Forall_impl; [|exact Hu]. intros c. apply isNameUnit_spec.
  - intros l1 l2 E. rewrite E, hasDoubleHyphen_app in Hd. discriminate.
  - intros l E. rewrite E in Hh. discriminate.
  - exact He.
Qed.

(** ** The confidence score *)

(** Claim C1.  For every analysis both sub-scores start at 50.  The score
    of the block type takes +30 when the signal bag indicates multi-item,
    +20 when repeated-container names were found and -20 when there is no
    bag; the score of the field extraction takes +20 for container fields
    (else -30 for a multi-item block), +30 for item fields (else -40 for a
    multi-item block) and +10 for a detected CTA.  Both are clamped to
    [0,100], the overall score is their average rounded to the nearest
    integer (halves up), and every adjustment appends one string: a reason
    for each increase, a suggestion for each decrease. *)
Theorem C1_confidence_score (a : BlockAnalysis) :
  let c := calculateConfidenceScore a in
  blockTypeScore c = Z.max 0 (Z.min 100 (50 + sumZ (specBlockTypeAdjustments a))) /\
  fieldExtraction c = Z.max 0 (Z.min 100 (50 + sumZ (specFieldAdjustments a))) /\
  (0 <= blockTypeScore c <= 100)%Z /\
  (0 <= fieldExtraction c <= 100)%Z /\
  (2 * overall c - 1 <= blockTypeScore c + fieldExtraction c <= 2 * overall c)%Z /\
  length (reasons c)
  = length (filter (fun z => (0 <? z)%Z)
                   (specBlockTypeAdjustments a ++ specFieldAdjustments a)) /\
  length (suggestions c)
  = length (filter (fun z => (z <? 0)%Z)
                   (specBlockTypeAdjustments a ++ specFieldAdjustments a)).
Proof.
  destruct a as [bt bn [cfs ifs opts pat] sig].
  unfold calculateConfidenceScore, specBlockTypeAdjustments, specFieldAdjustments,
    hasDetectedCtas, hasFields.
  cbn [codeSignals contentStructure containerFields itemFields blockType].
  destruct sig as [[names heads abc ilc multi ctas]|];
    cbn [multiItemLikely repeatedContainerNames semanticCtas];
    [destruct multi; destruct names as [|nm names]; destruct ctas as [[|cta ctas]|] | ];
    destruct cfs as [|cf cfs]; destruct ifs as [[|f ifs]|]; destruct bt;
    cbn -[Z.mul Z.add Z.sub ofNat u Math_round]; repeat split; try reflexivity;
    try (vm_compute; intro; discriminate).
Qed.

(** ** Field derivation *)

Lemma altPaired_nil : altPaired [].
Proof. intros f []. Qed.

Lemma altPaired_app fs gs : altPaired fs -> altPaired gs -> altPaired (fs ++ gs).
Proof.
  intros Hf Hg f Hin Hc. apply in_app_or in Hin. destruct Hin as [Hin|Hin].
  - destruct (Hf f Hin Hc) as (g & ? & ?). exists g. split; [apply in_or_app; auto | assumption].
  - destruct (Hg f Hin Hc) as (g & ? & ?). exists g. split; [apply in_or_app; auto | assumption].
Qed.

Lemma altPaired_flat_map {A} (h : A -> list BlockField) (xs : list A) :
  (forall x, altPaired (h x)) -> altPaired (flat_map h xs).
Proof.
  intros H. induction xs as [|x xs IH]; [apply altPaired_nil|].
  cbn [flat_map]. apply altPaired_app; [apply H | exact IH].
Qed.

Lemma altPaired_plain fs :
  (forall f, In f fs -> component f <> CReference) -> altPaired fs.
Proof. intros H f Hin Hc. destruct (H f Hin Hc). Qed.

Lemma altPaired_if (b : bool) fs gs :
  altPaired fs -> altPaired gs -> altPaired (if b then fs else gs).
Proof. destruct b; auto. Qed.

Lemma altPaired_pair (ref alt : BlockField) :
  name alt = name ref ++ u "Alt" -> component alt = CText -> altPaired [ref; alt].
Proof.
  intros Hn Hc f [<- | [<- | []]] Hf.
  - exists alt. split; [right; left; reflexivity | split; assumption].
  - congruence.
Qed.

Ltac plain_fields :=
  solve [ apply altPaired_plain; cbn [In]; intros f Hin;
          repeat (destruct Hin as [<- | Hin]; [cbn; discriminate|]); destruct Hin ].

Lemma altPaired_imageFieldPair lp d base i : altPaired (imageFieldPair lp d base i).
Proof. apply altPaired_pair; reflexivity. Qed.

Lemma altPaired_ctaFieldPair scope i : altPaired (ctaFieldPair scope i).
Proof. unfold ctaFieldPair. cbv zeta. plain_fields. Qed.

Lemma altPaired_rawContainerFields e : altPaired (rawContainerFields e).
Proof.
  unfold rawContainerFields. apply altPaired_app; apply altPaired_if;
    try apply altPaired_nil.
  - plain_fields.
  - apply altPaired_pair; reflexivity.
Qed.

Lemma altPaired_rawItemFields e : altPaired (rawItemFields e).
Proof.
  unfold rawItemFields.
  repeat (apply altPaired_app; [apply altPaired_if; try apply altPaired_nil|]).
  5: apply altPaired_if; try apply altPaired_nil.
  all: try plain_fields.
  apply altPaired_pair; reflexivity.
Qed.

Lemma altPaired_analyzeContainerFields t i b a :
  altPaired (analyzeContainerFields t i b a).
Proof.
  unfold analyzeContainerFields. cbv zeta.
  destruct (findContainerTextContent t (findMainHeading t)) as [simple rich].
  apply altPaired_app.
  - assert (H : altPaired
        ((match findMainHeading t with
          | Some _ =>
              [field (u "heading") (u "Container Heading") CText true (Some 200)
                     (Some (u "Main heading displayed above the items"))]
          | None => []
          end) ++
         forEachIndex (fun index =>
           imageFieldPair "Container Image " "Image asset extracted from Figma design"
                          (imageBaseName index) index) i)).
    { apply altPaired_app.
      - destruct (findMainHeading t); [plain_fields | apply altPaired_nil].
      - apply altPaired_flat_map. intros x. apply altPaired_imageFieldPair. }
    destruct simple; [|destruct rich]; try exact H;
      (apply altPaired_app; [exact H | plain_fields]).
  - apply altPaired_flat_map. intros x. apply altPaired_ctaFieldPair.
Qed.

Lemma altPaired_analyzeActualContent n a o : altPaired (analyzeActualContent n a o).
Proof.
  unfold analyzeActualContent. cbv zeta.
  destruct (findStructuredTextContent (findAllTextNodes n)) as [[hasList multi] simple].
  apply altPaired_app.
  - match goal with
    | |- altPaired (if _ then ?X ++ _ else if _ then ?X ++ _ else ?X) =>
        assert (H : altPaired X)
    end.
    { apply altPaired_app.
      - apply altPaired_if; [plain_fields | apply altPaired_nil].
      - apply altPaired_flat_map. intros x. apply altPaired_imageFieldPair. }
    destruct (hasList || multi)%bool; [|destruct simple]; try exact H;
      (apply altPaired_app; [exact H | plain_fields]).
  - apply altPaired_flat_map. intros x. apply altPaired_ctaFieldPair.
Qed.

Lemma altPaired_extractAllFields t i : altPaired (extractAllFields t i).
Proof.
  unfold extractAllFields. cbv zeta. apply altPaired_app.
  - apply altPaired_plain. intros f Hin. apply in_flat_map in Hin.
    destruct Hin as (x & _ & [<- | []]). cbn [component].
    destruct (isHeadingText _); discriminate.
  - apply altPaired_flat_map. intros x. apply altPaired_pair; reflexivity.
Qed.

(** Claim C9.  In every analysis result, every reference field among the
    container fields or among the item fields has a sibling text field in
    the same scope whose name is the name of the reference field followed
    by Alt. *)
Theorem C9_reference_alt_pairing node rawCode :
  let cs := contentStructure (analyze node rawCode) in
  altPaired (containerFields cs) /\
  (forall fs, itemFields cs = Some fs -> altPaired fs).
Proof.
  cbv zeta. unfold analyze, analyzeContentStructure, setContentStructure. cbv zeta.
  cbn [blockType blockName contentStructure codeSignals].
  destruct (usesRawCode _ _).
  - cbn [contentStructure containerFields itemFields]. split.
    + apply altPaired_rawContainerFields.
    + intros fs [= <-]. apply altPaired_rawItemFields.
  - destruct (multiItemLikely _); cbn [contentStructure containerFields itemFields]; split.
    + apply altPaired_analyzeContainerFields.
    + intros fs [= <-]. apply altPaired_analyzeActualContent.
    + apply altPaired_extractAllFields.
    + intros fs [= <-]. apply altPaired_nil.
Qed.

(** [analyze] always returns a list of item fields, possibly empty. *)
Lemma analyze_itemFields node rawCode :
  exists fs, itemFields (contentStructure (analyze node rawCode)) = Some fs.
Proof.
  unfold analyze, analyzeContentStructure, setContentStructure. cbv zeta.
  cbn [blockType blockName contentStructure codeSignals].
  destruct (usesRawCode _ _); [eexists; reflexivity|].
  destruct (multiItemLikely _); eexists; reflexivity.
Qed.

(** The enhancement leaves an analysis with a list of item fields as it is. *)
Lemma enhance_keeps_present analysis rawCode blocksDir fs :
  itemFields (contentStructure analysis) = Some fs ->
  analysisOut (enhanceAnalysis analysis rawCode blocksDir) = analysis.
Proof.
  intros H. unfold enhanceAnalysis. cbv zeta.
  destruct (match blocksDir with
            | Some dir =>
                if (overall (calculateConfidenceScore analysis) <? 70)%Z
                then findSimilarBlockPatterns (blockName analysis)
                       (extractCharacteristics analysis rawCode) dir
                else []
            | None => []
            end) as [|b r]; [reflexivity|].
  destruct (fieldExtraction (calculateConfidenceScore analysis) <? 50)%Z; [|reflexivity].
  rewrite H. destruct (blockType analysis); reflexivity.
Qed.

(** The pairing also holds behind the enhancement step, which never borrows
    fields for an analysis that [analyze] made. *)
Lemma reference_alt_pairing_after_enhancement node rawCode code blocksDir :
  let a := analysisOut (enhanceAnalysis (analyze node rawCode) code blocksDir) in
  altPaired (containerFields (contentStructure a)) /\
  (forall fs, itemFields (contentStructure a) = Some fs -> altPaired fs).
Proof.
  cbv zeta. destruct (analyze_itemFields node rawCode) as (fs & Hfs).
  rewrite (enhance_keeps_present _ code blocksDir fs Hfs).
  unfold analyze, analyzeContentStructure, setContentStructure. cbv zeta.
  cbn [blockType blockName contentStructure codeSignals].
  destruct (usesRawCode _ _).
  - cbn [contentStructure containerFields itemFields]. split.
    + apply altPaired_rawContainerFields.
    + intros gs [= <-]. apply altPaired_rawItemFields.
  - destruct (multiItemLikely _); cbn [contentStructure containerFields itemFields]; split.
    + apply altPaired_analyzeContainerFields.
    + intros gs [= <-]. apply altPaired_analyzeActualContent.
    + apply altPaired_extractAllFields.
    + intros gs [= <-]. apply altPaired_nil.
Qed.

(** ** Call-to-action extraction *)

(** The test of the anchors is the rule with a destination of two units or
    more. *)
Lemma linkOk_iff (href text : str) :
  linkOk href text = true <-> codeLinkRule href text.
Proof.
  unfold linkOk, codeLinkRule.
  rewrite !andb_true_iff, !negb_true_iff, !nonEmpty_true, Nat.ltb_lt, Nat.leb_le.
  split.
  - intros (((((Ht & _) & _) & Hl) & Hj) & H100). repeat split; try assumption; lia.
  - intros (Ht & H100 & Hl & Hj). repeat split; try assumption; try lia.
    + destruct href; [simpl in Hl; lia | discriminate].
    + destruct href as [|x [|y t]]; try (simpl in Hl; lia).
      cbn. rewrite andb_false_r. reflexivity.
Qed.

Lemma buttonTextOk_iff (text : str) :
  buttonTextOk text = true <-> text <> [] /\ length text <= 100.
Proof.
  unfold buttonTextOk. rewrite andb_true_iff, nonEmpty_true, Nat.leb_le. reflexivity.
Qed.

Lemma in_buttonCtas code e :
  In e (buttonCtas code) -> ctaType e = TButton /\ text e <> [] /\ length (text e) <= 100.
Proof.
  unfold buttonCtas. intros H. apply in_flat_map in H. destruct H as (m & _ & H).
  cbv zeta in H. destruct (buttonTextOk _) eqn:E; [|destruct H].
  destruct H as [<- | []]. apply buttonTextOk_iff in E. cbn [text ctaType]. tauto.
Qed.

Lemma in_divButtonCtas code e :
  In e (divButtonCtas code) -> ctaType e = TButton /\ text e <> [] /\ length (text e) <= 100.
Proof.
  unfold divButtonCtas. intros H. apply in_flat_map in H. destruct H as (m & _ & H).
  cbv zeta in H. destruct (orElse _ _) as [tm|]; [|destruct H].
  destruct (buttonTextOk _) eqn:E; [|destruct H].
  destruct H as [<- | []]. apply buttonTextOk_iff in E. cbn [text ctaType]. tauto.
Qed.

Lemma in_linkCtas code e :
  In e (linkCtas code) <->
  exists m, In m (matchAll noFlags reLink code) /\ e = linkEntry m /\
            codeLinkRule (groupOr 1 m) (text (linkEntry m)).
Proof.
  unfold linkCtas. rewrite in_flat_map. split.
  - intros (m & Hm & H). cbv zeta in H. destruct (linkOk _ _) eqn:E; [|destruct H].
    destruct H as [<- | []]. exists m. split; [assumption|]. split; [reflexivity|].
    apply linkOk_iff. exact E.
  - intros (m & Hm & -> & H). exists m. split; [assumption|]. cbv zeta.
    apply linkOk_iff in H. cbn [linkEntry text] in H. rewrite H. left. reflexivity.
Qed.


Lemma candidates_text rawCode e :
  In e (ctaCandidates rawCode) -> text e <> [] /\ length (text e) <= 100.
Proof.
  unfold ctaCandidates. cbv zeta. rewrite !in_app_iff. intros [H | [H | H]].
  - apply in_buttonCtas in H. tauto.
  - apply in_linkCtas in H. destruct H as (m & _ & -> & H). unfold codeLinkRule in H. tauto.
  - apply in_divButtonCtas in H. tauto.
Qed.

Lemma dedupCtas_In cs : forall seen e, In e (dedupCtas seen cs) -> In e cs.
Proof.
  induction cs as [|c cs IH]; intros seen e H; [exact H|].
  cbn [dedupCtas] in H. cbv zeta in H.
  destruct (existsb _ seen).
  - right. exact (IH _ _ H).
  - destruct H as [<- | H]; [left; reflexivity | right; exact (IH _ _ H)].
Qed.


Lemma dedupCtas_fresh cs : forall seen e,
  In e (dedupCtas seen cs) -> ~ In (ctaKey e) seen.
Proof.
  induction cs as [|c cs IH]; intros seen e H; [destruct H|].
  cbn [dedupCtas] in H. cbv zeta in H. fold (ctaKey c) in H.
  destruct (existsb (JS.eqb (ctaKey c)) seen) eqn:E.
  - exact (IH _ _ H).
  - destruct H as [<- | H].
    + intros Hin. apply existsb_eqb_In in Hin. congruence.
    + intros Hin. apply (IH _ _ H). right. exact Hin.
Qed.

(** No key occurs twice after deduplication. *)
Lemma dedupCtas_NoDup cs : forall seen, NoDup (map ctaKey (dedupCtas seen cs)).
Proof.
  induction cs as [|c cs IH]; intros seen; [constructor|].
  cbn [dedupCtas]. cbv zeta. fold (ctaKey c).
  destruct (existsb (JS.eqb (ctaKey c)) seen) eqn:E; [apply IH|].
  cbn [map]. constructor; [|apply IH].
  intros Hin. apply in_map_iff in Hin. destruct Hin as (e & Hk & He).
  apply dedupCtas_fresh in He. apply He. left. symmetry. exact Hk.
Qed.





(** ** The simplifier *)

Import HTMLSimplifier.




(** Trimming belongs to the amended premise: a text with a leading blank
    matches no pattern and still loses the blank. *)
Lemma simplify_trims_unmatched_input :
  forallb (fun r => negb (test noFlags r (u " a"))) simplificationPatterns = true /\
  simplify (u " a") <> u " a".
Proof. split; [vm_compute; reflexivity | vm_compute; discriminate]. Qed.

(** ** Similar blocks and the enhancement *)

Lemma collectPatterns_above blockName characteristics blockDirs :
  Forall (fun p => (40 < similarity p)%Z)
         (collectPatterns blockName characteristics blockDirs).
Proof.
  induction blockDirs as [|[dir entry] rest IH]; cbn [collectPatterns]; [constructor|].
  destruct entry as [|m|]; [exact IH| |constructor].
  cbv zeta. destruct (40 <? calculateSimilarity blockName dir characteristics m)%Z eqn:E;
    [|exact IH].
  constructor; [|exact IH]. cbn [similarity]. apply Z.ltb_lt. exact E.
Qed.

Lemma insertBySimilarity_perm p l : Permutation (p :: l) (insertBySimilarity p l).
Proof.
  induction l as [|q l IH]; cbn [insertBySimilarity]; [apply Permutation_refl|].
  destruct (similarity p <? similarity q)%Z; [|apply Permutation_refl].
  eapply Permutation_trans; [apply perm_swap|]. apply perm_skip. exact IH.
Qed.

Lemma sortBySimilarity_perm l : Permutation l (sortBySimilarity l).
Proof.
  induction l as [|p l IH]; cbn [sortBySimilarity fold_right]; [constructor|].
  eapply Permutation_trans; [apply perm_skip; exact IH|].
  apply insertBySimilarity_perm.
Qed.

Lemma insertBySimilarity_sorted p l :
  Sorted descending l -> Sorted descending (insertBySimilarity p l).
Proof.
  induction l as [|q l IH]; intros Hs; cbn [insertBySimilarity].
  - repeat constructor.
  - destruct (similarity p <? similarity q)%Z eqn:E.
    + inversion Hs as [|? ? Hs' Hhd]; subst. constructor; [apply IH; exact Hs'|].
      apply Z.ltb_lt in E.
      destruct l as [|r l]; cbn [insertBySimilarity].
      * constructor. unfold descending. lia.
      * destruct (similarity p <? similarity r)%Z.
        -- inversion Hhd; subst. constructor. assumption.
        -- constructor. unfold descending. lia.
    + apply Z.ltb_ge in E. constructor; [exact Hs|]. constructor. exact E.
Qed.

Lemma sortBySimilarity_sorted l : Sorted descending (sortBySimilarity l).
Proof.
  induction l as [|p l IH]; cbn [sortBySimilarity fold_right]; [constructor|].
  apply insertBySimilarity_sorted. exact IH.
Qed.

(** The part of the similarity bound that holds: every returned pattern
    scores above 40, and the list is in descending order. *)
Lemma findSimilar_above_and_sorted blockName characteristics blocksDir :
  let ps := findSimilarBlockPatterns blockName characteristics blocksDir in
  Forall (fun p => (40 < similarity p)%Z) ps /\ Sorted descending ps.
Proof.
  cbv zeta. unfold findSimilarBlockPatterns. destruct blocksDir as [|blockDirs].
  - split; constructor.
  - split; [|apply sortBySimilarity_sorted].
    eapply Permutation_Forall; [apply sortBySimilarity_perm|].
    apply collectPatterns_above.
Qed.
Lemma lowerChar_nameUnit (c : char) : isNameUnit c = true -> lowerChar c = c.
Proof.
  intros H. apply isNameUnit_spec in H. unfold lowerChar, in_range.
  replace ((65 <=? c)%N && (c <=? 90)%N)%bool with false.
  - replace ((192 <=? c)%N && (c <=? 222)%N)%bool with false; [reflexivity|].
    symmetry. apply andb_false_iff. left. apply N.leb_gt. lia.
  - symmetry. apply andb_false_iff.
    destruct H as [H | [H | H]].
    + right. apply N.leb_gt. lia.
    + left. apply N.leb_gt. lia.
    + left. apply N.leb_gt. lia.
Qed.

(** A sanitized name is in lower case already. *)
Lemma sanitizeBlockName_lower (name : str) :
  toLowerCase (sanitizeBlockName name) = sanitizeBlockName name.
Proof.
  destruct (sanitizeBlockName_shape name) as (Hu & _).
  unfold toLowerCase. induction Hu as [|c l Hc Hl IH]; [reflexivity|].
  cbn [map]. rewrite (lowerChar_nameUnit c Hc), IH. reflexivity.
Qed.

(** On the markup-driven branch the pattern follows the priority of the
    specification. *)
Lemma raw_path_priority node rawCode :
  let a := analyze node rawCode in
  usesRawCode (blockType a) (processCode rawCode) = true ->
  exists fs, itemFields (contentStructure a) = Some fs /\
    jsPattern (contentStructure a) = specJsPattern (blockName a) fs.
Proof.
  cbv zeta. rewrite analyze_blockName, analyze_blockType.
  unfold analyze, analyzeContentStructure, setContentStructure. cbv zeta.
  cbn [blockType blockName contentStructure codeSignals].
  intros H. rewrite H. cbn [contentStructure itemFields jsPattern].
  eexists. split; [reflexivity|].
  unfold rawJsPattern, specJsPattern, hasRichtextField. cbv zeta.
  rewrite sanitizeBlockName_lower. reflexivity.
Qed.

(** On the node-driven branch the pattern is chosen without a test for
    carousel, slider or gallery. *)
Lemma node_path_pattern node rawCode :
  let a := analyze node rawCode in
  blockType a = MultiItem ->
  usesRawCode (blockType a) (processCode rawCode) = false ->
  exists fs, itemFields (contentStructure a) = Some fs /\
    jsPattern (contentStructure a)
    = if includes (blockName a) (u "card") then PCards
      else if existsb (fun f => componentEqb (component f) CRichtext) fs
           then PDecorated else PCards.
Proof.
  cbv zeta. rewrite analyze_blockName, analyze_blockType.
  unfold analyze, analyzeContentStructure, setContentStructure. cbv zeta.
  cbn [blockType blockName contentStructure codeSignals].
  intros Hm H. rewrite H.
  destruct (multiItemLikely _); [|discriminate].
  cbn [contentStructure itemFields jsPattern].
  eexists. split; [reflexivity|].
  unfold nodeJsPattern, hasRichtextField. cbv zeta.
  rewrite sanitizeBlockName_lower. reflexivity.
Qed.

(** The enhancement borrows fields when the analysis has no item-field list
    at all. *)
Lemma enhance_populates_missing analysis rawCode blocksDir best rest :
  similarPatterns (enhanceAnalysis analysis rawCode blocksDir) = best :: rest ->
  (fieldExtraction (calculateConfidenceScore analysis) < 50)%Z ->
  blockType analysis = MultiItem ->
  itemFields (contentStructure analysis) = None ->
  let e := enhanceAnalysis analysis rawCode blocksDir in
  itemFields (contentStructure (analysisOut e))
  = Some (filter borrowable (suggestedFields best)) /\
  suggestions (confidence e)
  = suggestions (calculateConfidenceScore analysis)
    ++ [u "Consider using field structure from similar block: "
        ++ patternName best ++ u " (" ++ ofZ (similarity best) ++ u "% match)"].
Proof.
  intros Hs Hf Hb Hi. cbv zeta. revert Hs. unfold enhanceAnalysis. cbv zeta.
  destruct (match blocksDir with
            | Some dir =>
                if (overall (calculateConfidenceScore analysis) <? 70)%Z
                then findSimilarBlockPatterns (blockName analysis)
                       (extractCharacteristics analysis rawCode) dir
                else []
            | None => []
            end) as [|b r]; [discriminate|].
  apply Z.ltb_lt in Hf. rewrite Hf, Hb, Hi.
  cbn [similarPatterns analysisOut confidence]. intros [= -> ->].
  split; reflexivity.
Qed.

(** For every markup under 40 units the bag is the zero-valued one, the
    block is single, and the score of the block type stays at 50 without any
    suggestion. *)
Lemma short_markup_scores node (rawCode : str) :
  length rawCode < 40 ->
  let a := analyze node (Some rawCode) in
  let c := calculateConfidenceScore a in
  codeSignals a = Some zeroSignals /\
  blockType a = Single /\
  blockTypeScore c = 50%Z /\
  suggestions c = [].
Proof.
  intros H. cbv zeta.
  assert (Hp : processCode (Some rawCode) = Some rawCode).
  { unfold processCode. replace (100 <? length rawCode) with false.
    - rewrite andb_false_r. reflexivity.
    - symmetry. apply Nat.ltb_ge. lia. }
  assert (Hz : parseCodeSignals (Some rawCode) = zeroSignals).
  { unfold parseCodeSignals. replace (length rawCode <? 40) with true.
    - rewrite orb_true_r. reflexivity.
    - symmetry. apply Nat.ltb_lt. exact H. }
  assert (Hc : codeSignals (analyze node (Some rawCode)) = Some zeroSignals)
    by (rewrite analyze_codeSignals, Hp, Hz; reflexivity).
  assert (Hb : blockType (analyze node (Some rawCode)) = Single)
    by (rewrite analyze_blockType, Hp, Hz; reflexivity).
  split; [exact Hc|]. split; [exact Hb|].
  assert (Hi : itemFields (contentStructure (analyze node (Some rawCode))) = Some []).
  { unfold analyze, analyzeContentStructure, setContentStructure. cbv zeta.
    rewrite Hp, Hz. reflexivity. }
  unfold calculateConfidenceScore. rewrite Hc, Hb, Hi.
  cbn [multiItemLikely zeroSignals repeatedContainerNames semanticCtas length
       Nat.ltb Nat.leb blockTypeEqb].
  destruct (containerFields (contentStructure (analyze node (Some rawCode))));
    split; reflexivity.
Qed.

(** The same holds when no markup is passed at all: the analysis still
    carries the zero-valued bag, so the scorer never takes its branch for
    an analysis without signals. *)
Lemma missing_markup_scores node :
  let a := analyze node None in
  let c := calculateConfidenceScore a in
  codeSignals a = Some zeroSignals /\
  blockType a = Single /\
  blockTypeScore c = 50%Z /\
  suggestions c = [].
Proof.
  cbv zeta.
  assert (Hc : codeSignals (analyze node None) = Some zeroSignals)
    by (rewrite analyze_codeSignals; reflexivity).
  assert (Hb : blockType (analyze node None) = Single)
    by (rewrite analyze_blockType; reflexivity).
  split; [exact Hc|]. split; [exact Hb|].
  assert (Hi : itemFields (contentStructure (analyze node None)) = Some [])
    by reflexivity.
  unfold calculateConfidenceScore. rewrite Hc, Hb, Hi.
  cbn [multiItemLikely zeroSignals repeatedContainerNames semanticCtas length
       Nat.ltb Nat.leb blockTypeEqb].
  destruct (containerFields (contentStructure (analyze node None)));
    split; reflexivity.
Qed.

(** Claim C2, evaluated.  For the block name [card-carousel], the
    characteristics the enhancement derives for it and a corpus that holds
    a block of the same name with items, the matcher returns a similarity
    of 135: the name scores 30 and each of the three structural signals
    35, and nothing caps the sum at 100. *)
Theorem C2_similarity_exceeds_100 :
  let a := analyze (stubNode "Card Carousel") (Some twoCards41) in
  let characteristics := extractCharacteristics a twoCards41 in
  blockName a = u "card-carousel" /\
  map similarity (findSimilarBlockPatterns (blockName a) characteristics carouselCorpus)
  = [135%Z] /\
  map similarity (similarPatterns (enhanceAnalysis a twoCards41 (Some carouselCorpus)))
  = [135%Z].
Proof. vm_compute. repeat split. Qed.

(** Claim C4, evaluated.  Markup of exactly 40 units that names a card
    twice makes the block multi-item but is too short for the
    markup-driven branch; in the node-driven branch the block named
    [hero-carousel] gets the pattern cards.  One unit more of markup and
    the markup-driven branch answers carousel. *)
Theorem C4_node_path_ignores_carousel :
  let node := stubNode "Hero Carousel" in
  let a := analyze node (Some twoCards40) in
  blockType a = MultiItem /\
  blockName a = u "hero-carousel" /\
  includes (blockName a) (u "carousel") = true /\
  itemFields (contentStructure a) = Some [] /\
  jsPattern (contentStructure a) = PCards /\
  jsPattern (contentStructure (analyze node (Some twoCards41))) = PCarousel.
Proof. vm_compute. repeat split. Qed.

(** Claim C5, evaluated.  The analysis of the two-card markup is multi-item
    with an empty item-field list; its overall confidence is below 70, the
    score of its field extraction below 50, and the matcher returns the
    block [cards], which offers a title field that passes the filter.  The
    enhancement appends its suggestion but leaves the item-field list
    empty: it borrows only when the list is missing. *)
Theorem C5_empty_item_fields_not_populated :
  let a := analyze (stubNode "Feature Cards") (Some twoCards41) in
  let e := enhanceAnalysis a twoCards41 (Some cardsCorpus) in
  blockType a = MultiItem /\
  itemFields (contentStructure a) = Some [] /\
  (overall (confidence e) < 70)%Z /\
  (fieldExtraction (confidence e) < 50)%Z /\
  map (fun p => filter borrowable (suggestedFields p)) (similarPatterns e)
  = [[field (u "title") (u "Title") CText false None None]] /\
  itemFields (contentStructure (analysisOut e)) = Some [] /\
  last (suggestions (confidence e)) []
  = u "Consider using field structure from similar block: cards (82% match)".
Proof. vm_compute. repeat split. Qed.

(** Claim C6, evaluated.  For markup of 10 units the bag is the zero-valued
    one and the block is single, as claimed; but the bag is present, so the
    score of the block type stays at 50 and no suggestion is made. *)
Theorem C6_short_markup_not_penalised :
  let a := analyze (stubNode "Design Context Root") (Some (u "<p>hey</p>")) in
  let c := calculateConfidenceScore a in
  codeSignals a = Some zeroSignals /\
  blockType a = Single /\
  blockTypeScore c = 50%Z /\
  suggestions c = [].
Proof. vm_compute. repeat split. Qed.

(** * Further properties *)

Import Interactions MoreProps.

(** ** Edit distance *)

Lemma levRow_length c str1 : forall diag left above,
  length (levRow c str1 diag left above) = Nat.min (length str1) (length above).
Proof.
  induction str1 as [|x s IH]; intros diag left above; [reflexivity|].
  destruct above as [|up above]; [reflexivity|].
  cbn [levRow length Nat.min]. rewrite IH. reflexivity.
Qed.

Lemma levRows_length str1 str2 : forall i row,
  length row = S (length str1) ->
  length (levRows str1 str2 i row) = S (length str1).
Proof.
  induction str2 as [|c s IH]; intros i row H; [exact H|].
  cbn [levRows]. apply IH. cbn [length]. rewrite levRow_length.
  destruct row as [|r row]; [discriminate|]. cbn [tl]. cbn [length] in H. lia.
Qed.

Lemma levRow_bound c str1 : forall above diag left k i j,
  diag <= Nat.max i k ->
  (forall j, nth j above 0 <= Nat.max i (k + 1 + j)) ->
  nth j (levRow c str1 diag left above) 0 <= Nat.max (S i) (k + 1 + j).
Proof.
  induction str1 as [|x s IH]; intros above diag left k i j Hd Ha.
  - cbn [levRow]. destruct j; cbn [nth]; lia.
  - destruct above as [|up above].
    + cbn [levRow]. destruct j; cbn [nth]; lia.
    + cbn [levRow]. cbv zeta. destruct j as [|j]; cbn [nth].
      * destruct (N.eqb c x); lia.
      * replace (k + 1 + S j) with ((k + 1) + 1 + j) by lia.
        apply IH.
        -- specialize (Ha 0). cbn [nth] in Ha. lia.
        -- intros j'. specialize (Ha (S j')). cbn [nth] in Ha.
           replace (k + 1 + 1 + j') with (k + 1 + S j') by lia. exact Ha.
Qed.

Lemma levRows_bound str1 str2 : forall i row j,
  (forall j, nth j row 0 <= Nat.max i j) ->
  nth j (levRows str1 str2 i row) 0 <= Nat.max (i + length str2) j.
Proof.
  induction str2 as [|c s IH]; intros i row j H.
  - cbn [levRows length]. rewrite Nat.add_0_r. apply H.
  - cbn [levRows length]. replace (i + S (length s)) with (S i + length s) by lia.
    apply IH. intros [|j']; cbn [nth]; [lia|].
    pose proof (levRow_bound c str1 (tl row) i (S i) 0 i j') as B.
    cbn [Nat.add] in B. apply B; [lia|].
    intros j2. specialize (H (S j2)). destruct row as [|r row]; cbn [tl].
    + destruct j2; cbn [nth]; lia.
    + cbn [nth] in H. exact H.
Qed.

Lemma last_nth_pred {A} (l : list A) d : last l d = nth (Nat.pred (length l)) l d.
Proof.
  induction l as [|a l IH]; [reflexivity|].
  destruct l as [|b l]; [reflexivity|].
  change (last (a :: b :: l) d) with (last (b :: l) d). rewrite IH. reflexivity.
Qed.

Lemma levenshteinDistance_nth str1 str2 :
  levenshteinDistance str1 str2
  = nth (length str1) (levRows str1 str2 0 (List.seq 0 (S (length str1)))) 0.
Proof.
  unfold levenshteinDistance. rewrite last_nth_pred, levRows_length; [reflexivity|].
  rewrite length_seq. reflexivity.
Qed.

Lemma levenshteinDistance_le_max str1 str2 :
  levenshteinDistance str1 str2 <= Nat.max (length str1) (length str2).
Proof.
  rewrite levenshteinDistance_nth.
  pose proof (levRows_bound str1 str2 0 (List.seq 0 (S (length str1))) (length str1)) as B.
  cbn [Nat.add] in B. rewrite Nat.max_comm. apply B.
  intros j. destruct (Nat.lt_ge_cases j (S (length str1))) as [Hj|Hj].
  - rewrite seq_nth by exact Hj. lia.
  - rewrite nth_overflow by (rewrite length_seq; lia). lia.
Qed.

Lemma levRow_nth_match c str1 : forall above diag left j,
  nth_error str1 j = Some c -> j < length above ->
  nth j (levRow c str1 diag left above) 0
  = match j with 0 => diag | S j' => nth j' above 0 end.
Proof.
  induction str1 as [|x s IH]; intros above diag left j Hn Hj.
  - destruct j; discriminate.
  - destruct above as [|up above]; [cbn [length] in Hj; lia|].
    cbn [levRow]. cbv zeta. destruct j as [|j]; cbn [nth].
    + cbn [nth_error] in Hn. injection Hn as ->. rewrite N.eqb_refl. reflexivity.
    + cbn [nth_error] in Hn. cbn [length] in Hj.
      rewrite (IH above up _ j Hn ltac:(lia)).
      destruct j; reflexivity.
Qed.

Lemma levRows_diagonal str1 : forall post pre row,
  str1 = pre ++ post ->
  length row = S (length str1) ->
  nth (length pre) row 0 = 0 ->
  nth (length str1) (levRows str1 post (length pre) row) 0 = 0.
Proof.
  induction post as [|c post IH]; intros pre row Hs Hl H0.
  - cbn [levRows]. rewrite Hs, app_nil_r. exact H0.
  - cbn [levRows].
    specialize (IH (pre ++ [c]) (S (length pre) :: levRow c str1 (length pre) (S (length pre)) (tl row))).
    rewrite length_app in IH. cbn [length] in IH.
    replace (length pre + 1) with (S (length pre)) in IH by lia.
    apply IH.
    + rewrite <- app_assoc. exact Hs.
    + rewrite levRow_length. destruct row as [|r row]; [discriminate|].
      cbn [tl]. cbn [length] in Hl. lia.
    + cbn [nth]. rewrite levRow_nth_match.
      * destruct (length pre) as [|p] eqn:E; [reflexivity|].
        destruct row as [|r row]; [discriminate|]. cbn [tl]. cbn [nth] in H0. exact H0.
      * rewrite Hs. rewrite nth_error_app2 by lia. rewrite Nat.sub_diag. reflexivity.
      * destruct row as [|r row]; [discriminate|]. cbn [tl]. cbn [length] in Hl.
        rewrite Hs, length_app in Hl. cbn [length] in Hl. lia.
Qed.

Lemma levenshteinDistance_refl s : levenshteinDistance s s = 0.
Proof.
  rewrite levenshteinDistance_nth.
  apply (levRows_diagonal s s [] (List.seq 0 (S (length s)))); try reflexivity.
  rewrite length_seq. reflexivity.
Qed.

Lemma levRows_nil_left : forall str2 i row,
  length row = 1 -> levRows [] str2 i row = [i + length str2] \/ (str2 = [] /\ levRows [] str2 i row = row).
Proof.
  induction str2 as [|c s IH]; intros i row H.
  - right. split; reflexivity.
  - left. cbn [levRows levRow length].
    destruct (IH (S i) [S i] eq_refl) as [E|[-> E]].
    + rewrite E. f_equal. lia.
    + rewrite E. cbn [length]. f_equal. lia.
Qed.

Lemma levenshteinDistance_nil_l s : levenshteinDistance [] s = length s.
Proof.
  unfold levenshteinDistance. cbn [length List.seq].
  destruct (levRows_nil_left s 0 [0] eq_refl) as [E|[-> E]]; rewrite E; reflexivity.
Qed.

Lemma levenshteinDistance_nil_r s : levenshteinDistance s [] = length s.
Proof.
  rewrite levenshteinDistance_nth. cbn [levRows].
  rewrite seq_nth by lia. reflexivity.
Qed.

(** ** Similarity scores *)

Lemma stringSimilarity_range str1 str2 :
  (0 <= stringSimilarity str1 str2 /\ stringSimilarity str1 str2 <= 1)%Q.
Proof.
  unfold stringSimilarity. cbv zeta.
  set (longer := if length str2 <? length str1 then str1 else str2).
  set (shorter := if length str2 <? length str1 then str2 else str1).
  assert (Hls : length shorter <= length longer).
  { unfold longer, shorter. destruct (length str2 <? length str1) eqn:E.
    - apply Nat.ltb_lt in E. lia.
    - apply Nat.ltb_ge in E. lia. }
  destruct (length longer =? 0) eqn:E0; [split; lra|].
  apply Nat.eqb_neq in E0.
  pose proof (levenshteinDistance_le_max longer shorter) as Hd.
  rewrite Nat.max_l in Hd by exact Hls.
  set (d := levenshteinDistance longer shorter) in *.
  assert (HL : (0 < inject_Z (Z.of_nat (length longer)))%Q).
  { change 0%Q with (inject_Z 0). rewrite <- Zlt_Qlt. lia. }
  split.
  - apply Qle_shift_div_l; [exact HL|]. rewrite Qmult_0_l.
    change 0%Q with (inject_Z 0). rewrite <- Zle_Qle. lia.
  - apply Qle_shift_div_r; [exact HL|]. rewrite Qmult_1_l.
    rewrite <- Zle_Qle. lia.
Qed.

Lemma stringSimilarity_refl s : (stringSimilarity s s == 1)%Q.
Proof.
  unfold stringSimilarity. cbv zeta. rewrite Nat.ltb_irrefl.
  destruct (length s =? 0) eqn:E0; [reflexivity|].
  apply Nat.eqb_neq in E0.
  rewrite levenshteinDistance_refl. cbn [Z.of_nat]. rewrite Z.sub_0_r.
  field. intros H. apply E0.
  unfold Qeq in H. cbn [inject_Z Qnum Qden] in H. lia.
Qed.

Lemma Math_round_range (q : Q) (lo hi : Z) :
  (inject_Z lo <= q)%Q -> (q <= inject_Z hi)%Q ->
  (lo <= Math_round q <= hi)%Z.
Proof.
  intros Hlo Hhi. unfold Math_round. split.
  - rewrite <- (Qfloor_Z lo). apply Qfloor_resp_le. lra.
  - assert (H : (Qfloor (q + (1 # 2)) < hi + 1)%Z); [|lia].
    rewrite Zlt_Qlt. eapply Qle_lt_trans; [apply Qfloor_le|].
    rewrite inject_Z_plus. change (inject_Z 1) with 1%Q. lra.
Qed.

Lemma calculateSimilarity_eq blockName existing characteristics m :
  calculateSimilarity blockName existing characteristics m
  = Math_round
      ((stringSimilarity blockName existing * 30
        + bonus (someIncludes characteristics [u "carousel"; u "slider"]
                 && (includes existing (u "carousel") || includes existing (u "slider")))
        + bonus (someIncludes characteristics [u "card"; u "grid"]
                 && includes existing (u "card"))
        + bonus (hasFilters m
                 && someIncludes characteristics [u "multi-item"; u "repeating"]))%Q).
Proof.
  unfold calculateSimilarity, Math_round, bonus. cbv zeta.
  apply Qfloor_comp.
  destruct (_ && (_ || _))%bool; destruct (someIncludes characteristics [u "card"; u "grid"] && _)%bool;
    destruct (hasFilters m && _)%bool; field.
Qed.



(** Property X1 ([levenshteinDistance]).  The distance of two strings is at
    most the length of the longer one; it is zero between a string and
    itself, and against the empty string it is the length of the other
    string. *)
Theorem levenshteinDistance_bounds (str1 str2 : str) :
  levenshteinDistance str1 str2 <= Nat.max (length str1) (length str2) /\
  levenshteinDistance str1 str1 = 0 /\
  levenshteinDistance str1 [] = length str1 /\
  levenshteinDistance [] str2 = length str2.
Proof.
  split; [apply levenshteinDistance_le_max|].
  split; [apply levenshteinDistance_refl|].
  split; [apply levenshteinDistance_nil_r|apply levenshteinDistance_nil_l].
Qed.

(** Property X2 ([stringSimilarity]).  The similarity of two names lies
    between 0 and 1, and a name is similar to itself with 1 (also the empty
    name). *)
Theorem stringSimilarity_unit_interval (str1 str2 : str) :
  (0 <= stringSimilarity str1 str2)%Q /\
  (stringSimilarity str1 str2 <= 1)%Q /\
  (stringSimilarity str1 str1 == 1)%Q.
Proof.
  destruct (stringSimilarity_range str1 str2) as (H0 & H1).
  split; [exact H0|]. split; [exact H1|apply stringSimilarity_refl].
Qed.


(** ** The matcher and the enhancement, again *)



Lemma collectPatterns_unreadable blockName characteristics dir pre post :
  collectPatterns blockName characteristics (pre ++ (dir, Unreadable) :: post)
  = collectPatterns blockName characteristics pre.
Proof.
  induction pre as [|[d e] pre IH]; [reflexivity|].
  cbn [app collectPatterns]. destruct e as [|m|]; [exact IH| |reflexivity].
  cbv zeta. rewrite IH. reflexivity.
Qed.

(** Property X5 ([findSimilarBlockPatterns]).  A model document whose
    reading fails ends the search: the result is what the directories
    listed before it give, whatever follows. *)
Theorem similar_patterns_stop_at_unreadable blockName characteristics dir pre post :
  findSimilarBlockPatterns blockName characteristics
    (Directory (pre ++ (dir, Unreadable) :: post))
  = findSimilarBlockPatterns blockName characteristics (Directory pre).
Proof.
  unfold findSimilarBlockPatterns. rewrite collectPatterns_unreadable. reflexivity.
Qed.

(** Property X7 ([enhanceAnalysis]).  The enhancement changes nothing of the
    analysis but a missing list of item fields; the scores and the reasons
    are those of [calculateConfidenceScore], and at most one suggestion is
    added. *)
Theorem enhanceAnalysis_preserves analysis rawCode blocksDir :
  let e := enhanceAnalysis analysis rawCode blocksDir in
  let c := calculateConfidenceScore analysis in
  blockType (analysisOut e) = blockType analysis /\
  blockName (analysisOut e) = blockName analysis /\
  codeSignals (analysisOut e) = codeSignals analysis /\
  containerFields (contentStructure (analysisOut e))
  = containerFields (contentStructure analysis) /\
  configurationOptions (contentStructure (analysisOut e))
  = configurationOptions (contentStructure analysis) /\
  jsPattern (contentStructure (analysisOut e)) = jsPattern (contentStructure analysis) /\
  (itemFields (contentStructure analysis) = None \/
   itemFields (contentStructure (analysisOut e)) = itemFields (contentStructure analysis)) /\
  overall (confidence e) = overall c /\
  blockTypeScore (confidence e) = blockTypeScore c /\
  fieldExtraction (confidence e) = fieldExtraction c /\
  reasons (confidence e) = reasons c /\
  (exists extra, suggestions (confidence e) = suggestions c ++ extra /\ length extra <= 1).
Proof.
  cbv zeta. unfold enhanceAnalysis. cbv zeta.
  destruct (match blocksDir with
            | Some dir =>
                if (overall (calculateConfidenceScore analysis) <? 70)%Z
                then findSimilarBlockPatterns (blockName analysis)
                       (extractCharacteristics analysis rawCode) dir
                else []
            | None => []
            end) as [|b r].
  - cbn [analysisOut confidence]. repeat split; try reflexivity.
    + right; reflexivity.
    + exists []. rewrite app_nil_r. split; [reflexivity|cbn; lia].
  - destruct (fieldExtraction (calculateConfidenceScore analysis) <? 50)%Z.
    + cbn [analysisOut confidence pushSuggestion overall blockTypeScore fieldExtraction reasons suggestions].
      destruct (blockType analysis) eqn:Eb; destruct (itemFields (contentStructure analysis)) eqn:Ei;
        unfold setItemFields, setContentStructure;
        cbn [blockType blockName codeSignals contentStructure containerFields
             configurationOptions jsPattern itemFields];
        rewrite ?Eb, ?Ei;
        (repeat split; try reflexivity;
         [ first [right; reflexivity | left; reflexivity]
         | eexists; split; [reflexivity|cbn; lia] ]).
    + cbn [analysisOut confidence]. repeat split; try reflexivity.
      * right; reflexivity.
      * exists []. rewrite app_nil_r. split; [reflexivity|cbn; lia].
Qed.

Lemma sorted_head_largest (best : SimilarBlockPattern) rest :
  Sorted descending (best :: rest) ->
  Forall (fun p => (similarity p <= similarity best)%Z) rest.
Proof.
  intros H. apply Sorted_StronglySorted in H.
  - inversion H; subst. assumption.
  - intros a b c Hab Hbc. unfold descending in *. lia.
Qed.

(** Property X8 ([enhanceAnalysis], [findSimilarBlockPatterns]).  For a
    multi-item analysis without a list of item fields, an overall
    confidence below 70 and a field score below 50, the enhancement takes
    the item fields from the first pattern, which no other pattern exceeds
    in similarity, keeping the fields that are not named after a container
    or a heading unless they are named after an item. *)
Theorem enhancement_borrows_from_best_match analysis rawCode dir best rest :
  (overall (calculateConfidenceScore analysis) < 70)%Z ->
  (fieldExtraction (calculateConfidenceScore analysis) < 50)%Z ->
  blockType analysis = MultiItem ->
  itemFields (contentStructure analysis) = None ->
  findSimilarBlockPatterns (blockName analysis) (extractCharacteristics analysis rawCode) dir
  = best :: rest ->
  let e := enhanceAnalysis analysis rawCode (Some dir) in
  itemFields (contentStructure (analysisOut e))
  = Some (filter borrowable (suggestedFields best)) /\
  Forall (fun p => (similarity p <= similarity best)%Z) rest /\
  similarPatterns e = best :: rest.
Proof.
  intros Ho Hf Hb Hi Hs. cbv zeta.
  assert (Hp : similarPatterns (enhanceAnalysis analysis rawCode (Some dir)) = best :: rest).
  { unfold enhanceAnalysis. cbv zeta. apply Z.ltb_lt in Ho. rewrite Ho, Hs.
    destruct (fieldExtraction _ <? 50)%Z; reflexivity. }
  destruct (enhance_populates_missing analysis rawCode (Some dir) best rest Hp Hf Hb Hi)
    as (H1 & _).
  split; [exact H1|]. split; [|exact Hp].
  apply sorted_head_largest. rewrite <- Hs.
  apply findSimilar_above_and_sorted.
Qed.

(** The property at an analysis without item fields and the corpus with
    the block [cards]. *)
Lemma enhancement_borrows_from_best_match_witness :
  let e := enhanceAnalysis bareCards [] (Some cardsCorpus) in
  (overall (calculateConfidenceScore bareCards) < 70)%Z /\
  (fieldExtraction (calculateConfidenceScore bareCards) < 50)%Z /\
  itemFields (contentStructure (analysisOut e))
  = Some [field (u "title") (u "Title") CText false None None].
Proof.
  cbv zeta. split; [vm_compute; reflexivity|]. split; [vm_compute; reflexivity|].
  destruct (findSimilarBlockPatterns (blockName bareCards)
              (extractCharacteristics bareCards []) cardsCorpus) as [|best rest] eqn:Es;
    [vm_compute in Es; discriminate|].
  assert (H1 : (overall (calculateConfidenceScore bareCards) < 70)%Z)
    by (vm_compute; reflexivity).
  assert (H2 : (fieldExtraction (calculateConfidenceScore bareCards) < 50)%Z)
    by (vm_compute; reflexivity).
  destruct (enhancement_borrows_from_best_match bareCards [] cardsCorpus best rest
              H1 H2 eq_refl eq_refl Es) as (H & _).
  rewrite H. vm_compute in Es. injection Es as <- _. reflexivity.
Defined.

(** ** The stub node of the server and the own name *)

(** Property X11 ([handleAnalyzeBlockStructure], [analyze],
    [analyzeContentStructure]).  The server analyzes every markup with the
    same childless node; whenever that analysis is classified single it has
    no container fields and no item fields, whatever the markup holds. *)
Theorem server_stub_single_has_no_fields rawCode :
  let a := analyze (stubNode "Design Context Root") rawCode in
  blockType a = Single ->
  blockName a = u "design-context-root" /\
  containerFields (contentStructure a) = [] /\
  itemFields (contentStructure a) = Some [] /\
  configurationOptions (contentStructure a) = [u "light"; u "dark"] /\
  jsPattern (contentStructure a) = PCards.
Proof.
  cbv zeta. rewrite analyze_blockType, analyze_blockName.
  unfold analyze, analyzeContentStructure, setContentStructure, usesRawCode. cbv zeta.
  cbn [blockType blockName contentStructure codeSignals].
  destruct (multiItemLikely (parseCodeSignals (processCode rawCode))); [discriminate|].
  intros _. cbn [blockTypeEqb andb contentStructure containerFields itemFields
                 configurationOptions jsPattern].
  repeat split; vm_compute; reflexivity.
Qed.

(** The property at a markup of ten units. *)
Lemma server_stub_single_has_no_fields_witness :
  let a := analyze (stubNode "Design Context Root") (Some (u "<p>hey</p>")) in
  blockType a = Single /\
  containerFields (contentStructure a) = [] /\
  itemFields (contentStructure a) = Some [].
Proof.
  cbv zeta.
  assert (H : blockType (analyze (stubNode "Design Context Root") (Some (u "<p>hey</p>"))) = Single)
    by (vm_compute; reflexivity).
  split; [exact H|].
  destruct (server_stub_single_has_no_fields (Some (u "<p>hey</p>")) H) as (_ & H1 & H2 & _).
  split; assumption.
Defined.

(** The characteristics start with the block type. *)
Lemma extractCharacteristics_head analysis rawCode :
  exists rest,
    extractCharacteristics analysis rawCode = blockTypeName (blockType analysis) :: rest.
Proof.
  unfold extractCharacteristics. cbv zeta.
  repeat match goal with
  | |- context [if ?b then _ else _] => destruct b
  end; cbn [app]; eexists; reflexivity.
Qed.

Lemma multi_needs_items analysis rawCode :
  blockType analysis = MultiItem ->
  someIncludes (extractCharacteristics analysis rawCode) [u "multi-item"; u "repeating"] = true.
Proof.
  intros H. destruct (extractCharacteristics_head analysis rawCode) as (rest & ->).
  rewrite H. reflexivity.
Qed.

(** A multi-item analysis scores at least 65 against a block of its own
    name that has items. *)
Lemma multi_item_matches_own_name analysis rawCode m :
  blockType analysis = MultiItem ->
  hasFilters m = true ->
  (65 <= calculateSimilarity (blockName analysis) (blockName analysis)
           (extractCharacteristics analysis rawCode) m)%Z.
Proof.
  intros Hb Hf. rewrite calculateSimilarity_eq.
  rewrite Hf, (multi_needs_items analysis rawCode Hb).
  pose proof (stringSimilarity_refl (blockName analysis)) as E.
  set (s := stringSimilarity (blockName analysis) (blockName analysis)) in *.
  apply (Math_round_range _ 65 135); unfold bonus; cbn [andb];
    destruct (_ && (_ || _))%bool; destruct (someIncludes _ [u "card"; u "grid"] && _)%bool;
    unfold inject_Z; clearbody s; lra.
Qed.

(** Without an unreadable document, every document above the threshold
    is collected. *)
Lemma collectPatterns_complete blockName characteristics blockDirs dir m :
  Forall (fun e => snd e <> Unreadable) blockDirs ->
  In (dir, Document m) blockDirs ->
  (40 < calculateSimilarity blockName dir characteristics m)%Z ->
  In (patternOf blockName characteristics dir m)
     (collectPatterns blockName characteristics blockDirs).
Proof.
  intros Hr Hin Hs. induction blockDirs as [|[d e] rest IH]; [destruct Hin|].
  inversion Hr as [|? ? He Hrest]; subst. cbn [snd] in He.
  cbn [collectPatterns]. destruct Hin as [E|Hin].
  - injection E as -> ->. cbv zeta.
    apply Z.ltb_lt in Hs. rewrite Hs. left. reflexivity.
  - specialize (IH Hrest Hin). destruct e as [|m'|]; [exact IH| |contradiction].
    cbv zeta. destruct (40 <? _)%Z; [right|]; exact IH.
Qed.

(** Property X6 ([findSimilarBlockPatterns], [calculateSimilarity],
    [extractCharacteristics]).  For a multi-item analysis, a readable corpus
    that holds a block of the same name with items offers that block, with
    a similarity of at least 65 and the fields of its model. *)
Theorem multi_item_offered_own_name analysis rawCode entries m :
  blockType analysis = MultiItem ->
  hasFilters m = true ->
  Forall (fun e => snd e <> Unreadable) entries ->
  In (blockName analysis, Document m) entries ->
  exists p,
    In p (findSimilarBlockPatterns (blockName analysis)
            (extractCharacteristics analysis rawCode) (Directory entries)) /\
    patternName p = blockName analysis /\ (65 <= similarity p)%Z /\
    suggestedFields p = extractFieldsFromModel m.
Proof.
  intros Hb Hf Hr Hin.
  pose proof (multi_item_matches_own_name analysis rawCode m Hb Hf) as H65.
  exists (patternOf (blockName analysis) (extractCharacteristics analysis rawCode)
                    (blockName analysis) m).
  split; [|cbn [patternOf patternName similarity suggestedFields];
           split; [reflexivity|split; [exact H65|reflexivity]]].
  unfold findSimilarBlockPatterns.
  eapply Permutation_in; [apply sortBySimilarity_perm|].
  apply collectPatterns_complete; [exact Hr|exact Hin|lia].
Qed.

(** The property at the two-card markup and a corpus with the block
    [feature-cards]. *)
Lemma multi_item_offered_own_name_witness :
  let a := analyze (stubNode "Feature Cards") (Some twoCards41) in
  exists p,
    In p (findSimilarBlockPatterns (blockName a) (extractCharacteristics a twoCards41)
            (Directory [(u "feature-cards", Document cardsModel)])) /\
    patternName p = blockName a /\ (65 <= similarity p)%Z /\
    suggestedFields p = extractFieldsFromModel cardsModel.
Proof.
  cbv zeta.
  apply (multi_item_offered_own_name
           (analyze (stubNode "Feature Cards") (Some twoCards41)) twoCards41
           [(u "feature-cards", Document cardsModel)] cardsModel).
  - vm_compute. reflexivity.
  - reflexivity.
  - repeat constructor. cbn [snd]. discriminate.
  - left. vm_compute. reflexivity.
Defined.

(** ** Fixed points of the sanitizer *)

(** A replacement whose pattern matches nowhere. *)
Lemma replaceScan_no_match fl r f (s : str) :
  (forall idx pv t, mexec fl r idx pv t = None) ->
  forall idx pv, replaceScan fl r f idx pv s 0 = s.
Proof.
  intros H. induction s as [|c tl IH]; intros idx pv; cbn [replaceScan]; rewrite H;
    [reflexivity|]. rewrite IH. reflexivity.
Qed.

Lemma nameUnit_not_space (c : char) : isNameUnit c = true -> isSpace c = false.
Proof.
  intros H. apply isNameUnit_spec in H.
  assert (R : (45 <= c <= 122)%N) by lia. clear H.
  unfold isSpace, in_range.
  repeat match goal with
  | |- context [N.leb ?a ?b] => destruct (N.leb_spec a b); try lia
  | |- context [N.eqb ?a ?b] => destruct (N.eqb_spec a b); try lia
  end; try reflexivity.
Qed.

Lemma stageA_fixed (s : str) :
  Forall (fun c => isNameUnit c = true) s ->
  replaceAll noFlags reNotNameChar (fun _ => []) s = s.
Proof.
  intros Hs. unfold replaceAll.
  enough (G : forall idx pv, replaceScan noFlags reNotNameChar (fun _ => []) idx pv s 0 = s)
    by apply G.
  induction Hs as [|c tl Hc Htl IH]; intros idx pv.
  - reflexivity.
  - cbn [replaceScan]. unfold mexec at 1, reNotNameChar. cbn [mrun rest].
    replace (clsMatches noFlags true _ c) with false; [rewrite IH; reflexivity|].
    symmetry. unfold clsMatches, clsHas. cbn.
    rewrite (nameUnit_not_space c Hc). unfold isNameUnit in Hc.
    destruct (in_range 97 122 c), (in_range 48 57 c), (N.eqb c 45); simpl in *; congruence.
Qed.

Lemma stageB_fixed (s : str) :
  Forall (fun c => isNameUnit c = true) s ->
  replaceAll noFlags reBlanks (fun _ => u "-") s = s.
Proof.
  intros Hs. unfold replaceAll.
  enough (G : forall idx pv, replaceScan noFlags reBlanks (fun _ => u "-") idx pv s 0 = s)
    by apply G.
  induction Hs as [|c tl Hc Htl IH]; intros idx pv.
  - cbn [replaceScan]. unfold reBlanks, space.
    rewrite (mexec_plus_nil _ idx pv _ (singleUnit_Cls false [CSpace])). reflexivity.
  - cbn [replaceScan]. unfold reBlanks, space.
    rewrite (mexec_plus_single _ _ (singleUnit_Cls false [CSpace])).
    replace (clsMatches noFlags false [CSpace] c) with false; [rewrite IH; reflexivity|].
    symmetry. unfold clsMatches, clsHas. cbn. rewrite (nameUnit_not_space c Hc). reflexivity.
Qed.

Lemma dropWhile_head_false (p : char -> bool) (s : str) :
  match s with c :: _ => p c = false | [] => True end -> dropWhile p s = s.
Proof. destruct s as [|c tl]; [reflexivity|]. cbn [dropWhile]. intros ->. reflexivity. Qed.

Lemma stageC_fixed n : forall s : str, length s <= n ->
  hasDoubleHyphen s = false ->
  forall idx pv, replaceScan noFlags reHyphens (fun _ => u "-") idx pv s 0 = s.
Proof.
  induction n as [|n IH]; intros s Hn Hd idx pv.
  - destruct s; [|simpl in Hn; lia]. apply hyphens_nil.
  - destruct s as [|c tl]; [apply hyphens_nil|].
    cbn [hasDoubleHyphen] in Hd. apply orb_false_iff in Hd. destruct Hd as (H1 & H2).
    simpl in Hn. destruct (N.eqb c 45) eqn:E.
    + apply N.eqb_eq in E. subst c. cbn [N.eqb Pos.eqb andb] in H1.
      destruct (hyphens_run idx pv tl) as (idx' & pv' & ->).
      rewrite dropWhile_head_false.
      * rewrite IH; [reflexivity|lia|exact H2].
      * destruct tl; [exact I|exact H1].
    + rewrite (hyphens_other idx pv c tl E). rewrite IH; [reflexivity|lia|exact H2].
Qed.

Lemma dropLastHyphen_fixed (s : str) :
  (forall l, s <> l ++ [45%N]) -> dropLastHyphen s = s.
Proof.
  induction s as [|c tl IH]; intros H; [reflexivity|].
  cbn [dropLastHyphen]. destruct tl as [|c' tl'].
  - destruct (N.eqb c 45) eqn:E; [|reflexivity].
    apply N.eqb_eq in E. subst. exfalso. apply (H []). reflexivity.
  - f_equal. apply IH. intros l E. apply (H (c :: l)). cbn [app]. rewrite E. reflexivity.
Qed.

Lemma dropFirstHyphen_fixed (s : str) : headHyphen s = false -> dropFirstHyphen s = s.
Proof. destruct s as [|c tl]; [reflexivity|]. cbn. intros ->. reflexivity. Qed.

(** The names the sanitizer leaves as they are. *)
Lemma sanitizeBlockName_fixed (b : str) :
  Forall (fun c => isNameUnit c = true) b ->
  hasDoubleHyphen b = false ->
  headHyphen b = false ->
  (forall l, b <> l ++ [45%N]) ->
  sanitizeBlockName b = b.
Proof.
  intros Hu Hd Hh He. unfold sanitizeBlockName. cbv zeta.
  assert (L : toLowerCase b = b).
  { unfold toLowerCase. clear Hd Hh He. induction Hu as [|c l Hc Hl IH]; [reflexivity|].
    cbn [map]. rewrite (lowerChar_nameUnit c Hc), IH. reflexivity. }
  rewrite L, (stageA_fixed b Hu), (stageB_fixed b Hu).
  unfold replaceAll at 2. rewrite (stageC_fixed (length b) b (le_n _) Hd).
  rewrite edge_all, (dropFirstHyphen_fixed b Hh). apply dropLastHyphen_fixed. exact He.
Qed.

(** Property X9 ([sanitizeBlockName]).  Sanitizing is idempotent, and the
    names it leaves unchanged are exactly those of lower-case ASCII
    letters, digits and hyphens without a doubled, leading or trailing
    hyphen. *)
Theorem sanitizeBlockName_idempotent (name : str) :
  sanitizeBlockName (sanitizeBlockName name) = sanitizeBlockName name /\
  (sanitizeBlockName name = name <->
   Forall (fun c => isNameUnit c = true) name /\ hasDoubleHyphen name = false /\
   headHyphen name = false /\ (forall l, name <> l ++ [45%N])).
Proof.
  pose proof (sanitizeBlockName_shape name) as H. cbv zeta in H. split.
  - destruct H as (Hu & Hd & Hh & He). apply sanitizeBlockName_fixed; assumption.
  - split.
    + intros E. rewrite E in H. exact H.
    + intros (Hu & Hd & Hh & He). apply sanitizeBlockName_fixed; assumption.
Qed.

(** ** Scores of analyzer results *)

Lemma Math_round_half_sum (a b : Z) (lo : Z) :
  (lo <= a)%Z -> (lo <= b)%Z ->
  (lo <= Math_round (Qdiv (inject_Z (a + b)) (inject_Z 2)))%Z.
Proof.
  intros Ha Hb. unfold Math_round. rewrite <- (Qfloor_Z lo).
  apply Qfloor_resp_le.
  assert (H : (inject_Z lo <= inject_Z (a + b) / inject_Z 2)%Q).
  { apply Qle_shift_div_l; [reflexivity|].
    rewrite <- inject_Z_mult, <- Zle_Qle. lia. }
  lra.
Qed.

Lemma clamp_ge (lo z : Z) : (0 <= lo <= 100)%Z -> (lo <= z)%Z -> (lo <= clamp z)%Z.
Proof. unfold clamp. lia. Qed.

(** Property X10 ([analyze], [calculateConfidenceScore]).  An analysis made
    by [analyze] always carries a signal bag: its block-type score is at
    least 50 and the suggestion to provide generated code never appears;
    when the block is single there is no suggestion at all and no score is
    below 50. *)
Theorem analyze_scores_with_signals node rawCode :
  let a := analyze node rawCode in
  let c := calculateConfidenceScore a in
  (50 <= blockTypeScore c)%Z /\
  ~ In (u "Provide generated code for better analysis") (suggestions c) /\
  (blockType a = MultiItem \/
   (suggestions c = [] /\ (50 <= fieldExtraction c)%Z /\ (50 <= overall c)%Z)).
Proof.
  cbv zeta.
  destruct (analyze_itemFields node rawCode) as (ifs & Hi).
  pose proof (analyze_codeSignals node rawCode) as Hc.
  set (a := analyze node rawCode) in *.
  unfold calculateConfidenceScore. rewrite Hc, Hi. cbv zeta.
  set (sig := parseCodeSignals (processCode rawCode)) in *.
  cbn [semanticCtas].
  destruct (multiItemLikely sig); destruct (0 <? length (repeatedContainerNames sig));
    destruct (0 <? length (containerFields (contentStructure a)));
    destruct (0 <? length ifs);
    destruct (blockType a); cbn [blockTypeEqb];
    destruct (match semanticCtas sig with Some ctas => 0 <? length ctas | None => false end);
    cbn [overall blockTypeScore fieldExtraction reasons suggestions app];
    (split; [unfold clamp; lia|]);
    (split; [cbn [In]; intros H; repeat (destruct H as [H|H]; [vm_compute in H; discriminate|]); exact H|]);
    try (left; reflexivity);
    right; (split; [reflexivity|]); (split; [unfold clamp; lia|]);
    apply Math_round_half_sum; unfold clamp; lia.
Qed.

(** ** The node tree *)

(** Induction on a node with the property at hand for all its children. *)
Lemma FigmaNode_children_ind (P : FigmaNode -> Prop) :
  (forall n, Forall P (childrenOf n) -> P n) -> forall n, P n.
Proof.
  intros H. fix IH 1. intros n. apply H.
  destruct n as [nm ty ch chars st fl bg bb]. unfold childrenOf. cbn [children].
  destruct ch as [cs|]; [|constructor].
  induction cs as [|c cs IHcs]; constructor; [apply IH | exact IHcs].
Qed.

Lemma subtree_eq p n : subtree p n = (p, n) :: subtreesFrom p 0 (childrenOf n).
Proof.
  destruct n as [nm ty ch chars st fl bg bb]. unfold childrenOf. cbn [subtree children].
  destruct ch as [cs|]; [|reflexivity]. f_equal.
  generalize 0. induction cs as [|c cs IH]; intros i; [reflexivity|].
  cbn [subtreesFrom]. f_equal. apply IH.
Qed.

Lemma hasTextChild_eq n :
  hasTextChild n = (isType n "TEXT" || anyTextChild (childrenOf n))%bool.
Proof.
  destruct n as [nm ty ch chars st fl bg bb]. unfold childrenOf. cbn [hasTextChild children].
  destruct (isType _ "TEXT"); [reflexivity|]. cbn [orb].
  destruct ch as [cs|]; [|reflexivity].
  induction cs as [|c cs IH]; [reflexivity|]. cbn [anyTextChild]. rewrite IH. reflexivity.
Qed.

Lemma anyTextChild_subtrees (cs : list FigmaNode) :
  Forall (fun c => forall p,
            hasTextChild c = existsb (fun l => isType (snd l) "TEXT") (subtree p c)) cs ->
  forall p i,
    anyTextChild cs = existsb (fun l => isType (snd l) "TEXT") (subtreesFrom p i cs).
Proof.
  induction 1 as [|c cs Hc Hcs IHcs]; intros p i; [reflexivity|].
  cbn [anyTextChild subtreesFrom]. rewrite existsb_app. f_equal; [apply Hc | apply IHcs].
Qed.

Lemma hasTextChild_subtree n : forall p,
  hasTextChild n = existsb (fun l => isType (snd l) "TEXT") (subtree p n).
Proof.
  induction n as [n IH] using FigmaNode_children_ind. intros p.
  rewrite hasTextChild_eq, subtree_eq. cbn [existsb snd]. f_equal.
  apply anyTextChild_subtrees. exact IH.
Qed.

Lemma existsb_filter_nonempty {A} (f : A -> bool) (l : list A) :
  existsb f l = (0 <? length (filter f l)).
Proof.
  induction l as [|a l IH]; [reflexivity|]. cbn [existsb filter].
  destruct (f a); [reflexivity|exact IH].
Qed.

(** Property X15 ([hasTextChild], [findAllTextNodes]).  [hasTextChild]
    answers true exactly when [findAllTextNodes] finds a text node in the
    same subtree. *)
Theorem hasTextChild_iff_text_nodes (node : Located) :
  hasTextChild (snd node) = (0 <? length (findAllTextNodes node)).
Proof.
  unfold findAllTextNodes, subtreeOf. rewrite <- existsb_filter_nonempty.
  apply hasTextChild_subtree.
Qed.

Lemma Qgtb_true a b : Qgtb a b = true <-> (b < a)%Q.
Proof.
  unfold Qgtb. rewrite negb_true_iff. split.
  - intros H. apply Qnot_le_lt. intros Hle. apply Qle_bool_iff in Hle. congruence.
  - intros H. destruct (Qle_bool a b) eqn:E; [|reflexivity].
    apply Qle_bool_iff in E. exfalso. apply (Qlt_not_le _ _ H E).
Qed.

Lemma Qgtb_false a b : Qgtb a b = false <-> (a <= b)%Q.
Proof.
  unfold Qgtb. rewrite negb_false_iff. apply Qle_bool_iff.
Qed.

Lemma findMainHeading_fold (textNodes : list Located) : forall acc seen,
  (0 <= sizeOfChoice acc)%Q ->
  Forall (fun t => (fontSizeOf (snd t) <= sizeOfChoice acc)%Q) seen ->
  (forall h, acc = Some h -> In h seen /\ (0 < fontSizeOf (snd h))%Q) ->
  let r := fold_left headingStep textNodes acc in
  Forall (fun t => (fontSizeOf (snd t) <= sizeOfChoice r)%Q) (seen ++ textNodes) /\
  (forall h, r = Some h -> In h (seen ++ textNodes) /\ (0 < fontSizeOf (snd h))%Q).
Proof.
  induction textNodes as [|t ts IH]; intros acc seen H0 Hall Hacc; cbv zeta.
  - cbn [fold_left]. rewrite app_nil_r. split; assumption.
  - cbn [fold_left].
    replace (seen ++ t :: ts) with ((seen ++ [t]) ++ ts) by (rewrite <- app_assoc; reflexivity).
    apply IH.
    + unfold headingStep. destruct (Qgtb _ _) eqn:E; [|exact H0].
      apply Qgtb_true in E. cbn [sizeOfChoice]. lra.
    + apply Forall_app. unfold headingStep. destruct (Qgtb _ _) eqn:E.
      * apply Qgtb_true in E. cbn [sizeOfChoice]. split.
        -- eapply Forall_impl; [|exact Hall]. cbn beta. intros a Ha. lra.
        -- repeat constructor. lra.
      * apply Qgtb_false in E. split; [exact Hall|]. repeat constructor. exact E.
    + intros h Hh. unfold headingStep in Hh. destruct (Qgtb _ _) eqn:E.
      * injection Hh as <-. apply Qgtb_true in E. split.
        -- apply in_or_app. right. left. reflexivity.
        -- lra.
      * destruct (Hacc h Hh) as (Hin & Hpos). split; [|exact Hpos].
        apply in_or_app. left. exact Hin.
Qed.

Lemma findMainHeading_unfold textNodes :
  findMainHeading textNodes = fold_left headingStep textNodes None.
Proof. reflexivity. Qed.

(** Property X16 ([findMainHeading]).  The main heading is one of the
    text nodes, its font size is positive and no text node has a larger
    one; there is no main heading exactly when no text node has a positive
    font size. *)
Theorem findMainHeading_largest (textNodes : list Located) :
  match findMainHeading textNodes with
  | Some h =>
      In h textNodes /\ (0 < fontSizeOf (snd h))%Q /\
      Forall (fun t => (fontSizeOf (snd t) <= fontSizeOf (snd h))%Q) textNodes
  | None => Forall (fun t => (fontSizeOf (snd t) <= 0)%Q) textNodes
  end.
Proof.
  rewrite findMainHeading_unfold.
  destruct (findMainHeading_fold textNodes None []) as (Hall & Hsome).
  - cbn. lra.
  - constructor.
  - intros h Hh. discriminate.
  - cbn [app] in *. destruct (fold_left headingStep textNodes None) as [h|].
    + destruct (Hsome h eq_refl) as (Hin & Hpos). repeat split; assumption.
    + exact Hall.
Qed.

Lemma sigEqb_eq a b : sigEqb a b = true <-> a = b.
Proof.
  destruct a as [[w h]|], b as [[w' h']|]; cbn [sigEqb]; split; try discriminate;
    try reflexivity.
  - intros H. apply andb_true_iff in H. destruct H as (H1 & H2).
    apply Z.eqb_eq in H1, H2. congruence.
  - intros [= -> ->]. rewrite !Z.eqb_refl. reflexivity.
Qed.

Lemma addToGroup_ok P c groups :
  P c -> groupsOk P groups ->
  groupsOk P (addToGroup sigEqb (sizeSignature (snd c)) c groups).
Proof.
  intros Hc. unfold groupsOk. induction groups as [|[k vs] rest IH]; intros H.
  - cbn [addToGroup]. repeat constructor. exact Hc.
  - inversion H as [|? ? Hg Hrest]; subst. cbn [addToGroup].
    destruct (sigEqb (sizeSignature (snd c)) k) eqn:E.
    + constructor; [|exact Hrest]. cbn [fst snd] in *. apply Forall_app. split; [exact Hg|].
      repeat constructor; [|exact Hc]. apply sigEqb_eq. exact E.
    + constructor; [exact Hg|]. apply IH. exact Hrest.
Qed.

Lemma fold_addToGroup_ok P (cs : list Located) : forall groups,
  Forall P cs -> groupsOk P groups ->
  groupsOk P (fold_left (fun groups c => addToGroup sigEqb (sizeSignature (snd c)) c groups)
                        cs groups).
Proof.
  induction cs as [|c cs IH]; intros groups Hcs Hg; [exact Hg|].
  inversion Hcs; subst. cbn [fold_left]. apply IH; [assumption|].
  apply addToGroup_ok; assumption.
Qed.

Lemma count_group_le (c : Located) (g : list Located) :
  Forall (fun c' => sizeSignature (snd c') = sizeSignature (snd c)) g ->
  length (filter (sameSize c) g) = length g.
Proof.
  induction 1 as [|c' g Hc Hg IH]; [reflexivity|].
  cbn [filter]. unfold sameSize at 1. rewrite Hc.
  replace (sigEqb _ _) with true by (symmetry; apply sigEqb_eq; reflexivity).
  cbn [length]. rewrite IH. reflexivity.
Qed.

Lemma flat_map_groups P (groups : list (option (Z * Z) * list Located)) :
  groupsOk P groups ->
  forall c, In c (flat_map (fun g => if 2 <=? length (snd g) then snd g else []) groups) ->
    P c /\
    2 <= length (filter (sameSize c)
                   (flat_map (fun g => if 2 <=? length (snd g) then snd g else []) groups)).
Proof.
  intros H. unfold groupsOk in H.
  induction H as [|g rest Hg Hrest IH]; intros c Hin; [destruct Hin|].
  destruct g as [k vs].
  cbn [flat_map snd] in *. rewrite filter_app, length_app.
  apply in_app_or in Hin. destruct Hin as [Hin|Hin].
  - unfold Located in *. destruct (2 <=? length vs) eqn:E; [|destruct Hin].
    apply Nat.leb_le in E. cbn [fst snd] in Hg.
    rewrite Forall_forall in Hg. destruct (Hg c Hin) as (Hk & Hp). split; [exact Hp|].
    rewrite count_group_le; [unfold Located in *; lia|].
    apply Forall_forall. intros c' Hc'. destruct (Hg c' Hc') as (Hk' & _). congruence.
  - destruct (IH c Hin) as (Hp & Hn). split; [exact Hp|]. unfold Located in *. lia.
Qed.

(** Property X17 ([findCandidateItemContainers]).  Every returned
    container is a qualifying container of the subtree, and at least two of
    the returned containers have its rounded size: a container without a
    companion of the same size is never returned. *)
Theorem candidate_containers_come_in_groups (node : Located) :
  Forall (fun c =>
            In c (subtreeOf node) /\ isCandidateContainer c = true /\
            2 <= length (filter (sameSize c) (findCandidateItemContainers node)))
         (findCandidateItemContainers node).
Proof.
  apply Forall_forall. intros c Hin. unfold findCandidateItemContainers in *. cbv zeta in *.
  destruct (flat_map_groups
              (fun c => In c (subtreeOf node) /\ isCandidateContainer c = true) _
              (fold_addToGroup_ok _ (filter isCandidateContainer (subtreeOf node)) []
                 ltac:(apply Forall_forall; intros x Hx; apply filter_In in Hx; exact Hx)
                 ltac:(constructor)) c Hin) as ((H1 & H2) & H3).
  repeat split; assumption.
Qed.

Lemma imageNodesFrom_eq b p n :
  imageNodesFrom b p n
  = imagePushes b (p, n) ++ imagesFromChildren (isIconParent n) p 0 (childrenOf n).
Proof.
  destruct n as [nm ty ch chars st fl bg bb]. unfold childrenOf.
  cbn [imageNodesFrom children]. f_equal.
  destruct ch as [cs|]; [|reflexivity].
  generalize (isIconParent (mkNode nm ty (Some cs) chars st fl bg bb)). intros ip.
  generalize 0. induction cs as [|c cs IH]; intros i; [reflexivity|].
  cbn [imagesFromChildren]. f_equal. apply IH.
Qed.

Lemma isType_exclusive n (s t : string) :
  s <> t -> isType n s = true -> isType n t = false.
Proof.
  unfold isType. intros Hne Hs. apply eqb_eq in Hs.
  destruct (JS.eqb (nodeType n) (u t)) eqn:E; [|reflexivity].
  apply eqb_eq in E. exfalso. apply Hne.
  rewrite Hs in E. revert E. clear. revert t.
  induction s as [|a s IH]; intros [|b t] E; try discriminate; [reflexivity|].
  cbn in E. injection E as Hab E. f_equal.
  - rewrite <- (ascii_N_embedding a), <- (ascii_N_embedding b), Hab. reflexivity.
  - apply IH. exact E.
Qed.

Lemma imagePushes_cases b l : imagePushes b l = [] \/ imagePushes b l = [l].
Proof.
  unfold imagePushes. cbv zeta.
  destruct (imageFill (snd l)) eqn:E1; destruct (isVectorLike (snd l) && negb b)%bool eqn:E2;
    destruct (namedGraphic (snd l)) eqn:E3; destruct (namedIconFrame (snd l)) eqn:E4;
    cbn [orb negb andb app]; rewrite ?andb_false_r; cbn [app];
    try (right; reflexivity); try (left; reflexivity);
    try (destruct (smallVectorFrame (snd l)); [right|left]; reflexivity);
    exfalso;
    unfold imageFill, isVectorLike, namedGraphic, namedIconFrame, isOneOf in *;
    cbn [existsb] in *;
    repeat match goal with
    | H : (_ && _)%bool = true |- _ => apply andb_true_iff in H; destruct H
    | H : (_ || _)%bool = true |- _ => apply orb_true_iff in H; destruct H
    | H : false = true |- _ => discriminate H
    end;
    repeat match goal with
    | H1 : isType ?n ?s = true, H2 : isType ?n ?t = true |- _ =>
        rewrite (isType_exclusive n s t ltac:(discriminate) H1) in H2; discriminate H2
    end.
Qed.

Lemma images_under (cs : list FigmaNode) :
  Forall (fun c => forall b p x, In x (imageNodesFrom b p c) ->
                     exists r, fst x = p ++ r) cs ->
  forall b p i x, In x (imagesFromChildren b p i cs) ->
    exists j r, i <= j /\ fst x = p ++ j :: r.
Proof.
  induction 1 as [|c cs Hc Hcs IH]; intros b p i x Hin; [destruct Hin|].
  cbn [imagesFromChildren] in Hin. apply in_app_or in Hin. destruct Hin as [Hin|Hin].
  - destruct (Hc b (p ++ [i]) x Hin) as (r & E). exists i, r. split; [lia|].
    rewrite E, <- app_assoc. reflexivity.
  - destruct (IH b p (S i) x Hin) as (j & r & Hj & E). exists j, r. split; [lia|exact E].
Qed.

Lemma imageNodesFrom_under n : forall b p x,
  In x (imageNodesFrom b p n) -> exists r, fst x = p ++ r.
Proof.
  induction n as [n IH] using FigmaNode_children_ind. intros b p x Hin.
  rewrite imageNodesFrom_eq in Hin. apply in_app_or in Hin. destruct Hin as [Hin|Hin].
  - destruct (imagePushes_cases b (p, n)) as [E|E]; rewrite E in Hin; [destruct Hin|].
    destruct Hin as [<-|[]]. exists []. rewrite app_nil_r. reflexivity.
  - destruct (images_under _ IH _ _ _ _ Hin) as (j & r & _ & E). exists (j :: r). exact E.
Qed.

Lemma images_children_NoDup (cs : list FigmaNode) :
  Forall (fun c => forall b p, NoDup (map fst (imageNodesFrom b p c))) cs ->
  forall b p i, NoDup (map fst (imagesFromChildren b p i cs)).
Proof.
  induction 1 as [|c cs Hc Hcs IH]; intros b p i; [constructor|].
  cbn [imagesFromChildren]. rewrite map_app. apply NoDup_app; [apply Hc|apply IH|].
  intros q Hq Hq'. apply in_map_iff in Hq, Hq'.
  destruct Hq as (x & <- & Hx). destruct Hq' as (y & E & Hy).
  destruct (imageNodesFrom_under c b (p ++ [i]) x Hx) as (r & Ex).
  assert (Hall : Forall (fun c => forall b p x, In x (imageNodesFrom b p c) ->
                                    exists r, fst x = p ++ r) cs).
  { apply Forall_forall. intros c' _. apply imageNodesFrom_under. }
  destruct (images_under cs Hall b p (S i) y Hy) as (j & r' & Hj & Ey).
  rewrite Ex, Ey, <- app_assoc in E. apply app_inv_head in E. cbn in E.
  injection E as E _. lia.
Qed.

Lemma imageNodesFrom_NoDup n : forall b p, NoDup (map fst (imageNodesFrom b p n)).
Proof.
  induction n as [n IH] using FigmaNode_children_ind. intros b p.
  rewrite imageNodesFrom_eq, map_app. apply NoDup_app.
  - destruct (imagePushes_cases b (p, n)) as [E|E]; rewrite E; repeat constructor.
    intros [].
  - apply images_children_NoDup. exact IH.
  - intros q Hq Hq'. apply in_map_iff in Hq, Hq'.
    destruct Hq as (x & <- & Hx). destruct Hq' as (y & E & Hy).
    destruct (imagePushes_cases b (p, n)) as [E'|E']; rewrite E' in Hx; [destruct Hx|].
    destruct Hx as [<-|[]]. cbn [fst] in E.
    assert (Hall : Forall (fun c => forall b p x, In x (imageNodesFrom b p c) ->
                                      exists r, fst x = p ++ r) (childrenOf n)).
    { apply Forall_forall. intros c' _. apply imageNodesFrom_under. }
    destruct (images_under _ Hall _ _ _ _ Hy) as (j & r & _ & Ey).
    rewrite Ey in E. apply (f_equal (@length nat)) in E. rewrite length_app in E.
    cbn [length] in E. lia.
Qed.

Lemma images_children_in (cs : list FigmaNode) :
  Forall (fun c => forall b p x, In x (imageNodesFrom b p c) -> In x (subtree p c)) cs ->
  forall b p i x, In x (imagesFromChildren b p i cs) -> In x (subtreesFrom p i cs).
Proof.
  induction 1 as [|c cs Hc Hcs IH]; intros b p i x Hin; [destruct Hin|].
  cbn [imagesFromChildren subtreesFrom] in *. apply in_app_or in Hin. apply in_or_app.
  destruct Hin as [Hin|Hin]; [left; apply (Hc b); exact Hin|right; apply (IH b); exact Hin].
Qed.

Lemma imageNodesFrom_in n : forall b p x,
  In x (imageNodesFrom b p n) -> In x (subtree p n).
Proof.
  induction n as [n IH] using FigmaNode_children_ind. intros b p x Hin.
  rewrite imageNodesFrom_eq in Hin. rewrite subtree_eq.
  apply in_app_or in Hin. destruct Hin as [Hin|Hin].
  - destruct (imagePushes_cases b (p, n)) as [E|E]; rewrite E in Hin; [destruct Hin|].
    destruct Hin as [<-|[]]. left. reflexivity.
  - right. apply (images_children_in _ IH _ _ _ _ Hin).
Qed.

(** Property X18 ([findAllImageNodes]).  No node is listed twice among the
    image nodes, and every listed node belongs to the subtree. *)
Theorem image_nodes_listed_once (node : Located) :
  NoDup (map fst (findAllImageNodes node)) /\
  Forall (fun x => In x (subtreeOf node)) (findAllImageNodes node).
Proof.
  split; [apply imageNodesFrom_NoDup|].
  apply Forall_forall. intros x Hx. apply (imageNodesFrom_in _ _ _ _ Hx).
Qed.

(** ** Invariants of the signal bag *)

Lemma dropWhile_idem (p : char -> bool) (s : str) :
  dropWhile p (dropWhile p s) = dropWhile p s.
Proof.
  induction s as [|c s IH]; [reflexivity|]. cbn [dropWhile].
  destruct (p c) eqn:E; [exact IH|]. cbn [dropWhile]. rewrite E. reflexivity.
Qed.

Lemma dropWhile_app_keep (p : char -> bool) (s : str) (c : char) :
  p c = false -> dropWhile p (s ++ [c]) = dropWhile p s ++ [c].
Proof.
  intros Hc. induction s as [|x s IH]; cbn [app dropWhile]; [rewrite Hc; reflexivity|].
  destruct (p x); [exact IH|reflexivity].
Qed.

Lemma trimEnd_head (c : char) (s : str) :
  isSpace c = false -> exists t, trimEnd (c :: s) = c :: t.
Proof.
  intros Hc. unfold trimEnd. cbn [rev].
  rewrite (dropWhile_app_keep isSpace (rev s) c Hc), rev_app_distr. cbn [rev app].
  eexists. reflexivity.
Qed.

Lemma trimEnd_idem (s : str) : trimEnd (trimEnd s) = trimEnd s.
Proof. unfold trimEnd. rewrite rev_involutive, dropWhile_idem. reflexivity. Qed.

Lemma trimStart_head (s : str) :
  match trimStart s with c :: _ => isSpace c = false | [] => True end.
Proof.
  unfold trimStart. induction s as [|c s IH]; [exact I|]. cbn [dropWhile].
  destruct (isSpace c) eqn:E; [exact IH|exact E].
Qed.

Lemma trim_idempotent (s : str) : trim (trim s) = trim s.
Proof.
  unfold trim. pose proof (trimStart_head s) as H.
  destruct (trimStart s) as [|c t] eqn:E.
  - reflexivity.
  - destruct (trimEnd_head c t H) as (t' & Ht). rewrite Ht.
    assert (Hs : trimStart (c :: t') = c :: t')
      by (unfold trimStart; cbn [dropWhile]; rewrite H; reflexivity).
    rewrite Hs, <- Ht. apply trimEnd_idem.
Qed.

Lemma distinctFrom_spec (xs : list str) : forall seen,
  NoDup (distinctFrom seen xs) /\
  forall x, In x (distinctFrom seen xs) -> In x xs /\ ~ In x seen.
Proof.
  induction xs as [|x xs IH]; intros seen; cbn [distinctFrom].
  - split; [constructor|]. intros x [].
  - destruct (existsb (JS.eqb x) seen) eqn:E.
    + destruct (IH seen) as (Hn & Hi). split; [exact Hn|].
      intros y Hy. destruct (Hi y Hy). split; [right|]; assumption.
    + destruct (IH (x :: seen)) as (Hn & Hi). split.
      * constructor; [|exact Hn]. intros Hin. destruct (Hi x Hin) as (_ & Hno).
        apply Hno. left. reflexivity.
      * intros y [<-|Hy].
        -- split; [left; reflexivity|]. intros Hin.
           apply existsb_eqb_In in Hin. congruence.
        -- destruct (Hi y Hy) as (H1 & H2). split; [right; exact H1|].
           intros Hin. apply H2. right. exact Hin.
Qed.

Lemma headingTextsOf_spec code h :
  In h (headingTextsOf code) -> h <> [] /\ length h <= 60 /\ trim h = h.
Proof.
  unfold headingTextsOf. intros H. apply in_flat_map in H. destruct H as (m & _ & H).
  cbv zeta in H.
  destruct (nonEmpty _ && (_ <=? 60))%bool eqn:E; [|destruct H].
  destruct H as [<-|[]]. apply andb_true_iff in E. destruct E as (E1 & E2).
  apply nonEmpty_true in E1. apply Nat.leb_le in E2.
  repeat split; [exact E1|exact E2|apply trim_idempotent].
Qed.

Lemma containerNamePatterns_NoDup : NoDup containerNamePatterns.
Proof.
  unfold containerNamePatterns.
  repeat (constructor; [cbn [In]; intros H;
                        repeat (destruct H as [H|H]; [vm_compute in H; discriminate|]);
                        exact H|]).
  constructor.
Qed.

Lemma countContainerNames_names code :
  map fst (countContainerNames code)
  = filter (fun p => 0 <? length (matchAll noFlags (containerNameRegex p) code))
           containerNamePatterns.
Proof.
  unfold countContainerNames. induction containerNamePatterns as [|p ps IH]; [reflexivity|].
  cbn [flat_map filter]. cbv zeta.
  destruct (0 <? length (matchAll noFlags (containerNameRegex p) code));
    cbn [app map fst]; rewrite IH; reflexivity.
Qed.

Lemma countContainerNames_entries code :
  Forall (fun e => In (fst e) containerNamePatterns /\ 1 <= snd e /\
                   snd e = length (matchAll noFlags (containerNameRegex (fst e)) code))
         (countContainerNames code).
Proof.
  apply Forall_forall. intros e H. unfold countContainerNames in H.
  apply in_flat_map in H. destruct H as (p & Hp & H). cbv zeta in H.
  destruct (0 <? length (matchAll noFlags (containerNameRegex p) code)) eqn:E; [|destruct H].
  destruct H as [<-|[]]. cbn [fst snd]. apply Nat.ltb_lt in E.
  repeat split; [exact Hp|lia].
Qed.

(** Property X12 ([parseCodeSignals]).  In every signal bag the distinct
    headings are pairwise different, not empty, at most 60 units long and
    without surrounding blanks; the repeated container names are among the
    eight patterns, each at most once and with a count of at least one. *)
Theorem signal_bag_invariants (rawCode : option str) :
  let sig := parseCodeSignals rawCode in
  NoDup (distinctHeadings sig) /\
  Forall (fun h => h <> [] /\ length h <= 60 /\ trim h = h) (distinctHeadings sig) /\
  NoDup (map fst (repeatedContainerNames sig)) /\
  Forall (fun e => In (fst e) containerNamePatterns /\ 1 <= snd e)
         (repeatedContainerNames sig).
Proof.
  cbv zeta. unfold parseCodeSignals.
  destruct rawCode as [rawCode|]; [|cbn; repeat split; constructor].
  destruct (negb (nonEmpty rawCode) || (length rawCode <? 40))%bool;
    [cbn; repeat split; constructor|].
  cbv zeta. cbn [distinctHeadings repeatedContainerNames].
  destruct (distinctFrom_spec (headingTextsOf (toLowerCase rawCode)) []) as (Hn & Hi).
  split; [exact Hn|]. split.
  - apply Forall_forall. intros h Hh. apply (headingTextsOf_spec (toLowerCase rawCode)).
    exact (proj1 (Hi h Hh)).
  - split.
    + rewrite countContainerNames_names. apply NoDup_filter, containerNamePatterns_NoDup.
    + eapply Forall_impl; [|apply countContainerNames_entries].
      cbn beta. intros e (H1 & H2 & _). split; assumption.
Qed.

(** ** Items taken from the markup *)

Lemma Forall_snoc {A} (P : A -> Prop) l x : Forall P l -> P x -> Forall P (l ++ [x]).
Proof. intros Hl Hx. apply Forall_app. split; [exact Hl|repeat constructor; exact Hx]. Qed.

Lemma bulletsOf_nonempty re segment : Forall (fun b : str => b <> []) (bulletsOf re segment).
Proof.
  unfold bulletsOf. apply Forall_forall. intros b H. apply in_flat_map in H.
  destruct H as (m & _ & H). cbv zeta in H.
  destruct (nonEmpty _) eqn:E; [|destruct H]. destruct H as [<-|[]].
  apply nonEmpty_true. exact E.
Qed.

Lemma lists_push (lists : list (list str)) re segment :
  Forall (fun l => l <> [] /\ Forall (fun b : str => b <> []) l) lists ->
  Forall (fun l => l <> [] /\ Forall (fun b : str => b <> []) l)
         (if 0 <? length (bulletsOf re segment) then lists ++ [bulletsOf re segment]
          else lists).
Proof.
  intros H. destruct (0 <? length (bulletsOf re segment)) eqn:E; [|exact H].
  apply Forall_snoc; [exact H|]. split; [|apply bulletsOf_nonempty].
  apply Nat.ltb_lt in E. destruct (bulletsOf re segment); [cbn in E; lia|discriminate].
Qed.

Lemma pushNewHeading_ok headings heading :
  Forall (fun h => okHeading h = true) headings ->
  Forall (fun h => okHeading h = true) (pushNewHeading headings heading).
Proof.
  intros H. unfold pushNewHeading. destruct (okHeading heading && _)%bool eqn:E; [|exact H].
  apply andb_true_iff in E. apply Forall_snoc; [exact H|exact (proj1 E)].
Qed.

Lemma cardComponentStep_ok rawCode acc m : accOk acc -> accOk (cardComponentStep rawCode acc m).
Proof.
  intros (H1 & H2 & H3). unfold cardComponentStep, accOk. cbv zeta.
  cbn [aHeadings aDescriptions aLists]. repeat split.
  - destruct (search noFlags (reProp "title") _) as [t|]; [|exact H1].
    destruct (okHeading _) eqn:E; [apply Forall_snoc; assumption|exact H1].
  - destruct (search noFlags (reProp "text") _) as [t|]; [|exact H2].
    destruct (okDescription _) eqn:E; [apply Forall_snoc; assumption|exact H2].
  - exact H3.
Qed.

Lemma cardDivStep_ok rawCode acc m : accOk acc -> accOk (cardDivStep rawCode acc m).
Proof.
  intros (H1 & H2 & H3). unfold cardDivStep. cbv zeta.
  destruct (negb _); [repeat split; assumption|]. unfold accOk.
  cbn [aHeadings aDescriptions aLists]. repeat split.
  - match goal with |- context [okHeading ?h] => destruct (okHeading h) eqn:E end;
      [apply Forall_snoc; assumption|exact H1].
  - destruct (search flagI (reBodyPara "Paragraph") _) as [p|].
    + destruct (okDescription _) eqn:E; [apply Forall_snoc; assumption|exact H2].
    + destruct (search flagI (reBodyPara "Text") _) as [t|]; [|exact H2].
      destruct (okDescription _) eqn:E; [apply Forall_snoc; assumption|exact H2].
  - apply lists_push. exact H3.
Qed.

Lemma containerStep_ok acc m : accOk acc -> accOk (containerStep acc m).
Proof.
  intros (H1 & H2 & H3). unfold containerStep, accOk. cbv zeta.
  cbn [aHeadings aDescriptions aLists]. repeat split.
  - destruct (search flagI reHeadingPara _) as [h|]; [|exact H1].
    apply pushNewHeading_ok. exact H1.
  - exact H2.
  - apply lists_push. exact H3.
Qed.

Lemma fold_ok {A} (step : Acc -> A -> Acc) (l : list A) :
  (forall acc x, accOk acc -> accOk (step acc x)) ->
  forall acc, accOk acc -> accOk (fold_left step l acc).
Proof.
  intros Hs. induction l as [|x l IH]; intros acc H; [exact H|].
  cbn [fold_left]. apply IH, Hs, H.
Qed.

Lemma fold_pushNewHeading_ok {A} (g : A -> str) (l : list A) : forall hs,
  Forall (fun h => okHeading h = true) hs ->
  Forall (fun h => okHeading h = true)
         (fold_left (fun hs x => pushNewHeading hs (g x)) l hs).
Proof.
  induction l as [|x l IH]; intros hs H; [exact H|].
  cbn [fold_left]. apply IH, pushNewHeading_ok, H.
Qed.

(** Property X13 ([parseRawCodeForMultiItemStructure]).  Every item
    heading taken from the markup is not empty and at most 150 units long
    and every item description has 20 to 500 units, which are the maximal
    lengths of the fields derived from them; every bullet list is not
    empty and holds no empty bullet. *)
Theorem extracted_items_within_bounds (rawCode : str) :
  let e := parseRawCodeForMultiItemStructure rawCode in
  Forall (fun h => h <> [] /\ length h <= 150) (itemHeadings e) /\
  Forall (fun d => 20 <= length d <= 500) (itemDescriptions e) /\
  Forall (fun l => l <> [] /\ Forall (fun b => b <> []) l) (itemLists e).
Proof.
  cbv zeta. unfold parseRawCodeForMultiItemStructure. cbv zeta.
  set (start := if ((0 <? length (matchAll flagI reCardComponent rawCode))
                    && (length (matchAll flagI reCardDiv rawCode) <=? 1))%bool
                then _ else _).
  assert (Hstart : accOk (fst start)).
  { unfold start. destruct (_ && _)%bool; cbn [fst]; apply fold_ok;
      try (repeat split; constructor).
    - intros acc x. apply cardComponentStep_ok.
    - intros acc x. apply cardDivStep_ok. }
  destruct start as [acc0 ctas]. cbn [fst] in Hstart.
  pose proof (fold_ok containerStep (matchAll flagI reContainer rawCode)
                containerStep_ok acc0 Hstart) as (H1 & H2 & H3).
  set (acc := fold_left containerStep (matchAll flagI reContainer rawCode) acc0) in *.
  cbn [itemHeadings itemDescriptions itemLists]. repeat split.
  - assert (Hh : Forall (fun h => okHeading h = true)
                   (if length (aHeadings acc) =? 0
                    then fold_left (fun hs g => pushNewHeading hs (trim (stripHtml (groupOr 1 g))))
                           (matchAll flagI reHeadingPara rawCode) (aHeadings acc)
                    else aHeadings acc)).
    { destruct (length (aHeadings acc) =? 0); [|exact H1].
      apply fold_pushNewHeading_ok. exact H1. }
    eapply Forall_impl; [|exact Hh]. cbn beta. intros h E. unfold okHeading in E.
    apply andb_true_iff in E. destruct E as (E1 & E2).
    apply nonEmpty_true in E1. apply Nat.leb_le in E2. split; assumption.
  - eapply Forall_impl; [|exact H2]. cbn beta. intros d E. unfold okDescription in E.
    apply andb_true_iff in E. destruct E as (E12 & E3).
    apply andb_true_iff in E12. destruct E12 as (_ & E2).
    apply Nat.leb_le in E2, E3. lia.
  - destruct (negb (someNonEmpty (aLists acc))); [|exact H3].
    apply lists_push. exact H3.
Qed.

(** ** Field names *)

Lemma u_inj (s t : string) : u s = u t -> s = t.
Proof.
  unfold u. intros H.
  assert (E : list_ascii_of_string s = list_ascii_of_string t).
  { revert H. generalize (list_ascii_of_string s) (list_ascii_of_string t).
    induction l as [|a l IH]; intros [|b l'] H; try discriminate; [reflexivity|].
    cbn [map] in H. injection H as Hab Hl. f_equal; [|apply IH; exact Hl].
    rewrite <- (ascii_N_embedding a), <- (ascii_N_embedding b), Hab. reflexivity. }
  rewrite <- (string_of_list_ascii_of_string s), <- (string_of_list_ascii_of_string t), E.
  reflexivity.
Qed.

Lemma string_of_uint_inj d d' :
  NilEmpty.string_of_uint d = NilEmpty.string_of_uint d' -> d = d'.
Proof.
  intros H. pose proof (NilEmpty.usu d) as E. rewrite H, NilEmpty.usu in E. congruence.
Qed.

Lemma ofNat_inj n m : ofNat n = ofNat m -> n = m.
Proof.
  unfold ofNat. intros H. apply u_inj, string_of_uint_inj in H.
  apply Unsigned.to_uint_inj. exact H.
Qed.

Lemma ofNat_digits n : Forall (fun c => isDigit c = true) (ofNat n).
Proof.
  unfold ofNat. generalize (Nat.to_uint n). intros d.
  induction d; cbn; constructor; try reflexivity; assumption.
Qed.

Lemma ofNat_nonempty n : ofNat n <> [].
Proof.
  unfold ofNat. intros H.
  assert (E : Nat.to_uint n = Decimal.Nil).
  { destruct (Nat.to_uint n); try reflexivity; discriminate. }
  pose proof (Unsigned.of_to n) as R. rewrite E in R. cbn in R. subst n. discriminate.
Qed.

(** [index === 0 ? '' : index] as text. *)
Lemma indexSuffix_inj i j : indexSuffix i = indexSuffix j -> i = j.
Proof.
  unfold indexSuffix. destruct (Nat.eqb_spec i 0) as [->|Hi], (Nat.eqb_spec j 0) as [->|Hj];
    intros H; try reflexivity.
  - symmetry in H. destruct (ofNat_nonempty _ H).
  - destruct (ofNat_nonempty _ H).
  - apply ofNat_inj. exact H.
Qed.

Lemma indexSuffix_digits i : Forall (fun c => isDigit c = true) (indexSuffix i).
Proof. unfold indexSuffix. destruct (i =? 0); [constructor|apply ofNat_digits]. Qed.

Lemma imageBaseName_eq i : imageBaseName i = u "image" ++ indexSuffix i.
Proof.
  unfold imageBaseName, indexSuffix. destruct (i =? 0); [rewrite app_nil_r|]; reflexivity.
Qed.

Lemma digits_not_alt (s t : str) :
  Forall (fun c => isDigit c = true) s -> s <> t ++ u "Alt".
Proof.
  intros Hs E. rewrite E in Hs. apply Forall_app in Hs. destruct Hs as (_ & Hs).
  inversion Hs as [|? ? Hc _]; subst. discriminate.
Qed.

Lemma distinctNames_NoDup l : distinctNames l = true -> NoDup l.
Proof.
  induction l as [|x l IH]; [constructor|]. cbn [distinctNames]. intros H.
  apply andb_true_iff in H. destruct H as (H1 & H2). constructor; [|apply IH; exact H2].
  intros Hin. apply existsb_eqb_In in Hin. rewrite Hin in H1. discriminate.
Qed.

Lemma NoDup_pairs (a b : nat -> str) (l : list nat) :
  NoDup l ->
  (forall i j, a i = a j -> i = j) -> (forall i j, b i = b j -> i = j) ->
  (forall i j, a i <> b j) ->
  NoDup (flat_map (fun i => [a i; b i]) l).
Proof.
  intros Hl Ha Hb Hab. induction Hl as [|i l Hi Hl IH]; [constructor|].
  cbn [flat_map app].
  assert (Hin : forall x, In x (flat_map (fun i => [a i; b i]) l) ->
                 exists j, In j l /\ (x = a j \/ x = b j)).
  { intros x Hx. apply in_flat_map in Hx. destruct Hx as (j & Hj & [E|[E|[]]]);
      exists j; split; auto. }
  constructor; [|constructor; [|exact IH]].
  - intros [E|H].
    + exact (Hab i i (eq_sym E)).
    + destruct (Hin _ H) as (j & Hj & [E|E]).
      * apply Ha in E. subst. contradiction.
      * exact (Hab _ _ E).
  - intros H. destruct (Hin _ H) as (j & Hj & [E|E]).
    + exact (Hab _ _ (eq_sym E)).
    + apply Hb in E. subst. contradiction.
Qed.

Lemma imageNames_NoDup n : NoDup (imageNames n).
Proof.
  unfold imageNames.
  apply (NoDup_pairs (fun i => u "image" ++ indexSuffix i)
                     (fun i => (u "image" ++ indexSuffix i) ++ u "Alt")).
  - apply seq_NoDup.
  - intros i j E. apply app_inv_head in E. apply indexSuffix_inj. exact E.
  - intros i j E. apply app_inv_tail, app_inv_head in E. apply indexSuffix_inj. exact E.
  - intros i j E. rewrite <- app_assoc in E. apply app_inv_head in E.
    exact (digits_not_alt _ _ (indexSuffix_digits i) E).
Qed.

Lemma startsWith_app (p t : str) : startsWith (p ++ t) p = true.
Proof.
  induction p as [|c p IH]; [destruct t; reflexivity|].
  cbn [app startsWith]. rewrite N.eqb_refl, IH. reflexivity.
Qed.

Lemma imageNames_image n : Forall (fun x => isImageName x = true) (imageNames n).
Proof.
  unfold imageNames. apply Forall_forall. intros x H. apply in_flat_map in H.
  destruct H as (i & _ & [<-|[<-|[]]]); unfold isImageName;
    rewrite <- ?app_assoc; apply startsWith_app.
Qed.

Lemma fieldNames_images lp d {A} (xs : list A) :
  fieldNames (forEachIndex (fun index => imageFieldPair lp d (imageBaseName index) index) xs)
  = imageNames (length xs).
Proof.
  unfold fieldNames, forEachIndex, imageNames. generalize (List.seq 0 (length xs)).
  induction l as [|i l IH]; [reflexivity|].
  cbn [flat_map]. rewrite map_app, IH. cbn [imageFieldPair map name field app].
  rewrite imageBaseName_eq. reflexivity.
Qed.

(** Plain names around the names of the images. *)
Lemma NoDup_around (pre post images : list str) :
  distinctNames (pre ++ post) = true ->
  forallb (fun x => negb (isImageName x)) (pre ++ post) = true ->
  NoDup images -> Forall (fun x => isImageName x = true) images ->
  NoDup (pre ++ images ++ post).
Proof.
  intros Hd Hp Hi Him. apply distinctNames_NoDup in Hd.
  rewrite forallb_forall in Hp. rewrite Forall_forall in Him.
  assert (Hsep : forall x, In x images -> ~ In x (pre ++ post)).
  { intros x Hx Hin. specialize (Hp x Hin). rewrite (Him x Hx) in Hp. discriminate. }
  apply NoDup_app.
  - apply NoDup_app_remove_r in Hd. exact Hd.
  - apply NoDup_app; [exact Hi|apply NoDup_app_remove_l in Hd; exact Hd|].
    intros x Hx Hin. apply (Hsep x Hx). apply in_or_app. right. exact Hin.
  - intros x Hx Hin. apply in_app_or in Hin. destruct Hin as [Hin|Hin].
    + apply (Hsep x Hin). apply in_or_app. left. exact Hx.
    + revert x Hx Hin. clear -Hd. induction pre as [|p pre IH]; intros x Hx Hin; [destruct Hx|].
      cbn [app] in Hd. inversion Hd as [|? ? Hn Hd']; subst. destruct Hx as [->|Hx].
      * apply Hn. apply in_or_app. right. exact Hin.
      * exact (IH Hd' x Hx Hin).
Qed.

Lemma firstTwo_length {A B} (f : A -> nat -> B) (xs : list A) : length (firstTwo f xs) <= 2.
Proof. destruct xs as [|a [|b xs]]; cbn; lia. Qed.

Lemma ctaNames_cases scope {A} (xs : list A) :
  length xs <= 2 ->
  In (fieldNames (forEachIndex (ctaFieldPair scope) xs))
     [[]; [u "primaryCta"; u "primaryCtaText"];
      [u "primaryCta"; u "primaryCtaText"; u "secondaryCta"; u "secondaryCtaText"]].
Proof.
  intros H. unfold forEachIndex. destruct xs as [|a [|b [|c xs]]]; cbn [length] in *;
    [left|right; left|right; right; left|lia]; reflexivity.
Qed.

Theorem container_field_names_distinct t i b a :
  NoDup (fieldNames (analyzeContainerFields t i b a)).
Proof.
  unfold analyzeContainerFields. cbv zeta.
  destruct (findContainerTextContent t (findMainHeading t)) as [simple rich].
  set (ctas := if negb (isCodeBasedListComponent (codeSignals a))
               then findContainerCTAs b a else []).
  assert (Hc : length ctas <= 2).
  { unfold ctas. destruct (negb _); [|cbn; lia]. unfold findContainerCTAs. cbv zeta.
    destruct (0 <? _); apply firstTwo_length. }
  pose proof (ctaNames_cases "container" ctas Hc) as Hn.
  unfold fieldNames in *.
  destruct (findMainHeading t); destruct simple; destruct rich;
    rewrite ?map_app; rewrite <- ?app_assoc;
    change (map name (forEachIndex (fun index =>
              imageFieldPair "Container Image " "Image asset extracted from Figma design"
                             (imageBaseName index) index) i))
      with (fieldNames (forEachIndex (fun index =>
              imageFieldPair "Container Image " "Image asset extracted from Figma design"
                             (imageBaseName index) index) i));
    rewrite fieldNames_images;
    destruct Hn as [E|[E|[E|[]]]]; rewrite <- E;
    cbn [map name field app];
    match goal with
    | |- NoDup (imageNames ?n ++ ?post) =>
        apply (NoDup_around [] post (imageNames n));
        [vm_compute; reflexivity|vm_compute; reflexivity
        |apply imageNames_NoDup|apply imageNames_image]
    | |- NoDup (?x :: imageNames ?n ++ ?post) =>
        apply (NoDup_around [x] post (imageNames n));
        [vm_compute; reflexivity|vm_compute; reflexivity
        |apply imageNames_NoDup|apply imageNames_image]
    end.
Qed.

Lemma item_field_names_distinct n a o : NoDup (fieldNames (analyzeActualContent n a o)).
Proof.
  unfold analyzeActualContent. cbv zeta.
  destruct (findStructuredTextContent (findAllTextNodes n)) as [[hasList multi] simple].
  set (imgs := match o with Some l => l | None => findAllImageNodes n end).
  assert (Hc : length (findItemCTAs n a) <= 2).
  { unfold findItemCTAs. cbv zeta. destruct (_ && _)%bool; apply firstTwo_length. }
  pose proof (ctaNames_cases "item" (findItemCTAs n a) Hc) as Hn.
  unfold fieldNames in *.
  destruct (0 <? length (findRepeatingHeadings (findAllTextNodes n)));
    destruct (hasList || multi)%bool; destruct simple;
    rewrite ?map_app; rewrite <- ?app_assoc;
    change (map name (forEachIndex (fun index =>
              imageFieldPair "Image " "Image asset for this item"
                             (imageBaseName index) index) imgs))
      with (fieldNames (forEachIndex (fun index =>
              imageFieldPair "Image " "Image asset for this item"
                             (imageBaseName index) index) imgs));
    rewrite fieldNames_images;
    destruct Hn as [E|[E|[E|[]]]]; rewrite <- E;
    cbn [map name field app];
    match goal with
    | |- NoDup (imageNames ?n ++ ?post) =>
        apply (NoDup_around [] post (imageNames n));
        [vm_compute; reflexivity|vm_compute; reflexivity
        |apply imageNames_NoDup|apply imageNames_image]
    | |- NoDup (?x :: imageNames ?n ++ ?post) =>
        apply (NoDup_around [x] post (imageNames n));
        [vm_compute; reflexivity|vm_compute; reflexivity
        |apply imageNames_NoDup|apply imageNames_image]
    end.
Qed.

Lemma raw_container_names_distinct e : NoDup (fieldNames (rawContainerFields e)).
Proof.
  unfold rawContainerFields, fieldNames.
  destruct (nonEmpty _); destruct (containerIconPresent e);
    apply distinctNames_NoDup; vm_compute; reflexivity.
Qed.

Lemma raw_item_names_distinct e : NoDup (fieldNames (rawItemFields e)).
Proof.
  unfold rawItemFields, fieldNames.
  destruct (0 <? length (itemHeadings e)); destruct (itemIconsPresent e);
    destruct (0 <? length (itemDescriptions e)); destruct (someNonEmpty _);
    destruct (hasItemCTAs e); apply distinctNames_NoDup; vm_compute; reflexivity.
Qed.

Lemma digitsOf_suffix (pre : str) i :
  forallb (fun c => negb (isDigit c)) pre = true ->
  digitsOf (pre ++ indexSuffix i) = indexSuffix i.
Proof.
  unfold digitsOf. induction pre as [|c pre IH]; cbn [forallb app]; intros H.
  - pose proof (indexSuffix_digits i) as D. destruct (indexSuffix i) as [|d s]; [reflexivity|].
    inversion D as [|? ? Hd _]; subst. cbn [dropWhile]. rewrite Hd. reflexivity.
  - apply andb_true_iff in H. destruct H as (Hc & Hp). cbn [dropWhile]. rewrite Hc.
    apply IH. exact Hp.
Qed.

Lemma NoDup_map_key {A B} (g : A -> B) (l : list A) : NoDup (map g l) -> NoDup l.
Proof.
  induction l as [|a l IH]; intros H; [constructor|]. cbn [map] in H.
  inversion H as [|? ? Hn Hl]; subst. constructor; [|apply IH; exact Hl].
  intros Hin. apply Hn. apply in_map. exact Hin.
Qed.

Lemma NoDup_map_injective {A B} (g : A -> B) (l : list A) :
  (forall x y, g x = g y -> x = y) -> NoDup l -> NoDup (map g l).
Proof.
  intros Hg. induction 1 as [|a l Hn Hl IH]; [constructor|]. cbn [map].
  constructor; [|exact IH]. intros Hin. apply in_map_iff in Hin.
  destruct Hin as (b & E & Hb). apply Hg in E. subst. contradiction.
Qed.

Lemma text_names_distinct (textNodes : list Located) :
  NoDup (map (fun inode : nat * Located =>
                (if isHeadingText (snd (snd inode)) then u "heading" else u "text")
                ++ indexSuffix (fst inode))
             (combine (List.seq 0 (length textNodes)) textNodes)).
Proof.
  apply (NoDup_map_key digitsOf). rewrite map_map.
  rewrite (map_ext _ (fun inode : nat * Located => indexSuffix (fst inode))).
  2:{ intros [i n]. cbn [fst snd]. destruct (isHeadingText _); apply digitsOf_suffix;
        reflexivity. }
  rewrite <- (map_map fst indexSuffix).
  assert (E : map fst (combine (List.seq 0 (length textNodes)) textNodes)
              = List.seq 0 (length textNodes)).
  { generalize 0. induction textNodes as [|t ts IH]; intros k; [reflexivity|].
    cbn [length List.seq combine map fst]. rewrite IH. reflexivity. }
  rewrite E. apply NoDup_map_injective; [|apply seq_NoDup].
  intros i j. apply indexSuffix_inj.
Qed.

Lemma names_of_singles {X} (h : X -> BlockField) (l : list X) :
  map name (flat_map (fun x => [h x]) l) = map (fun x => name (h x)) l.
Proof.
  induction l as [|x l IH]; [reflexivity|]. cbn [flat_map app map]. rewrite IH. reflexivity.
Qed.

Lemma names_of_pairs {X} (h k : X -> BlockField) (l : list X) :
  map name (flat_map (fun x => [h x; k x]) l)
  = flat_map (fun x => [name (h x); name (k x)]) l.
Proof.
  induction l as [|x l IH]; [reflexivity|]. cbn [flat_map app map]. rewrite IH. reflexivity.
Qed.

Lemma single_field_names_distinct t i : NoDup (fieldNames (extractAllFields t i)).
Proof.
  unfold extractAllFields, fieldNames, forEachIndex. cbv zeta. rewrite map_app.
  rewrite names_of_singles, names_of_pairs. cbn [name field].
  change (flat_map (fun x : nat => [u "image" ++ indexSuffix x;
                                    (u "image" ++ indexSuffix x) ++ u "Alt"])
                   (List.seq 0 (length i)))
    with (imageNames (length i)).
  apply NoDup_app.
  - apply text_names_distinct.
  - apply imageNames_NoDup.
  - intros x Hx Hin. apply in_map_iff in Hx. destruct Hx as ([k n] & <- & _).
    pose proof (imageNames_image (length i)) as Him. rewrite Forall_forall in Him.
    specialize (Him _ Hin). cbn [fst snd] in Him.
    destruct (isHeadingText _); vm_compute in Him; discriminate.
Qed.

(** Property X14 ([analyzeContentStructure], [analyzeContainerFields],
    [analyzeActualContent], [extractAllFields]).  In an analysis made by
    [analyze] no two container fields share a name, and no two item fields
    do. *)
Theorem analysis_field_names_distinct node rawCode :
  let a := analyze node rawCode in
  NoDup (fieldNames (containerFields (contentStructure a))) /\
  exists fs, itemFields (contentStructure a) = Some fs /\ NoDup (fieldNames fs).
Proof.
  cbv zeta. unfold analyze, analyzeContentStructure, setContentStructure. cbv zeta.
  cbn [blockType blockName contentStructure codeSignals].
  destruct (usesRawCode _ _).
  - cbn [contentStructure containerFields itemFields]. split.
    + apply raw_container_names_distinct.
    + eexists. split; [reflexivity|apply raw_item_names_distinct].
  - destruct (multiItemLikely _); cbn [contentStructure containerFields itemFields]; split.
    + apply container_field_names_distinct.
    + eexists. split; [reflexivity|apply item_field_names_distinct].
    + apply single_field_names_distinct.
    + eexists. split; [reflexivity|constructor].
Qed.

(** ** Interactions and accessibility *)

Lemma dedupSemantic_spec (cs : list SemanticCta) : forall seen,
  NoDup (map (fun c => toLowerCase (trim (text c))) (dedupSemantic seen cs)) /\
  Forall (fun c => In c cs /\ toLowerCase (trim (text c)) <> [] /\
                   ~ In (toLowerCase (trim (text c))) seen)
         (dedupSemantic seen cs).
Proof.
  induction cs as [|c cs IH]; intros seen; cbn [dedupSemantic].
  - split; constructor.
  - cbv zeta. destruct (negb (nonEmpty _) || existsb _ seen)%bool eqn:E.
    + destruct (IH seen) as (Hn & Hf). split; [exact Hn|].
      eapply Forall_impl; [|exact Hf]. cbn beta. intros a (H1 & H2). split; [right|]; assumption.
    + apply orb_false_iff in E. destruct E as (E1 & E2).
      apply negb_false_iff, nonEmpty_true in E1.
      destruct (IH (toLowerCase (trim (text c)) :: seen)) as (Hn & Hf). split.
      * cbn [map]. constructor; [|exact Hn]. intros Hin. apply in_map_iff in Hin.
        destruct Hin as (a & Ha & Hin). rewrite Forall_forall in Hf.
        destruct (Hf a Hin) as (_ & _ & Hno). apply Hno. left. symmetry. exact Ha.
      * constructor.
        -- split; [left; reflexivity|]. split; [exact E1|].
           intros Hin. apply existsb_eqb_In in Hin. congruence.
        -- eapply Forall_impl; [|exact Hf]. cbn beta. intros a (H1 & H2 & H3).
           split; [right; exact H1|]. split; [exact H2|].
           intros Hin. apply H3. right. exact Hin.
Qed.

Lemma dedupHeuristic_spec (cs : list CTAButton) : forall seen,
  NoDup (map heuristicKey (dedupHeuristic seen cs)) /\
  Forall (fun c => In c cs /\ ~ In (heuristicKey c) seen) (dedupHeuristic seen cs).
Proof.
  induction cs as [|c cs IH]; intros seen; cbn [dedupHeuristic].
  - split; constructor.
  - cbv zeta. destruct (existsb _ seen) eqn:E.
    + destruct (IH seen) as (Hn & Hf). split; [exact Hn|].
      eapply Forall_impl; [|exact Hf]. cbn beta. intros a (H1 & H2). split; [right|]; assumption.
    + destruct (IH (toLowerCase (buttonText c) :: seen)) as (Hn & Hf). split.
      * cbn [map]. constructor; [|exact Hn]. intros Hin. apply in_map_iff in Hin.
        destruct Hin as (a & Ha & Hin). rewrite Forall_forall in Hf.
        destruct (Hf a Hin) as (_ & Hno). apply Hno. left. symmetry. exact Ha.
      * constructor.
        -- split; [left; reflexivity|].
           intros Hin. apply existsb_eqb_In in Hin. unfold heuristicKey in Hin. congruence.
        -- eapply Forall_impl; [|exact Hf]. cbn beta. intros a (H1 & H2).
           split; [right; exact H1|]. intros Hin. apply H2. right. exact Hin.
Qed.

Lemma firstThree_eq {A B} (f : A -> nat -> B) (xs : list A) :
  firstThree f xs
  = match xs with
    | [] => []
    | [a] => [f a 0]
    | [a; b] => [f a 0; f b 1]
    | a :: b :: c :: _ => [f a 0; f b 1; f c 2]
    end.
Proof. destruct xs as [|a [|b [|c xs]]]; reflexivity. Qed.

Lemma firstThree_length {A B} (f : A -> nat -> B) (xs : list A) :
  length (firstThree f xs) = Nat.min 3 (length xs).
Proof. destruct xs as [|a [|b [|c xs]]]; reflexivity. Qed.

Lemma firstThree_map {A B C} (f : A -> nat -> B) (h : B -> C) (k : A -> C) (xs : list A) :
  (forall x i, h (f x i) = k x) ->
  map h (firstThree f xs) = map k (firstn 3 xs).
Proof.
  intros H. destruct xs as [|a [|b [|c xs]]]; cbn; rewrite ?H; reflexivity.
Qed.

Lemma firstThree_ranks {A} (f : A -> nat -> CTAButton) (xs : list A) :
  (forall x i, rank (f x i) = rankOf i) ->
  map rank (firstThree f xs) = ranksOf (length xs).
Proof.
  intros H. destruct xs as [|a [|b [|c xs]]]; cbn; rewrite ?H, ?firstn_nil; reflexivity.
Qed.

Lemma ranksOf_min n : ranksOf (Nat.min 3 n) = ranksOf n.
Proof.
  destruct n as [|[|[|n]]]; try reflexivity.
  unfold ranksOf. cbn [Nat.min firstn]. rewrite firstn_nil. reflexivity.
Qed.

Lemma In_firstn {A} (x : A) (l : list A) : forall n, In x (firstn n l) -> In x l.
Proof.
  induction l as [|a l IH]; intros n H; [rewrite firstn_nil in H; exact H|].
  destruct n as [|n]; [destruct H|]. cbn [firstn] in H.
  destruct H as [H|H]; [left; exact H|right; exact (IH n H)].
Qed.

Lemma NoDup_firstn {A} (n : nat) (l : list A) : NoDup l -> NoDup (firstn n l).
Proof.
  revert n. induction l as [|a l IH]; intros n H; [rewrite firstn_nil; constructor|].
  destruct n as [|n]; [constructor|]. inversion H; subst. cbn [firstn].
  constructor; [|apply IH; assumption].
  intros Hin. apply In_firstn in Hin. contradiction.
Qed.

Lemma ctaOfSemantic_url cta i : url (ctaOfSemantic cta i) <> [].
Proof.
  unfold ctaOfSemantic. cbn [url]. destruct (href cta) as [h|]; [|discriminate].
  destruct (nonEmpty h) eqn:E; [apply nonEmpty_true; exact E|discriminate].
Qed.

(** Property X19 ([analyzeInteractions], [findCTAButtons]).  The analysis
    gets at most three CTA buttons; the first is primary and the others
    secondary; no URL is empty.  On the semantic branch the buttons carry
    texts of semantic CTAs that differ up to case and surrounding blanks;
    on the heuristic branch (no semantic CTA) the texts differ up to case
    and every URL is the placeholder. *)
Theorem analyzeInteractions_buttons (node : Located) (analysis : BlockAnalysis) :
  let ctas := fst (analyzeInteractions node analysis) in
  length ctas <= 3 /\
  map rank ctas = ranksOf (length ctas) /\
  Forall (fun c => url c <> []) ctas /\
  match snd (analyzeInteractions node analysis) with
  | Semantic =>
      semanticCtasOf analysis <> [] /\
      NoDup (map semanticKey ctas) /\
      Forall (fun c => semanticKey c <> [] /\
                       exists s, In s (semanticCtasOf analysis) /\ text s = buttonText c) ctas
  | Heuristic =>
      semanticCtasOf analysis = [] /\
      NoDup (map heuristicKey ctas) /\
      Forall (fun c => url c = u "#") ctas
  end.
Proof.
  cbv zeta. unfold analyzeInteractions. cbv zeta.
  destruct (semanticCtasOf analysis) as [|s0 ss] eqn:Es.
  - cbn [length Nat.ltb Nat.leb fst snd].
    set (l := dedupHeuristic [] (findCTAButtons node)).
    destruct (dedupHeuristic_spec (findCTAButtons node) []) as (Hn & Hf). fold l in Hn, Hf.
    set (f := fun (c : CTAButton) (i : nat) =>
                {| buttonText := buttonText c; rank := rankOf i; url := url c |}).
    assert (Hurl : Forall (fun c => url c = u "#") (firstThree f l)).
    { assert (Hall : Forall (fun c => url c = u "#") l).
      { eapply Forall_impl; [|exact Hf]. cbn beta. intros c (Hin & _).
        unfold findCTAButtons in Hin. cbv zeta in Hin. apply in_map_iff in Hin.
        destruct Hin as (ib & <- & _). reflexivity. }
      rewrite firstThree_eq. destruct l as [|a [|b [|c l']]];
        repeat match goal with H : Forall _ (_ :: _) |- _ => inversion H; subst; clear H end;
        repeat constructor; assumption. }
    split; [rewrite firstThree_length; lia|].
    split; [rewrite firstThree_length, firstThree_ranks by reflexivity;
            symmetry; apply ranksOf_min|].
    split; [eapply Forall_impl; [|exact Hurl]; cbn beta; intros c ->; discriminate|].
    split; [reflexivity|]. split; [|exact Hurl].
    rewrite (firstThree_map f heuristicKey heuristicKey) by reflexivity.
    rewrite <- firstn_map. apply NoDup_firstn. exact Hn.
  - cbn [length Nat.ltb Nat.leb fst snd]. rewrite <- Es.
    set (l := dedupSemantic [] (semanticCtasOf analysis)).
    destruct (dedupSemantic_spec (semanticCtasOf analysis) []) as (Hn & Hf). fold l in Hn, Hf.
    split; [rewrite firstThree_length; lia|].
    split; [rewrite firstThree_length, firstThree_ranks by reflexivity;
            symmetry; apply ranksOf_min|].
    split.
    { rewrite firstThree_eq. destruct l as [|a [|b [|c l']]]; repeat constructor;
        apply ctaOfSemantic_url. }
    split; [rewrite Es; discriminate|]. split.
    + rewrite (firstThree_map ctaOfSemantic semanticKey
                 (fun c => toLowerCase (trim (text c)))) by reflexivity.
      rewrite <- firstn_map. apply NoDup_firstn. exact Hn.
    + assert (Hall : Forall (fun s => semanticKey (ctaOfSemantic s 0) <> [] /\
                        In s (semanticCtasOf analysis)) l).
      { eapply Forall_impl; [|exact Hf]. cbn beta. intros c (H1 & H2 & _).
        split; assumption. }
      rewrite firstThree_eq. destruct l as [|a [|b [|c l']]];
        repeat match goal with H : Forall _ (_ :: _) |- _ => inversion H; subst; clear H end;
        repeat constructor;
        match goal with
        | H : _ /\ In ?s _ |- semanticKey _ <> [] => exact (proj1 H)
        | H : _ /\ In ?s _ |- exists _, _ /\ text _ = buttonText (ctaOfSemantic ?s _) =>
            exists s; split; [exact (proj2 H)|reflexivity]
        end.
Qed.

Lemma insertByFontSize_length n l : length (insertByFontSize n l) = S (length l).
Proof.
  induction l as [|m l IH]; [reflexivity|]. cbn [insertByFontSize].
  destruct (Qgtb _ _); cbn [length]; [rewrite IH|]; reflexivity.
Qed.

Lemma sortByFontSize_length l : length (sortByFontSize l) = length l.
Proof.
  induction l as [|n l IH]; [reflexivity|]. cbn [sortByFontSize fold_right].
  fold (sortByFontSize l). rewrite insertByFontSize_length, IH. reflexivity.
Qed.

Lemma map_fst_combine_seq {A B} (g : nat -> B) (l : list A) : forall i,
  map (fun ix : nat * A => g (fst ix)) (combine (List.seq i (length l)) l)
  = map g (List.seq i (length l)).
Proof.
  induction l as [|a l IH]; intros i; [reflexivity|].
  cbn [length List.seq combine map fst]. rewrite IH. reflexivity.
Qed.

Lemma firstn_seq n i m : firstn n (List.seq i m) = List.seq i (Nat.min n m).
Proof.
  revert i m. induction n as [|n IH]; intros i m; [reflexivity|].
  destruct m as [|m]; [reflexivity|]. cbn [List.seq firstn Nat.min]. rewrite IH. reflexivity.
Qed.

(** Property X21 ([determineHeadingHierarchy]).  The hierarchy is [h1] to
    [hk] in this order, where [k] is the number of text nodes with a font
    size above 24, at most 6. *)
Theorem determineHeadingHierarchy_levels (node : Located) :
  determineHeadingHierarchy node
  = headingLevels
      (Nat.min 6 (length (filter (fun n => isHeadingText (snd n)) (findAllTextNodes node)))).
Proof.
  unfold determineHeadingHierarchy, headingLevels. cbv zeta.
  rewrite (map_fst_combine_seq (fun i => u "h" ++ ofNat (i + 1))).
  rewrite firstn_map, firstn_seq, sortByFontSize_length. reflexivity.
Qed.

Lemma candidates_trimmed rawCode e :
  In e (ctaCandidates rawCode) -> trim (text e) = text e.
Proof.
  unfold ctaCandidates. cbv zeta. rewrite !in_app_iff. intros [H | [H | H]].
  - unfold buttonCtas in H. apply in_flat_map in H. destruct H as (m & _ & H).
    cbv zeta in H. destruct (buttonTextOk _); [|destruct H].
    destruct H as [<- | []]. cbn [text]. apply trim_idempotent.
  - unfold linkCtas in H. apply in_flat_map in H. destruct H as (m & _ & H).
    cbv zeta in H. destruct (linkOk _ _); [|destruct H].
    destruct H as [<- | []]. cbn [text]. apply trim_idempotent.
  - unfold divButtonCtas in H. apply in_flat_map in H. destruct H as (m & _ & H).
    cbv zeta in H. destruct (orElse _ _) as [tm|]; [|destruct H].
    destruct (buttonTextOk _); [|destruct H].
    destruct H as [<- | []]. cbn [text]. apply trim_idempotent.
Qed.

Lemma toLowerCase_nil (s : str) : toLowerCase s = [] -> s = [].
Proof. destruct s; [reflexivity|discriminate]. Qed.

Lemma dedupSemantic_fixed (cs : list SemanticCta) : forall seen,
  NoDup (map ctaKey cs) ->
  Forall (fun c => trim (text c) = text c /\ text c <> [] /\ ~ In (ctaKey c) seen) cs ->
  dedupSemantic seen cs = cs.
Proof.
  induction cs as [|c cs IH]; intros seen Hn Hf; [reflexivity|].
  inversion Hn as [|? ? Hnotin Hn']; subst. inversion Hf as [|? ? (Ht & Hne & Hs) Hf']; subst.
  cbn [dedupSemantic]. cbv zeta. rewrite Ht.
  replace (nonEmpty (toLowerCase (text c))) with true.
  2:{ symmetry. apply nonEmpty_true. intros E. apply Hne, toLowerCase_nil, E. }
  replace (existsb (JS.eqb (toLowerCase (text c))) seen) with false.
  2:{ symmetry. destruct (existsb _ seen) eqn:E; [|reflexivity].
      apply existsb_eqb_In in E. contradiction. }
  cbn [negb orb]. f_equal. apply IH; [exact Hn'|].
  apply Forall_forall. intros a Ha. rewrite Forall_forall in Hf'.
  destruct (Hf' a Ha) as (H1 & H2 & H3). repeat split; [exact H1|exact H2|].
  intros [E|Hin]; [|exact (H3 Hin)].
  apply Hnotin. apply in_map_iff. exists a. split; [symmetry; exact E|exact Ha].
Qed.

Lemma semanticCtasOf_analyze node rawCode :
  semanticCtasOf (analyze node rawCode)
  = match semanticCtas (parseCodeSignals (processCode rawCode)) with
    | Some l => l | None => []
    end.
Proof. unfold semanticCtasOf. rewrite analyze_codeSignals. reflexivity. Qed.

Lemma parseCodeSignals_ctas_cases (code : option str) :
  semanticCtas (parseCodeSignals code) = Some [] \/
  exists rawCode, semanticCtas (parseCodeSignals code)
                  = Some (dedupCtas [] (ctaCandidates rawCode)).
Proof.
  unfold parseCodeSignals. destruct code as [rawCode|]; [|left; reflexivity].
  destruct (negb (nonEmpty rawCode) || (length rawCode <? 40))%bool; [left; reflexivity|].
  right. exists rawCode. reflexivity.
Qed.

(** Property X20 ([analyze], [analyzeInteractions], [parseCodeSignals]).
    When the markup yields semantic CTAs, the buttons of the analysis are
    the first three of them in their order: the second deduplication finds
    nothing to remove behind [parseCodeSignals]. *)
Theorem analysis_buttons_are_first_semantic_ctas node rawCode :
  let a := analyze node rawCode in
  semanticCtasOf a <> [] ->
  analyzeInteractions ([], node) a = (firstThree ctaOfSemantic (semanticCtasOf a), Semantic).
Proof.
  cbv zeta. intros Hne. unfold analyzeInteractions. cbv zeta.
  destruct (semanticCtasOf (analyze node rawCode)) as [|s0 ss] eqn:Es; [congruence|].
  cbn [length Nat.ltb Nat.leb]. rewrite <- Es. f_equal. f_equal.
  rewrite semanticCtasOf_analyze in *.
  destruct (parseCodeSignals_ctas_cases (processCode rawCode)) as [E|(code & E)];
    rewrite E in *; [discriminate|].
  apply dedupSemantic_fixed; [apply dedupCtas_NoDup|].
  apply Forall_forall. intros c Hc.
  pose proof (dedupCtas_In _ _ _ Hc) as Hin.
  repeat split.
  - apply (candidates_trimmed code). exact Hin.
  - apply (candidates_text code c Hin).
  - intros [].
Qed.

(** The property at a markup with one button. *)
Lemma analysis_buttons_are_first_semantic_ctas_witness :
  let a := analyze (stubNode "Design Context Root") (Some buyNow) in
  semanticCtasOf a <> [] /\
  analyzeInteractions ([], stubNode "Design Context Root") a
  = (firstThree ctaOfSemantic (semanticCtasOf a), Semantic).
Proof.
  cbv zeta.
  assert (H : semanticCtasOf (analyze (stubNode "Design Context Root") (Some buyNow)) <> [])
    by (vm_compute; discriminate).
  split; [exact H|].
  exact (analysis_buttons_are_first_semantic_ctas (stubNode "Design Context Root")
           (Some buyNow) H).
Defined.

(** ** The model generator *)

Lemma readBack_storable f : storable f -> readBack f = f.
Proof.
  intros (H1 & H2 & H3 & H4). destruct f as [n l c v r m d]. unfold readBack.
  cbn [name label component valueType required maxLength description] in *.
  apply nonEmpty_true in H1, H2. rewrite H1, H2. f_equal.
  - destruct m as [k|]; [|reflexivity]. destruct k; [congruence|reflexivity].
  - destruct d as [s|]; [|reflexivity]. destruct s; [congruence|reflexivity].
Qed.

Lemma read_formatted fs :
  map (fun field =>
         {| name := mfName field;
            label := match mfLabel field with
                     | Some l => if nonEmpty l then l else mfName field
                     | None => mfName field
                     end;
            component := match mfComponent field with Some c => c | None => CText end;
            valueType := match mfValueType field with
                         | Some v => if nonEmpty v then v else u "string"
                         | None => u "string"
                         end;
            required := match mfRequired field with Some b => b | None => false end;
            maxLength := mfMaxLength field;
            description := mfDescription field |})
      (map storedField (ModelGenerator.formatModelFields fs))
  = map readBack fs.
Proof.
  unfold ModelGenerator.formatModelFields. rewrite !map_map. apply map_ext.
  intros f. reflexivity.
Qed.

(** The fields read from the stored model are the written fields, each as
    [readBack] gives it. *)
Lemma stored_model_fields (a : BlockAnalysis) :
  extractFieldsFromModel (storedDocument (ModelGenerator.createModel a))
  = map readBack (writtenFields a).
Proof.
  unfold extractFieldsFromModel, storedDocument, ModelGenerator.createModel, writtenFields.
  cbn [models]. destruct (blockType a).
  - unfold ModelGenerator.createSingleItemModel. cbv zeta.
    cbn [ModelGenerator.models map flat_map ModelGenerator.modelFields].
    rewrite app_nil_r. apply read_formatted.
  - unfold ModelGenerator.createMultiItemModel. cbv zeta.
    destruct (containerFields (contentStructure a)) as [|c cs];
      destruct (itemFields (contentStructure a)) as [[|i0 its]|];
      cbn [length Nat.ltb Nat.leb ModelGenerator.models map flat_map app
           ModelGenerator.modelFields];
      rewrite ?app_nil_r, ?read_formatted, ?map_app; try reflexivity.
Qed.

(** Property X23 ([createModel], [formatModelFields],
    [extractFieldsFromModel]).  Reading the stored model of an analysis back
    gives the container fields and, for a multi-item block, the item
    fields behind them, in their order; a field comes back with its name,
    component and [required], an empty label replaced by the name, an empty
    value type by [string], and without a maximal length of zero or an
    empty description. *)
Theorem generated_model_read_back (a : BlockAnalysis) :
  let back := extractFieldsFromModel (storedDocument (ModelGenerator.createModel a)) in
  back = map readBack (writtenFields a) /\
  map name back = map name (writtenFields a) /\
  map component back = map component (writtenFields a) /\
  map required back = map required (writtenFields a).
Proof.
  cbv zeta. rewrite stored_model_fields. split; [reflexivity|].
  rewrite !map_map. repeat split; apply map_ext; intros f; reflexivity.
Qed.

Lemma Forall_flat_map_all {A B} (P : B -> Prop) (h : A -> list B) (xs : list A) :
  (forall x, Forall P (h x)) -> Forall P (flat_map h xs).
Proof.
  intros H. induction xs as [|x xs IH]; [constructor|].
  cbn [flat_map]. apply Forall_app. split; [apply H|exact IH].
Qed.

Ltac storable_field :=
  unfold storable, field; cbn [label valueType maxLength description];
  repeat split; try discriminate; cbn; discriminate.

Ltac storable_list :=
  repeat first
    [ apply Forall_nil
    | apply Forall_cons; [storable_field|]
    | apply Forall_app; split
    | apply Forall_flat_map_all; intros ? ].

Lemma storable_imageFieldPair lp d base i :
  lp <> ""%string -> d <> ""%string -> Forall storable (imageFieldPair lp d base i).
Proof.
  intros H H'. unfold imageFieldPair.
  destruct lp as [|c lp]; [congruence|].
  destruct d as [|c' d]; [congruence|]. storable_list.
Qed.

Lemma storable_ctaFieldPair scope i : Forall storable (ctaFieldPair scope i).
Proof. unfold ctaFieldPair. cbv zeta. destruct (i =? 0); storable_list. Qed.

Lemma storable_rawContainerFields e : Forall storable (rawContainerFields e).
Proof.
  unfold rawContainerFields.
  destruct (nonEmpty _); destruct (containerIconPresent e); storable_list.
Qed.

Lemma storable_rawItemFields e : Forall storable (rawItemFields e).
Proof.
  unfold rawItemFields.
  destruct (0 <? length (itemHeadings e)); destruct (itemIconsPresent e);
    destruct (0 <? length (itemDescriptions e)); destruct (someNonEmpty _);
    destruct (hasItemCTAs e); storable_list.
Qed.

Lemma storable_analyzeContainerFields t i b a :
  Forall storable (analyzeContainerFields t i b a).
Proof.
  unfold analyzeContainerFields, forEachIndex. cbv zeta.
  destruct (findContainerTextContent t (findMainHeading t)) as [simple rich].
  destruct (findMainHeading t); destruct simple; destruct rich;
    repeat first
      [ apply Forall_nil
      | apply Forall_cons; [storable_field|]
      | apply Forall_app; split
      | apply Forall_flat_map_all; intros ?
      | apply storable_imageFieldPair; discriminate
      | apply storable_ctaFieldPair ].
Qed.

Lemma storable_analyzeActualContent n a o : Forall storable (analyzeActualContent n a o).
Proof.
  unfold analyzeActualContent, forEachIndex. cbv zeta.
  destruct (findStructuredTextContent (findAllTextNodes n)) as [[hasList multi] simple].
  destruct (0 <? length _); destruct (hasList || multi)%bool; destruct simple;
    repeat first
      [ apply Forall_nil
      | apply Forall_cons; [storable_field|]
      | apply Forall_app; split
      | apply Forall_flat_map_all; intros ?
      | apply storable_imageFieldPair; discriminate
      | apply storable_ctaFieldPair ].
Qed.

Lemma storable_extractAllFields t i : Forall storable (extractAllFields t i).
Proof.
  unfold extractAllFields, forEachIndex. cbv zeta. apply Forall_app. split.
  - apply Forall_flat_map_all. intros [idx n]. cbn [fst snd].
    constructor; [|constructor].
    unfold storable; cbn [label valueType maxLength description].
    destruct (isHeadingText _); repeat split; try discriminate; cbn; discriminate.
  - apply Forall_flat_map_all. intros idx.
    constructor; [|constructor; [storable_field|constructor]].
    unfold storable; cbn [label valueType maxLength description].
    repeat split; try discriminate; cbn; discriminate.
Qed.

Lemma analyze_fields_storable node rawCode :
  let a := analyze node rawCode in
  Forall storable (containerFields (contentStructure a)) /\
  exists fs, itemFields (contentStructure a) = Some fs /\ Forall storable fs /\
             (blockType a = Single -> fs = []).
Proof.
  cbv zeta. rewrite analyze_blockType.
  unfold analyze, analyzeContentStructure, setContentStructure. cbv zeta.
  cbn [blockType blockName contentStructure codeSignals].
  destruct (usesRawCode _ _) eqn:Eu.
  - cbn [contentStructure containerFields itemFields]. split.
    + apply storable_rawContainerFields.
    + eexists. split; [reflexivity|]. split; [apply storable_rawItemFields|].
      intros Hs. unfold usesRawCode in Eu.
      destruct (multiItemLikely _); [discriminate|]. cbn in Eu. discriminate.
  - destruct (multiItemLikely _); cbn [contentStructure containerFields itemFields]; split.
    + apply storable_analyzeContainerFields.
    + eexists. split; [reflexivity|]. split; [apply storable_analyzeActualContent|].
      discriminate.
    + apply storable_extractAllFields.
    + eexists. split; [reflexivity|]. split; [constructor|reflexivity].
Qed.

Lemma map_readBack_storable fs : Forall storable fs -> map readBack fs = fs.
Proof.
  induction 1 as [|f fs Hf Hfs IH]; [reflexivity|].
  cbn [map]. rewrite (readBack_storable f Hf), IH. reflexivity.
Qed.

(** Property X24 ([analyze], [createModel], [extractFieldsFromModel]).  For
    an analysis made by [analyze], the model that is generated and stored
    gives back exactly the fields of the analysis, the container fields
    followed by the item fields. *)
Theorem analysis_model_round_trip node rawCode :
  let a := analyze node rawCode in
  exists fs, itemFields (contentStructure a) = Some fs /\
    extractFieldsFromModel (storedDocument (ModelGenerator.createModel a))
    = containerFields (contentStructure a) ++ fs.
Proof.
  cbv zeta. destruct (analyze_fields_storable node rawCode) as (Hc & fs & Hi & Hf & Hs).
  exists fs. split; [exact Hi|].
  rewrite stored_model_fields. unfold writtenFields. rewrite Hi.
  destruct (blockType (analyze node rawCode)) eqn:Eb.
  - rewrite (Hs eq_refl), app_nil_r. apply map_readBack_storable. exact Hc.
  - apply map_readBack_storable. apply Forall_app. split; assumption.
Qed.

(** Property X22 ([createModel]).  In a generated model the block itself is
    defined; there are one or two definitions; every model and every
    filter, and every component a filter lists, carries the id of a
    definition; no two models share an id; and there is a filter exactly
    when there is an item definition. *)
Theorem generated_model_references (a : BlockAnalysis) :
  let m := ModelGenerator.createModel a in
  In (blockName a) (definitionIds m) /\
  1 <= length (ModelGenerator.definitions m) <= 2 /\
  Forall (fun gm => In (ModelGenerator.modelId gm) (definitionIds m))
         (ModelGenerator.models m) /\
  Forall (fun f => In (ModelGenerator.filterId f) (definitionIds m) /\
                   Forall (fun c => In c (definitionIds m)) (ModelGenerator.components f))
         (ModelGenerator.filters m) /\
  NoDup (map ModelGenerator.modelId (ModelGenerator.models m)) /\
  (ModelGenerator.filters m = [] <->
   length (ModelGenerator.definitions m) = 1).
Proof.
  cbv zeta. unfold ModelGenerator.createModel, definitionIds.
  destruct (blockType a).
  - unfold ModelGenerator.createSingleItemModel. cbv zeta.
    cbn [ModelGenerator.definitions ModelGenerator.models ModelGenerator.filters map
         ModelGenerator.definitionId ModelGenerator.modelId length].
    repeat split; try lia; repeat constructor; try (intros []).
  - unfold ModelGenerator.createMultiItemModel. cbv zeta.
    assert (Hne : blockName a <> blockName a ++ u "-item").
    { intros E. apply (f_equal (@length _)) in E. rewrite length_app in E.
      cbn in E. lia. }
    destruct (0 <? length (containerFields (contentStructure a)));
      destruct (itemFields (contentStructure a)) as [[|i0 its]|];
      cbn [ModelGenerator.definitions ModelGenerator.models ModelGenerator.filters map app
           ModelGenerator.definitionId ModelGenerator.modelId ModelGenerator.filterId
           ModelGenerator.components length];
      repeat split; try lia; try discriminate;
      repeat first [ apply Forall_nil | apply Forall_cons | apply NoDup_nil
                   | apply NoDup_cons | split ];
      cbn [In]; try tauto; try (intros [H|[]]; congruence).
Qed.

(** ** Element and text classification *)

Section ElementClassification.

Import ElementSemantics.


Lemma upperUnits_fixed (c : char) : noLowerAscii c = true -> JSCase.upperUnits c = [c].
Proof.
  unfold noLowerAscii, JSCase.upperUnits, in_range. intros H.
  apply andb_true_iff in H. destruct H as (H1 & H2). apply N.leb_le in H1.
  apply negb_true_iff in H2. unfold in_range in H2. rewrite H2.
  repeat match goal with
  | |- context [N.leb ?a ?b] => destruct (N.leb_spec a b); try lia
  | |- context [N.eqb ?a ?b] => destruct (N.eqb_spec a b); try lia
  end; reflexivity.
Qed.

Lemma toUpperCase_fixed (text : str) :
  forallb noLowerAscii text = true -> JSCase.toUpperCase text = text.
Proof.
  induction text as [|c t IH]; [reflexivity|]. cbn [forallb]. intros H.
  apply andb_true_iff in H. destruct H as (Hc & Ht).
  unfold JSCase.toUpperCase in *. cbn [flat_map]. rewrite (upperUnits_fixed c Hc), (IH Ht).
  reflexivity.
Qed.

(** Property X25 ([analyzeTextContentSemantics]).  A text of 100 units or
    more is never taken for a heading or a CTA, whatever its font: up to 500
    units it is a description, beyond that a description, a list or
    unknown. *)
Theorem long_text_semantics text fontSize fontWeight :
  100 <= length text ->
  let r := analyzeTextContentSemantics text fontSize fontWeight in
  semanticType r = SDescription \/
  (500 < length text /\ In (semanticType r) [SList; SUnknown]).
Proof.
  intros H. cbv zeta. unfold analyzeTextContentSemantics. cbv zeta.
  replace (length text <? 100) with false by (symmetry; apply Nat.ltb_ge; exact H).
  cbn [andb].
  destruct ((50 <=? length text) && (length text <=? 500))%bool eqn:Em.
  - left. reflexivity.
  - cbn [orb]. apply andb_false_iff in Em.
    assert (H500 : 500 < length text).
    { destruct Em as [Em|Em]; apply Nat.leb_gt in Em; lia. }
    rewrite andb_false_r.
    destruct (2 <=? _); [left; reflexivity|]. right. split; [exact H500|].
    destruct (_ || _)%bool; cbn; tauto.
Qed.

(** The property at a text of 100 units. *)
Lemma long_text_semantics_witness :
  let r := analyzeTextContentSemantics (repeat 97%N 100) None None in
  semanticType r = SDescription \/
  (500 < length (repeat 97%N 100) /\ In (semanticType r) [SList; SUnknown]).
Proof.
  apply (long_text_semantics (repeat 97%N 100) None None). vm_compute. lia.
Defined.

(** Property X26 ([analyzeTextContentSemantics]).  A text of fewer than 100
    units and fewer than 15 words that holds ASCII only and no lower-case
    letter (a number, a price, the empty text) is taken for a heading,
    whatever its font. *)
Theorem uncased_short_text_is_heading text fontSize fontWeight :
  forallb noLowerAscii text = true ->
  length text < 100 ->
  wordCount text < 15 ->
  semanticType (analyzeTextContentSemantics text fontSize fontWeight) = SHeading.
Proof.
  intros Hu Hl Hw. unfold analyzeTextContentSemantics. cbv zeta.
  apply Nat.ltb_lt in Hl, Hw. rewrite Hl, Hw, (toUpperCase_fixed text Hu).
  replace (JS.eqb text text) with true by (symmetry; apply eqb_eq; reflexivity).
  cbn [andb orb]. rewrite !orb_true_r. reflexivity.
Qed.

(** The property at a price and at the empty text. *)
Lemma uncased_short_text_is_heading_witness :
  semanticType (analyzeTextContentSemantics (u "$9.99") None None) = SHeading /\
  semanticType (analyzeTextContentSemantics [] None None) = SHeading.
Proof.
  split.
  - apply uncased_short_text_is_heading; [reflexivity| |]; vm_compute; lia.
  - apply uncased_short_text_is_heading; [reflexivity| |]; vm_compute; lia.
Defined.

End ElementClassification.
